(** * Image-folder slideshow scripts: a shallow embedding

    Two Python scripts assemble a slideshow from a folder of images:
    - [presetaion_only_with_images.py]      (module [ImagesOnly]),
    - [presetaion_with_images_and_music.py] (module [ImagesAndMusic]).

    The embedding follows the scripts function by function.  What the
    scripts obtain from the operating system and from the presentation
    library (directory listings, decoded image sizes, whether a library call
    raises) is read from a [World] record, so every statement holds for all
    behaviours of those collaborators unless a hypothesis says otherwise. *)

From Stdlib Require Import ZArith QArith Qabs Qround Qreduction Qpower.
From Stdlib Require Import Lia Lqa Psatz Bool List Ascii String.
From Stdlib Require Import Sorted Permutation OrderedTypeEx.
Import ListNotations.

Open Scope Z_scope.

(* ================================================================== *)
(** * Python numbers *)
(* ================================================================== *)

(** ** The [Exception]s the scripts can meet *)

Inductive exn : Type :=
| ZeroDivisionError
| OverflowError
| ValueError
| IndexError
| AttributeError
| NameError
| FileNotFoundError
| OSError
| LibraryError.       (* any other [Exception] raised inside the library *)

(** A computation that either raises an [Exception] or returns. *)
Inductive result (A : Type) : Type :=
| Raise (e : exn)
| Return (a : A).
Arguments Raise {A} e.
Arguments Return {A} a.

Definition rbind {A B} (m : result A) (k : A -> result B) : result B :=
  match m with
  | Raise e => Raise e
  | Return a => k a
  end.

(** How a piece of script ends: [exit(code)] was called ([SystemExit], which
    is not an [Exception]), an [Exception] is propagating, or it completed. *)
Inductive outcome (A : Type) : Type :=
| Exit (code : Z)
| Fail (e : exn)
| Done (a : A).
Arguments Exit {A} code.
Arguments Fail {A} e.
Arguments Done {A} a.

Declare Scope result_scope.
Delimit Scope result_scope with result.
Notation "x <- m ;; k" := (rbind m (fun x => k))
  (at level 61, m at next level, right associativity) : result_scope.

Module PyFloat.

(** Python's [float] is IEEE-754 binary64 with round-to-nearest, ties to
    even.  A finite float is represented by the rational it denotes; the
    sign of a zero is not represented (nothing in the scripts observes it:
    comparisons, [int()] and the zero-divisor test treat both zeros alike). *)

Inductive float : Type :=
| Finite (q : Q)
| Infinity (negative : bool)
| NaN.

Definition two_pow (e : Z) : Q := Qpower 2 e.

(** Floor of the base-2 logarithm of a positive rational. *)
Definition ilog2 (q : Q) : Z :=
  let l := Z.log2 (Qnum q) - Z.log2 (Zpos (Qden q)) in
  match (q ?= two_pow l)%Q with
  | Lt => l - 1
  | _ => l
  end.

(** Nearest integer, ties to the even one. *)
Definition rne (q : Q) : Z :=
  let f := Qfloor q in
  match (q - inject_Z f ?= 1 # 2)%Q with
  | Lt => f
  | Gt => f + 1
  | Eq => if Z.even f then f else f + 1
  end.

(** Precision 53, least exponent -1074 (gradual underflow), exponent
    unbounded above: overflow is decided by the caller on the rounded value. *)
Definition round64 (q : Q) : Q :=
  let q := Qred q in
  match Qnum q with
  | 0 => 0%Q
  | _ =>
      let e := Z.max (ilog2 (Qabs q) - 52) (-1074) in
      Qred (inject_Z (rne (q / two_pow e)) * two_pow e)%Q
  end.

Definition is_neg (q : Q) : bool :=
  match (q ?= 0)%Q with Lt => true | _ => false end.

(** The float an exact real result is delivered as. *)
Definition of_real (q : Q) : float :=
  let r := round64 q in
  if Qle_bool (two_pow 1024) (Qabs r) then Infinity (is_neg q) else Finite r.

Definition is_zero (x : float) : bool :=
  match x with
  | Finite q => Qeq_bool q 0
  | _ => false
  end.

Definition sign (x : float) : bool :=
  match x with
  | Finite q => is_neg q
  | Infinity s => s
  | NaN => false
  end.

Definition mul (x y : float) : float :=
  match x, y with
  | NaN, _ | _, NaN => NaN
  | Finite a, Finite b => of_real (a * b)%Q
  | Infinity s, o | o, Infinity s =>
      if is_zero o then NaN else Infinity (xorb s (sign o))
  end.

Definition sub (x y : float) : float :=
  match x, y with
  | NaN, _ | _, NaN => NaN
  | Finite a, Finite b => of_real (a - b)%Q
  | Infinity s, Finite _ => Infinity s
  | Finite _, Infinity s => Infinity (negb s)
  | Infinity s, Infinity t => if Bool.eqb s t then NaN else Infinity s
  end.

(** IEEE division; the caller has excluded a zero divisor. *)
Definition div (x y : float) : float :=
  match x, y with
  | NaN, _ | _, NaN => NaN
  | Finite a, Finite b => of_real (a / b)%Q
  | Finite _, Infinity _ => Finite 0
  | Infinity s, Finite b => Infinity (xorb s (is_neg b))
  | Infinity _, Infinity _ => NaN
  end.

Definition gt (x y : float) : bool :=
  match x, y with
  | Finite a, Finite b => negb (Qle_bool a b)
  | Finite _, Infinity s => s
  | Infinity s, Finite _ => negb s
  | Infinity s, Infinity t => negb s && t
  | _, _ => false
  end.

(** Truncation toward zero. *)
Definition trunc (q : Q) : Z := Z.quot (Qnum q) (Zpos (Qden q)).

(** [int(x)] *)
Definition to_int (x : float) : result Z :=
  match x with
  | Finite q => Return (trunc q)
  | Infinity _ => Raise OverflowError
  | NaN => Raise ValueError
  end.

(** [float(n)] for an [int]: raises when [n] is out of range. *)
Definition of_int (n : Z) : result float :=
  match of_real (inject_Z n) with
  | Finite q => Return (Finite q)
  | _ => Raise OverflowError
  end.

End PyFloat.

(** A Python number as the scripts hold it: [int] or [float]. *)
Inductive pynum : Type :=
| PInt (n : Z)
| PFloat (x : PyFloat.float).

Module PyNum.
Import PyFloat.
Local Open Scope result_scope.

Definition to_float (v : pynum) : result float :=
  match v with
  | PInt n => of_int n
  | PFloat x => Return x
  end.

(** [a / b] *)
Definition truediv (a b : pynum) : result pynum :=
  match a, b with
  | PInt n, PInt d =>
      if d =? 0 then Raise ZeroDivisionError
      else match of_real (inject_Z n / inject_Z d)%Q with
           | Finite q => Return (PFloat (Finite q))
           | _ => Raise OverflowError
           end
  | _, _ =>
      x <- to_float a ;;
      y <- to_float b ;;
      if is_zero y then Raise ZeroDivisionError
      else Return (PFloat (div x y))
  end.

(** [a * b] *)
Definition mul (a b : pynum) : result pynum :=
  match a, b with
  | PInt n, PInt m => Return (PInt (n * m))
  | _, _ =>
      x <- to_float a ;;
      y <- to_float b ;;
      Return (PFloat (PyFloat.mul x y))
  end.

(** [a - b] *)
Definition sub (a b : pynum) : result pynum :=
  match a, b with
  | PInt n, PInt m => Return (PInt (n - m))
  | _, _ =>
      x <- to_float a ;;
      y <- to_float b ;;
      Return (PFloat (PyFloat.sub x y))
  end.

(** [a > b] for two floats *)
Definition gt (a b : pynum) : result bool :=
  match a, b with
  | PInt n, PInt m => Return (m <? n)
  | _, _ =>
      x <- to_float a ;;
      y <- to_float b ;;
      Return (PyFloat.gt x y)
  end.

(** [int(a)] *)
Definition int (a : pynum) : result Z :=
  match a with
  | PInt n => Return n
  | PFloat x => to_int x
  end.

End PyNum.

(* ================================================================== *)
(** * Python strings and paths *)
(* ================================================================== *)

Module PyStr.
Local Open Scope string_scope.

(** [c.lower()] on ASCII.  The scripts lower-case a name only to compare its
    end with extensions made of ASCII letters, digits and a dot, and no
    non-ASCII character lower-cases to one of those letters alone, so the
    bytes outside A-Z can stay as they are. *)
Definition lower_ascii (c : ascii) : ascii :=
  let n := nat_of_ascii c in
  if (Nat.leb 65 n && Nat.leb n 90)%bool then ascii_of_nat (n + 32) else c.

Fixpoint lower (s : string) : string :=
  match s with
  | EmptyString => EmptyString
  | String c r => String (lower_ascii c) (lower r)
  end.

(** [s.startswith(p)] *)
Fixpoint startswith (s p : string) : bool :=
  match p, s with
  | EmptyString, _ => true
  | String _ _, EmptyString => false
  | String a p', String b s' => Ascii.eqb a b && startswith s' p'
  end.

(** [s.endswith(p)] *)
Fixpoint endswith (s p : string) : bool :=
  match s with
  | EmptyString => String.eqb p EmptyString
  | String _ r => String.eqb s p || endswith r p
  end.

(** [s.endswith(t)] for a tuple [t] of suffixes *)
Definition endswith_any (s : string) (t : list string) : bool :=
  existsb (endswith s) t.

(** [os.path.join(a, b)] for a relative, non-empty [b] and a non-empty [a]
    without trailing separator, which is all the scripts pass. *)
Definition join (a b : string) : string := a ++ "/" ++ b.

(** [os.path.basename(p)]: what follows the last separator. *)
Fixpoint basename (p : string) : string :=
  match p with
  | EmptyString => EmptyString
  | String c r =>
      if Ascii.eqb c "/" then basename r
      else if existsb (Ascii.eqb "/") (list_ascii_of_string r) then basename r
      else p
  end.

(** [sorted(names)]: strings compare by code point, which is the order of
    their UTF-8 bytes. *)
Fixpoint insert (x : string) (l : list string) : list string :=
  match l with
  | [] => [x]
  | y :: r => if String.leb x y then x :: l else y :: insert x r
  end.

Fixpoint sorted (l : list string) : list string :=
  match l with
  | [] => []
  | x :: r => insert x (sorted r)
  end.

End PyStr.

(* ================================================================== *)
(** * The presentation library, as far as the scripts use it *)
(* ================================================================== *)

Module Pptx.

(** Lengths are EMU. *)
Definition Emu (n : Z) : Z := n.
Definition Inches_0 : Z := 0.
Definition Inches_0_1 : Z := 91440.
Definition Inches_0_2 : Z := 182880.
Definition Inches_0_5 : Z := 457200.
Definition Inches_1 : Z := 914400.
Definition Inches_1_5 : Z := 1371600.
Definition Inches_9 : Z := 8229600.
Definition Inches_16 : Z := 14630400.
Definition Pt (n : Z) : Z := n * 12700.

Inductive auto_size : Type := TEXT_TO_FIT_SHAPE.

(** What a script has set on a text frame; [None]: left as created. *)
Record text_frame : Type := {
  tf_text : option string;
  tf_font_size : option Z;
  tf_font_bold : option bool;
  tf_auto_size : option auto_size;
  tf_word_wrap : option bool
}.

Definition empty_frame : text_frame :=
  {| tf_text := None; tf_font_size := None; tf_font_bold := None;
     tf_auto_size := None; tf_word_wrap := None |}.

(** A picture shape.  An extent the caller did not give is chosen by the
    library: [None]. *)
Record picture : Type := {
  pic_image : string;            (* path the image was read from *)
  pic_size : Z * Z;              (* [pic.image.size], pixels *)
  pic_left : Z;
  pic_top : Z;
  pic_width : option Z;
  pic_height : option Z
}.

Inductive shape : Type :=
| Placeholder (idx : nat) (tf : text_frame)
| Picture (p : picture)
| TextBox (left top width height : Z) (tf : text_frame)
| Movie (path : string) (left top width height : Z) (mime_type : string).

(** [slide.slide_show_transition], as set by a script. *)
Record transition : Type := {
  advance_on_click : option bool;
  advance_on_time : option bool;
  advance_time : option Z
}.

Definition no_transition : transition :=
  {| advance_on_click := None; advance_on_time := None; advance_time := None |}.

Record slide : Type := {
  s_layout : nat;
  s_shapes : list shape;
  s_transition : transition
}.

Record presentation : Type := {
  slide_width : Z;
  slide_height : Z;
  slides : list slide
}.

(** A slide layout, by the [idx] of the placeholders a new slide gets. *)
Definition layout : Type := list nat.

Definition new_slide (i : nat) (l : layout) : slide :=
  {| s_layout := i;
     s_shapes := map (fun idx => Placeholder idx empty_frame) l;
     s_transition := no_transition |}.

End Pptx.

(* ================================================================== *)
(** * Operating system and library behaviour *)
(* ================================================================== *)

Record World : Type := {
  (** [os.path.isdir], [os.path.isfile], [os.path.exists] *)
  w_isdir : string -> bool;
  w_isfile : string -> bool;
  w_exists : string -> bool;
  (** [os.listdir]: the names, in the order the system gives them *)
  w_listdir : string -> result (list string);
  (** [Presentation()]: slide size and layouts of the default template *)
  w_template_width : Z;
  w_template_height : Z;
  w_layouts : list Pptx.layout;
  (** [shapes.add_picture(path, ...)]: raises, or yields a picture whose
      image has this pixel size *)
  w_open_image : string -> result (Z * Z);
  (** [shapes.add_movie(path, ...)] *)
  w_add_movie : string -> result unit;
  (** [prs.save(path)] *)
  w_save : string -> result unit;
  (** whether a slide offers [slide_show_transition] *)
  w_has_transition : bool
}.

(* ================================================================== *)
(** * Script state and the exception monad over it *)
(* ================================================================== *)

Section Script.
Import Pptx.
Context {message : Type}.

Record state : Type := {
  prs : presentation;                (* the presentation object *)
  console : list message;            (* what has been printed *)
  output : option presentation       (* what the last completed [save] wrote *)
}.

(** State changes made before an exception is raised persist. *)
Definition M (A : Type) : Type := state -> state * outcome A.

Definition ret {A} (a : A) : M A := fun st => (st, Done a).
Definition raise {A} (e : exn) : M A := fun st => (st, Fail e).
Definition exit {A} (code : Z) : M A := fun st => (st, Exit code).
Definition bind {A B} (m : M A) (k : A -> M B) : M B :=
  fun st =>
    match m st with
    | (st', Exit code) => (st', Exit code)
    | (st', Fail e) => (st', Fail e)
    | (st', Done a) => k a st'
    end.
Definition lift {A} (r : result A) : M A :=
  fun st =>
    match r with
    | Raise e => (st, Fail e)
    | Return a => (st, Done a)
    end.

(** [try: m  except <class> as e: h e], for the exceptions [catches] accepts *)
Definition try_catch {A} (catches : exn -> bool) (m : M A) (h : exn -> M A)
  : M A :=
  fun st =>
    match m st with
    | (st', Fail e) => if catches e then h e st' else (st', Fail e)
    | r => r
    end.

(** [try: m  except Exception as e: h e] *)
Definition try_except {A} (m : M A) (h : exn -> M A) : M A :=
  try_catch (fun _ => true) m h.

(** [try: m  except: h] *)
Definition try_except_all {A} (m : M A) (h : M A) : M A :=
  fun st =>
    match m st with
    | (st', Done a) => (st', Done a)
    | (st', _) => h st'
    end.

Definition print (m : message) : M unit :=
  fun st =>
    ({| prs := prs st; console := console st ++ [m]; output := output st |},
     Done tt).

Definition get_prs : M presentation := fun st => (st, Done (prs st)).

Definition modify_prs (f : presentation -> presentation) : M unit :=
  fun st =>
    ({| prs := f (prs st); console := console st; output := output st |},
     Done tt).

End Script.
Arguments state : clear implicits.
Arguments M : clear implicits.

Declare Scope script_scope.
Delimit Scope script_scope with script.
Notation "x <- m ;; k" := (bind m (fun x => k))
  (at level 61, m at next level, right associativity) : script_scope.
Notation "m ;; k" := (bind m (fun _ => k))
  (at level 61, right associativity) : script_scope.

(** ** Library objects, addressed by position

    A slide object is its index in [prs.slides], a shape object its index in
    the slide's shape tree: mutating the object mutates the presentation. *)

Section Objects.
Import Pptx.
Context {message : Type}.
Local Open Scope script_scope.

Fixpoint update {A} (n : nat) (f : A -> A) (l : list A) : list A :=
  match l, n with
  | [], _ => []
  | x :: r, O => f x :: r
  | x :: r, S n' => x :: update n' f r
  end.

Fixpoint remove_nth {A} (n : nat) (l : list A) : list A :=
  match l, n with
  | [], _ => []
  | _ :: r, O => r
  | x :: r, S n' => x :: remove_nth n' r
  end.

Definition with_slides (f : list slide -> list slide) (p : presentation)
  : presentation :=
  {| slide_width := slide_width p; slide_height := slide_height p;
     slides := f (slides p) |}.

Definition with_shapes (f : list shape -> list shape) (s : slide) : slide :=
  {| s_layout := s_layout s; s_shapes := f (s_shapes s);
     s_transition := s_transition s |}.

Definition with_transition (f : transition -> transition) (s : slide) : slide :=
  {| s_layout := s_layout s; s_shapes := s_shapes s;
     s_transition := f (s_transition s) |}.

Definition on_slide (s : nat) (f : slide -> slide) : M message unit :=
  modify_prs (with_slides (update s f)).

Definition shapes_of (s : nat) : M message (list shape) :=
  p <- get_prs ;;
  ret (match nth_error (slides p) s with
       | Some sl => s_shapes sl
       | None => []
       end).

(** [prs.slide_layouts[i]] *)
Definition slide_layouts (wd : World) (i : nat) : M message layout :=
  match nth_error (w_layouts wd) i with
  | Some l => ret l
  | None => raise IndexError
  end.

(** [prs.slides.add_slide(layout)] *)
Definition add_slide (i : nat) (l : layout) : M message nat :=
  p <- get_prs ;;
  modify_prs (with_slides (fun ss => ss ++ [new_slide i l])) ;;
  ret (List.length (slides p)).

Definition add_shape (s : nat) (sh : shape) : M message nat :=
  shs <- shapes_of s ;;
  on_slide s (with_shapes (fun l => l ++ [sh])) ;;
  ret (List.length shs).

(** [slide.shapes.add_picture(path, left, top, width)] *)
Definition add_picture (wd : World) (s : nat) (path : string)
    (left top : Z) (width : option Z) : M message (nat * (Z * Z)) :=
  size <- lift (w_open_image wd path) ;;
  pic <- add_shape s (Picture {| pic_image := path; pic_size := size;
                                 pic_left := left; pic_top := top;
                                 pic_width := width; pic_height := None |}) ;;
  ret (pic, size).

Definition set_picture (s pic : nat) (f : picture -> picture) : M message unit :=
  on_slide s (with_shapes (update pic (fun sh =>
    match sh with
    | Picture p => Picture (f p)
    | o => o
    end))).

Definition set_left (v : Z) (p : picture) : picture :=
  {| pic_image := pic_image p; pic_size := pic_size p; pic_left := v;
     pic_top := pic_top p; pic_width := pic_width p;
     pic_height := pic_height p |}.
Definition set_top (v : Z) (p : picture) : picture :=
  {| pic_image := pic_image p; pic_size := pic_size p; pic_left := pic_left p;
     pic_top := v; pic_width := pic_width p; pic_height := pic_height p |}.
Definition set_width (v : Z) (p : picture) : picture :=
  {| pic_image := pic_image p; pic_size := pic_size p; pic_left := pic_left p;
     pic_top := pic_top p; pic_width := Some v; pic_height := pic_height p |}.
Definition set_height (v : Z) (p : picture) : picture :=
  {| pic_image := pic_image p; pic_size := pic_size p; pic_left := pic_left p;
     pic_top := pic_top p; pic_width := pic_width p; pic_height := Some v |}.

(** [sp.getparent().remove(sp)] *)
Definition remove_shape (s sh : nat) : M message unit :=
  on_slide s (with_shapes (remove_nth sh)).

(** The placeholders of a slide, as (shape, idx) pairs in document order. *)
Fixpoint placeholders_from (n : nat) (l : list shape) : list (nat * nat) :=
  match l with
  | [] => []
  | Placeholder idx _ :: r => (n, idx) :: placeholders_from (S n) r
  | _ :: r => placeholders_from (S n) r
  end.

(** [slide.placeholders] *)
Definition placeholders (s : nat) : M message (list (nat * nat)) :=
  shs <- shapes_of s ;;
  ret (placeholders_from 0 shs).

(** [slide.shapes.title]: the placeholder with idx 0, if any. *)
Definition shapes_title (s : nat) : M message (option nat) :=
  phs <- placeholders s ;;
  ret (option_map fst (find (fun ph => Nat.eqb (snd ph) 0) phs)).

Definition set_frame (s sh : nat) (f : text_frame -> text_frame) : M message unit :=
  on_slide s (with_shapes (update sh (fun x =>
    match x with
    | Placeholder idx tf => Placeholder idx (f tf)
    | TextBox l t w h tf => TextBox l t w h (f tf)
    | o => o
    end))).

Definition set_text (v : string) (tf : text_frame) : text_frame :=
  {| tf_text := Some v; tf_font_size := tf_font_size tf;
     tf_font_bold := tf_font_bold tf; tf_auto_size := tf_auto_size tf;
     tf_word_wrap := tf_word_wrap tf |}.
Definition set_font_size (v : Z) (tf : text_frame) : text_frame :=
  {| tf_text := tf_text tf; tf_font_size := Some v;
     tf_font_bold := tf_font_bold tf; tf_auto_size := tf_auto_size tf;
     tf_word_wrap := tf_word_wrap tf |}.
Definition set_font_bold (v : bool) (tf : text_frame) : text_frame :=
  {| tf_text := tf_text tf; tf_font_size := tf_font_size tf;
     tf_font_bold := Some v; tf_auto_size := tf_auto_size tf;
     tf_word_wrap := tf_word_wrap tf |}.
Definition set_auto_size (v : auto_size) (tf : text_frame) : text_frame :=
  {| tf_text := tf_text tf; tf_font_size := tf_font_size tf;
     tf_font_bold := tf_font_bold tf; tf_auto_size := Some v;
     tf_word_wrap := tf_word_wrap tf |}.
Definition set_word_wrap (v : bool) (tf : text_frame) : text_frame :=
  {| tf_text := tf_text tf; tf_font_size := tf_font_size tf;
     tf_font_bold := tf_font_bold tf; tf_auto_size := tf_auto_size tf;
     tf_word_wrap := Some v |}.

(** [slide.shapes.add_textbox(left, top, width, height)] *)
Definition add_textbox (s : nat) (left top width height : Z) : M message nat :=
  add_shape s (TextBox left top width height empty_frame).

(** [slide.shapes.add_movie(path, left, top, width, height, mime_type=...)] *)
Definition add_movie (wd : World) (s : nat) (path : string)
    (left top width height : Z) (mime_type : string) : M message nat :=
  lift (w_add_movie wd path) ;;
  add_shape s (Movie path left top width height mime_type).

(** [slide.slide_show_transition] *)
Definition slide_show_transition (wd : World) (s : nat) : M message nat :=
  if w_has_transition wd then ret s else raise AttributeError.

Definition set_advance_on_click (v : bool) (t : transition) : transition :=
  {| advance_on_click := Some v; advance_on_time := advance_on_time t;
     advance_time := advance_time t |}.
Definition set_advance_on_time (v : bool) (t : transition) : transition :=
  {| advance_on_click := advance_on_click t; advance_on_time := Some v;
     advance_time := advance_time t |}.
Definition set_advance_time (v : Z) (t : transition) : transition :=
  {| advance_on_click := advance_on_click t;
     advance_on_time := advance_on_time t; advance_time := Some v |}.

(** [prs.save(filename)].  [output] records completed saves only: when the
    call raises, nothing is recorded, whatever partial file it may have left
    on disk. *)
Definition save (wd : World) (filename : string) : M message unit :=
  lift (w_save wd filename) ;;
  fun st =>
    ({| prs := prs st; console := console st; output := Some (prs st) |},
     Done tt).

(** [Presentation()] *)
Definition Presentation (wd : World) : presentation :=
  {| slide_width := w_template_width wd;
     slide_height := w_template_height wd;
     slides := [] |}.

(** [for x in xs: body], where the body updates the local variables [v] *)
Fixpoint for_each {A V} (xs : list A) (v : V) (body : A -> V -> M message V)
  : M message V :=
  match xs with
  | [] => ret v
  | x :: r => v' <- body x v ;; for_each r v' body
  end.

End Objects.

(* ================================================================== *)
(** * First script: [presetaion_only_with_images.py] *)
(* ================================================================== *)

Module ImagesOnly.
Import Pptx PyStr.
Local Open Scope string_scope.
Local Open Scope list_scope.

Definition IMAGE_DIR : string := "images".
Definition OUTPUT_FILENAME : string := "presentation_from_images.pptx".
Definition SUPPORTED_EXTENSIONS : list string :=
  [".png"; ".jpg"; ".jpeg"; ".gif"; ".bmp"; ".tiff"].

(** One constructor per [print] of the script, in source order. *)
Inductive message : Type :=
| AddedImage (name : string)
| ErrorAddingImage (name : string) (e : exn)
| AddedTitleSlide (title_text : string)
| ErrorAddingTitleSlide (title_text : string) (e : exn)
| DirectoryNotFound (dir : string)
| PleaseCreateDirectory
| ScanningDirectory (dir : string)
| ProcessingRootImages
| ProcessedRootImages (n : Z)
| NoRootImages
| ProcessingSubdirectories
| ProcessingSubdirectory (name : string)
| ProcessedSubdirImages (n : Z) (name : string)
| NoSubdirImages (name : string)
| ErrorProcessingSubdirectory (name : string) (e : exn)
| ProcessedSubdirectories (n : Z)
| NoSubdirectoriesWithImages
| PresentationSaved (filename : string)
| ErrorSavingPresentation (e : exn)
| EnsureWritePermissions.

(** Lines 34-49: size and position of the picture, as Python computes them. *)
Definition fit_to_canvas (slide_width slide_height : Z)
    (img_native_width img_native_height : Z)
  : result (pynum * pynum * pynum * pynum) :=
  (aspect_ratio <- PyNum.truediv (PInt img_native_width)
                                 (PInt img_native_height) ;;
   ratio <- PyNum.truediv (PInt slide_width) (PInt slide_height) ;;
   limited <- PyNum.gt ratio aspect_ratio ;;
   wh <- (if limited : bool then
            let height := PInt slide_height in
            width <- PyNum.mul aspect_ratio height ;;
            Return (width, height)
          else
            let width := PInt slide_width in
            height <- PyNum.truediv width aspect_ratio ;;
            Return (width, height)) ;;
   let '(width, height) := wh in
   dw <- PyNum.sub (PInt slide_width) width ;;
   left_ <- PyNum.truediv dw (PInt 2) ;;
   dh <- PyNum.sub (PInt slide_height) height ;;
   top <- PyNum.truediv dh (PInt 2) ;;
   Return (left_, top, width, height))%result.

Local Open Scope script_scope.

(** The [try] block up to the binding of [pic] (lines 20-29). *)
Definition create_picture (wd : World) (image_path : string)
  : M message (nat * nat * (Z * Z)) :=
  blank_slide_layout <- slide_layouts wd 6 ;;
  slide <- add_slide 6 blank_slide_layout ;;
  ps <- add_picture wd slide image_path Inches_0 Inches_0 None ;;
  ret (slide, fst ps, snd ps).

(** The rest of the [try] block (lines 32-58). *)
Definition fit_picture (image_path : string) (slide pic : nat)
    (size : Z * Z) : M message bool :=
  p <- get_prs ;;
  g <- lift (fit_to_canvas (slide_width p) (slide_height p)
                           (fst size) (snd size)) ;;
  let '(left_, top, width, height) := g in
  l <- lift (PyNum.int left_) ;;
  set_picture slide pic (set_left l) ;;
  t <- lift (PyNum.int top) ;;
  set_picture slide pic (set_top t) ;;
  w <- lift (PyNum.int width) ;;
  set_picture slide pic (set_width w) ;;
  h <- lift (PyNum.int height) ;;
  set_picture slide pic (set_height h) ;;
  print (AddedImage (basename image_path)) ;;
  ret true.

(** The whole [try] block. *)
Definition add_image_slide_try (wd : World) (image_path : string)
  : M message bool :=
  c <- create_picture wd image_path ;;
  let '(slide, pic, size) := c in
  fit_picture image_path slide pic size.

(** The [except] block (lines 60-67).  [pic] is the picture when the
    variable is bound; using it unbound raises, and the inner bare [except]
    passes. *)
Definition add_image_slide_except (image_path : string)
    (pic : option (nat * nat)) (e : exn) : M message bool :=
  print (ErrorAddingImage (basename image_path) e) ;;
  try_except_all
    (match pic with
     | Some (slide, sp) => remove_shape slide sp
     | None => raise NameError
     end)
    (ret tt) ;;
  ret false.

Definition add_image_slide (wd : World) (image_path : string)
  : M message bool :=
  fun st =>
    match create_picture wd image_path st with
    | (st1, Exit code) => (st1, Exit code)
    | (st1, Fail e) => add_image_slide_except image_path None e st1
    | (st1, Done (slide, pic, size)) =>
        try_except (fit_picture image_path slide pic size)
          (add_image_slide_except image_path (Some (slide, pic))) st1
    end.

Definition is_IndexError (e : exn) : bool :=
  match e with IndexError => true | _ => false end.

Definition add_title_slide (wd : World) (title_text : string)
  : M message unit :=
  try_except
    (title_slide_layout <-
       try_catch is_IndexError
         (l <- slide_layouts wd 5 ;; ret (5%nat, l))
         (fun _ => l <- slide_layouts wd 0 ;; ret (0%nat, l)) ;;
     slide <- add_slide (fst title_slide_layout) (snd title_slide_layout) ;;
     title <- shapes_title slide ;;
     match title with
     | Some t => set_frame slide t (set_text title_text)
     | None =>
         txBox <- add_textbox slide Inches_1 Inches_1 Inches_1 Inches_1 ;;
         set_frame slide txBox (set_text title_text) ;;
         set_frame slide txBox (set_font_size (Pt 40)) ;;
         set_frame slide txBox (set_font_bold true)
     end ;;
     print (AddedTitleSlide title_text))
    (fun e => print (ErrorAddingTitleSlide title_text e)).

Definition is_image (name : string) : bool :=
  endswith_any (lower name) SUPPORTED_EXTENSIONS.

(** The loop over the entries of one directory that adds its images
    (lines 126-130 and 155-159). *)
Definition add_images (wd : World) (dir : string) (items : list string)
  : M message Z :=
  for_each items 0%Z (fun item_name processed =>
    let item_path := join dir item_name in
    if w_isfile wd item_path && is_image item_name then
      ok <- add_image_slide wd item_path ;;
      ret (if ok : bool then processed + 1 else processed)%Z
    else ret processed).

Definition process_subdirectory (wd : World) (item_name : string)
    (subdirs_processed : Z) : M message Z :=
  let item_path := join IMAGE_DIR item_name in
  if w_isdir wd item_path then
    print (ProcessingSubdirectory item_name) ;;
    let subdir_path := item_path in
    let subdir_name := item_name in
    add_title_slide wd subdir_name ;;
    try_except
      (names <- lift (w_listdir wd subdir_path) ;;
       let subdir_items := sorted names in
       images_in_subdir <- add_images wd subdir_path subdir_items ;;
       if (0 <? images_in_subdir)%Z then
         print (ProcessedSubdirImages images_in_subdir item_name) ;;
         ret (subdirs_processed + 1)%Z
       else
         print (NoSubdirImages item_name) ;;
         ret subdirs_processed)
      (fun e =>
         print (ErrorProcessingSubdirectory item_name e) ;;
         ret subdirs_processed)
  else ret subdirs_processed.

Definition create_presentation (wd : World) : M message unit :=
  if negb (w_isdir wd IMAGE_DIR) then
    print (DirectoryNotFound IMAGE_DIR) ;;
    print PleaseCreateDirectory
  else
    modify_prs (fun _ => Presentation wd) ;;
    print (ScanningDirectory IMAGE_DIR) ;;
    names <- lift (w_listdir wd IMAGE_DIR) ;;
    let items_in_root := sorted names in
    print ProcessingRootImages ;;
    root_images_processed <- add_images wd IMAGE_DIR items_in_root ;;
    (if (0 <? root_images_processed)%Z
     then print (ProcessedRootImages root_images_processed)
     else print NoRootImages) ;;
    print ProcessingSubdirectories ;;
    subdirs_processed <-
      for_each items_in_root 0%Z (process_subdirectory wd) ;;
    (if (0 <? subdirs_processed)%Z
     then print (ProcessedSubdirectories subdirs_processed)
     else print NoSubdirectoriesWithImages) ;;
    try_except
      (save wd OUTPUT_FILENAME ;;
       print (PresentationSaved OUTPUT_FILENAME))
      (fun e =>
         print (ErrorSavingPresentation e) ;;
         print EnsureWritePermissions).

(** The state the script starts in: nothing printed, nothing written. *)
Definition start (wd : World) : state message :=
  {| prs := Presentation wd; console := []; output := None |}.

(** [if __name__ == "__main__": create_presentation()] *)
Definition main (wd : World) : state message * outcome unit :=
  create_presentation wd (start wd).

End ImagesOnly.

(* ================================================================== *)
(** * Second script: [presetaion_with_images_and_music.py] *)
(* ================================================================== *)

Module ImagesAndMusic.
Import Pptx PyStr.
Local Open Scope string_scope.
Local Open Scope list_scope.

Definition IMAGES_DIR : string := "images".
Definition MUSIC_DIR : string := "music".
Definition OUTPUT_FILENAME : string := "presentation.pptx".
Definition ALLOWED_IMAGE_EXTENSIONS : list string :=
  [".png"; ".jpg"; ".jpeg"; ".gif"; ".bmp"; ".tiff"; ".tif"].
Definition ALLOWED_MUSIC_EXTENSIONS : list string :=
  [".mp3"; ".wav"; ".wma"].
Definition SLIDE_TRANSITION_SECONDS : Z := 1.

(** One constructor per [print] of the script, in source order. *)
Inductive message : Type :=
| WarnTransition (e : exn)
| ProcessingImage (img_path : string)
| SlideAddedFor (name : string)
| AttemptingPicture (name : string)
| PictureAdded
| ErrorZeroSize (name : string)
| ResizedPicture (new_width_emu new_height_emu : Z)
| PositionedPicture
| SettingTransition (seconds : Z)
| ProcessedImageSlide (name : string)
| ErrorImageNotFound (img_path : string)
| ErrorProcessingImage (img_path : string) (e : exn)
| AddingTitleSlide (title_text : string)
| SlideAddedForTitle (title_text : string)
| FoundTitlePlaceholder
| FoundPlaceholder (idx : nat)
| FoundBodyPlaceholder (idx : nat)
| SetTitleText (title_text : string)
| WarnNoTitlePlaceholder
| AddedManualTextbox (title_text : string)
| ProcessedTitleSlide (title_text : string)
| ErrorAddingTitleSlide (title_text : string) (e : exn)
| MusicDirectoryNotFound (directory : string)
| SearchingMusic (directory : string)
| FoundMusicFile (filename : string)
| NoMusicFile
| AttemptingMusic (name : string)
| CannotAddMusicNoSlides
| ErrorMusicPathInvalid (music_file_path : string)
| AddingMusicToFirstSlide
| UsingMimeType (mime_type : string)
| EmbeddedMusic (name : string)
| ReminderManualSetup
| ErrorAddingMusic (music_file_path : string) (e : exn)
| Rule
| Starting
| ShowImageDirectory (dir : string)
| ShowMusicDirectory (dir : string)
| ShowOutputFile (filename : string)
| ShowTransitionTime (seconds : Z)
| PresentationCreated (slide_width slide_height : Z)
| FatalImagesDirectoryNotFound (dir : string)
| FoundItems (n : Z) (dir : string)
| FatalCannotList (dir : string) (e : exn)
| ProcessingSubdirectory (item_name : string)
| FoundSubdirItems (n : Z) (item_name : string)
| ErrorListingSubdirectory (item_path : string) (e : exn)
| FinishedSubdirectory (item_name : string)
| SkippingItem (item_name : string)
| CheckingMusic
| SkippingMusicNoSlides
| SavingPresentation
| PresentationSaved (filename : string) (processed_slides : Z)
| ReminderLoop
| TipOpen (filename : string)
| FatalSaving (e : exn)
| MaybeCorrupted
| NoSlidesNotSaved
| ScriptFinished.

Local Open Scope script_scope.

Definition set_automatic_transition (wd : World) (slide : nat) (seconds : Z)
  : M message unit :=
  try_except
    (transition <- slide_show_transition wd slide ;;
     on_slide transition (with_transition (set_advance_on_click false)) ;;
     on_slide transition (with_transition (set_advance_on_time true)) ;;
     on_slide transition (with_transition (set_advance_time (seconds * 1000))))
    (fun e => print (WarnTransition e)).

(** Lines 67-75: the new size of the picture. *)
Definition new_size (slide_width_emu slide_height_emu : Z)
    (img_native_width_px img_native_height_px : Z) : result (Z * Z) :=
  (img_aspect_ratio <- PyNum.truediv (PInt img_native_width_px)
                                     (PInt img_native_height_px) ;;
   ratio <- PyNum.truediv (PInt slide_width_emu) (PInt slide_height_emu) ;;
   limited <- PyNum.gt ratio img_aspect_ratio ;;
   if limited : bool then
     let new_height_emu := slide_height_emu in
     x <- PyNum.mul (PInt new_height_emu) img_aspect_ratio ;;
     new_width_emu <- PyNum.int x ;;
     Return (new_width_emu, new_height_emu)
   else
     let new_width_emu := slide_width_emu in
     x <- PyNum.truediv (PInt new_width_emu) img_aspect_ratio ;;
     new_height_emu <- PyNum.int x ;;
     Return (new_width_emu, new_height_emu))%result.

(** Lines 83 and 84: [int((slide - new) / 2)]. *)
Definition centered (slide_emu new_emu : Z) : result Z :=
  (d <- PyNum.sub (PInt slide_emu) (PInt new_emu) ;;
   x <- PyNum.truediv d (PInt 2) ;;
   PyNum.int x)%result.

Definition is_FileNotFoundError (e : exn) : bool :=
  match e with FileNotFoundError => true | _ => false end.

(** The [try] block of [add_image_slide] (lines 41-91). *)
Definition add_image_slide_try (wd : World) (img_path : string)
  : M message unit :=
  slide_layout <- slide_layouts wd 6 ;;
  slide <- add_slide 6 slide_layout ;;
  print (SlideAddedFor (basename img_path)) ;;
  p <- get_prs ;;
  let slide_width_emu := slide_width p in
  let slide_height_emu := slide_height p in
  print (AttemptingPicture (basename img_path)) ;;
  ps <- add_picture wd slide img_path (Emu 0) (Emu 0) (Some (Emu 914400)) ;;
  let pic := fst ps in
  print PictureAdded ;;
  let img_native_width_px := fst (snd ps) in
  let img_native_height_px := snd (snd ps) in
  if ((img_native_width_px =? 0) || (img_native_height_px =? 0))%Z then
    print (ErrorZeroSize (basename img_path)) ;;
    set_automatic_transition wd slide SLIDE_TRANSITION_SECONDS
  else
    sz <- lift (new_size slide_width_emu slide_height_emu
                         img_native_width_px img_native_height_px) ;;
    let new_width_emu := fst sz in
    let new_height_emu := snd sz in
    set_picture slide pic (set_width new_width_emu) ;;
    set_picture slide pic (set_height new_height_emu) ;;
    print (ResizedPicture new_width_emu new_height_emu) ;;
    l <- lift (centered slide_width_emu new_width_emu) ;;
    set_picture slide pic (set_left l) ;;
    t <- lift (centered slide_height_emu new_height_emu) ;;
    set_picture slide pic (set_top t) ;;
    print PositionedPicture ;;
    print (SettingTransition SLIDE_TRANSITION_SECONDS) ;;
    set_automatic_transition wd slide SLIDE_TRANSITION_SECONDS ;;
    print (ProcessedImageSlide (basename img_path)).

Definition add_image_slide (wd : World) (img_path : string)
  : M message unit :=
  print (ProcessingImage img_path) ;;
  try_except
    (try_catch is_FileNotFoundError
       (add_image_slide_try wd img_path)
       (fun _ => print (ErrorImageNotFound img_path)))
    (fun e => print (ErrorProcessingImage img_path e)).

(** The [for shape in slide.placeholders] loop (lines 119-129). *)
Fixpoint scan_placeholders (phs : list (nat * nat)) (title_shape : option nat)
  : M message (option nat) :=
  match phs with
  | [] => ret title_shape
  | (shape, idx) :: r =>
      if (Nat.eqb idx 1 || Nat.eqb idx 3)%bool then
        print (FoundPlaceholder idx) ;;
        ret (Some shape)
      else if Nat.eqb idx 2 then
        print (FoundBodyPlaceholder idx) ;;
        scan_placeholders r (Some shape)
      else scan_placeholders r title_shape
  end.

Definition add_title_slide (wd : World) (title_text : string)
  : M message unit :=
  print (AddingTitleSlide title_text) ;;
  try_except
    (title_slide_layout <- slide_layouts wd 5 ;;
     slide <- add_slide 5 title_slide_layout ;;
     print (SlideAddedForTitle title_text) ;;
     title <- shapes_title slide ;;
     title_shape <-
       match title with
       | Some t => print FoundTitlePlaceholder ;; ret (Some t)
       | None =>
           phs <- placeholders slide ;;
           match phs with
           | [] => ret None
           | _ => scan_placeholders phs None
           end
       end ;;
     match title_shape with
     | Some sh =>
         set_frame slide sh (set_text title_text) ;;
         set_frame slide sh (set_font_size (Pt 44)) ;;
         set_frame slide sh (set_font_bold true) ;;
         set_frame slide sh (set_auto_size TEXT_TO_FIT_SHAPE) ;;
         print (SetTitleText title_text)
     | None =>
         print WarnNoTitlePlaceholder ;;
         p <- get_prs ;;
         let left_ := Inches_0_5 in
         let top := Inches_0_5 in
         let width := (slide_width p - Inches_1)%Z in
         let height := Inches_1_5 in
         txBox <- add_textbox slide left_ top width height ;;
         set_frame slide txBox (set_text title_text) ;;
         set_frame slide txBox (set_font_size (Pt 40)) ;;
         set_frame slide txBox (set_font_bold true) ;;
         set_frame slide txBox (set_word_wrap true) ;;
         print (AddedManualTextbox title_text)
     end ;;
     print (SettingTransition SLIDE_TRANSITION_SECONDS) ;;
     set_automatic_transition wd slide SLIDE_TRANSITION_SECONDS ;;
     print (ProcessedTitleSlide title_text))
    (fun e => print (ErrorAddingTitleSlide title_text e)).

Definition is_music (filename : string) : bool :=
  endswith_any (lower filename) ALLOWED_MUSIC_EXTENSIONS.

(** The [for filename in os.listdir(directory)] loop (lines 177-183). *)
Fixpoint search_music (directory : string) (filenames : list string)
  : M message (option string) :=
  match filenames with
  | [] => print NoMusicFile ;; ret None
  | filename :: r =>
      if is_music filename then
        let found_path := join directory filename in
        print (FoundMusicFile filename) ;;
        ret (Some found_path)
      else search_music directory r
  end.

Definition find_music_file (wd : World) (directory : string)
  : M message (option string) :=
  if negb (w_isdir wd directory) then
    print (MusicDirectoryNotFound directory) ;;
    ret None
  else
    print (SearchingMusic directory) ;;
    filenames <- lift (w_listdir wd directory) ;;
    search_music directory filenames.

Definition mime_type_of (music_file_path : string) : string :=
  if endswith (lower music_file_path) ".wav" then "audio/wav"
  else if endswith (lower music_file_path) ".wma" then "audio/x-ms-wma"
  else "audio/mpeg".

Definition add_background_music (wd : World) (music_file_path : string)
  : M message unit :=
  print (AttemptingMusic (basename music_file_path)) ;;
  p <- get_prs ;;
  match slides p with
  | [] => print CannotAddMusicNoSlides
  | _ =>
      if (String.eqb music_file_path "" || negb (w_exists wd music_file_path))%bool
      then print (ErrorMusicPathInvalid music_file_path)
      else
        try_except
          (let first_slide := 0%nat in
           print AddingMusicToFirstSlide ;;
           let mime_type := mime_type_of music_file_path in
           print (UsingMimeType mime_type) ;;
           let left_ := Inches_0_1 in
           let top := Inches_0_1 in
           let width := Inches_0_2 in
           let height := Inches_0_2 in
           add_movie wd first_slide music_file_path left_ top width height
                     mime_type ;;
           print (EmbeddedMusic (basename music_file_path)) ;;
           print ReminderManualSetup)
          (fun e => print (ErrorAddingMusic music_file_path e))
  end.

Definition is_image (name : string) : bool :=
  endswith_any (lower name) ALLOWED_IMAGE_EXTENSIONS.

(** The loop over the images of a subdirectory (lines 288-292). *)
Definition add_subdir_images (wd : World) (item_path : string)
    (sub_dir_items : list string) (processed_slides : Z) : M message Z :=
  for_each sub_dir_items processed_slides (fun sub_item_name processed_slides =>
    let sub_item_path := join item_path sub_item_name in
    if w_isfile wd sub_item_path && is_image sub_item_name then
      add_image_slide wd sub_item_path ;;
      ret (processed_slides + 1)%Z
    else ret processed_slides).

(** The body of the loop over the images directory (lines 265-295). *)
Definition process_item (wd : World) (item_name : string)
    (processed_slides : Z) : M message Z :=
  let item_path := join IMAGES_DIR item_name in
  if w_isfile wd item_path && is_image item_name then
    add_image_slide wd item_path ;;
    ret (processed_slides + 1)%Z
  else if w_isdir wd item_path then
    print (ProcessingSubdirectory item_name) ;;
    add_title_slide wd item_name ;;
    let processed_slides := (processed_slides + 1)%Z in
    listing <-
      try_except
        (names <- lift (w_listdir wd item_path) ;;
         let sub_dir_items := sorted names in
         print (FoundSubdirItems (Z.of_nat (List.length sub_dir_items))
                                 item_name) ;;
         ret (Some sub_dir_items))
        (fun e =>
           print (ErrorListingSubdirectory item_path e) ;;
           ret None) ;;
    match listing with
    | None => ret processed_slides                      (* [continue] *)
    | Some sub_dir_items =>
        processed_slides <-
          add_subdir_images wd item_path sub_dir_items processed_slides ;;
        print (FinishedSubdirectory item_name) ;;
        ret processed_slides
    end
  else
    print (SkippingItem item_name) ;;
    ret processed_slides.

(** The [__main__] block. *)
Definition script (wd : World) : M message unit :=
  print Rule ;;
  print Starting ;;
  print (ShowImageDirectory IMAGES_DIR) ;;
  print (ShowMusicDirectory MUSIC_DIR) ;;
  print (ShowOutputFile OUTPUT_FILENAME) ;;
  print (ShowTransitionTime SLIDE_TRANSITION_SECONDS) ;;
  print Rule ;;
  modify_prs (fun _ => Presentation wd) ;;
  modify_prs (fun p => {| slide_width := Inches_16;
                          slide_height := slide_height p;
                          slides := slides p |}) ;;
  modify_prs (fun p => {| slide_width := slide_width p;
                          slide_height := Inches_9;
                          slides := slides p |}) ;;
  p <- get_prs ;;
  print (PresentationCreated (slide_width p) (slide_height p)) ;;
  (if negb (w_isdir wd IMAGES_DIR) then
     print (FatalImagesDirectoryNotFound IMAGES_DIR) ;;
     exit 1
   else ret tt) ;;
  items_in_images_dir <-
    try_except
      (names <- lift (w_listdir wd IMAGES_DIR) ;;
       let items := sorted names in
       print (FoundItems (Z.of_nat (List.length items)) IMAGES_DIR) ;;
       ret items)
      (fun e =>
         print (FatalCannotList IMAGES_DIR e) ;;
         exit 1) ;;
  processed_slides <- for_each items_in_images_dir 0%Z (process_item wd) ;;
  print CheckingMusic ;;
  music_file <- find_music_file wd MUSIC_DIR ;;
  match music_file with
  | Some f =>
      if String.eqb f "" then ret tt
      else if (0 <? processed_slides)%Z then add_background_music wd f
      else print SkippingMusicNoSlides
  | None => ret tt
  end ;;
  print SavingPresentation ;;
  (if (0 <? processed_slides)%Z then
     try_except
       (save wd OUTPUT_FILENAME ;;
        print (PresentationSaved OUTPUT_FILENAME processed_slides) ;;
        print ReminderLoop ;;
        print (TipOpen OUTPUT_FILENAME))
       (fun e =>
          print (FatalSaving e) ;;
          print MaybeCorrupted)
   else print NoSlidesNotSaved) ;;
  print Rule ;;
  print ScriptFinished ;;
  print Rule.

Definition start (wd : World) : state message :=
  {| prs := Presentation wd; console := []; output := None |}.

Definition main (wd : World) : state message * outcome unit :=
  script wd (start wd).

End ImagesAndMusic.

(** The exit status of the interpreter: 0 at the end of the script, the
    code given to [exit], 1 for an uncaught exception. *)
Definition exit_status {A} (r : outcome A) : Z :=
  match r with
  | Done _ => 0
  | Exit code => code
  | Fail _ => 1
  end.

(* ================================================================== *)
(** * Concrete worlds, for examples *)
(* ================================================================== *)

Module Examples.
Import Pptx.
Local Open Scope string_scope.
Local Open Scope list_scope.

Fixpoint lookup {A} (k : string) (l : list (string * A)) : option A :=
  match l with
  | [] => None
  | (k', v) :: r => if String.eqb k k' then Some v else lookup k r
  end.

(** The eleven layouts of the library's default template. *)
Definition default_layouts : list layout :=
  [ [0; 1]; [0; 1]; [0; 1]; [0; 1; 2]; [0; 1; 2; 3; 4]; [0]; [];
    [0; 1; 2]; [0; 1; 2]; [0; 1]; [0; 1] ]%nat.

(** A world given by its directories (path and listing, in system order) and
    its files (path and what opening the file as an image gives).  Every
    library call other than opening an image succeeds. *)
Definition world (dirs : list (string * list string))
    (files : list (string * result (Z * Z))) : World :=
  {| w_isdir := fun p => match lookup p dirs with Some _ => true | None => false end;
     w_isfile := fun p => match lookup p files with Some _ => true | None => false end;
     w_exists := fun p =>
       match lookup p dirs, lookup p files with
       | None, None => false
       | _, _ => true
       end;
     w_listdir := fun p =>
       match lookup p dirs with
       | Some l => Return l
       | None => Raise FileNotFoundError
       end;
     w_template_width := 9144000;
     w_template_height := 6858000;
     w_layouts := default_layouts;
     w_open_image := fun p =>
       match lookup p files with
       | Some r => r
       | None => Raise FileNotFoundError
       end;
     w_add_movie := fun p =>
       match lookup p files with
       | Some _ => Return tt
       | None => Raise FileNotFoundError
       end;
     w_save := fun _ => Return tt;
     w_has_transition := true |}.

(** The same world with every directory unreadable: listing raises. *)
Definition locked (wd : World) : World :=
  {| w_isdir := w_isdir wd;
     w_isfile := w_isfile wd;
     w_exists := w_exists wd;
     w_listdir := fun _ => Raise OSError;
     w_template_width := w_template_width wd;
     w_template_height := w_template_height wd;
     w_layouts := w_layouts wd;
     w_open_image := w_open_image wd;
     w_add_movie := w_add_movie wd;
     w_save := w_save wd;
     w_has_transition := w_has_transition wd |}.

(** The same world with directory [d] unreadable. *)
Definition lock (d : string) (wd : World) : World :=
  {| w_isdir := w_isdir wd;
     w_isfile := w_isfile wd;
     w_exists := w_exists wd;
     w_listdir := fun p => if String.eqb p d then Raise OSError else w_listdir wd p;
     w_template_width := w_template_width wd;
     w_template_height := w_template_height wd;
     w_layouts := w_layouts wd;
     w_open_image := w_open_image wd;
     w_add_movie := w_add_movie wd;
     w_save := w_save wd;
     w_has_transition := w_has_transition wd |}.

(** The same world where nothing can be written. *)
Definition read_only (wd : World) : World :=
  {| w_isdir := w_isdir wd;
     w_isfile := w_isfile wd;
     w_exists := w_exists wd;
     w_listdir := w_listdir wd;
     w_template_width := w_template_width wd;
     w_template_height := w_template_height wd;
     w_layouts := w_layouts wd;
     w_open_image := w_open_image wd;
     w_add_movie := w_add_movie wd;
     w_save := fun _ => Raise OSError;
     w_has_transition := w_has_transition wd |}.

(** The same world with a template that offers the layouts [ls]. *)
Definition with_layouts (ls : list layout) (wd : World) : World :=
  {| w_isdir := w_isdir wd;
     w_isfile := w_isfile wd;
     w_exists := w_exists wd;
     w_listdir := w_listdir wd;
     w_template_width := w_template_width wd;
     w_template_height := w_template_height wd;
     w_layouts := ls;
     w_open_image := w_open_image wd;
     w_add_movie := w_add_movie wd;
     w_save := w_save wd;
     w_has_transition := w_has_transition wd |}.

(** The same world with a library whose slides offer no
    [slide_show_transition]. *)
Definition without_transition (wd : World) : World :=
  {| w_isdir := w_isdir wd;
     w_isfile := w_isfile wd;
     w_exists := w_exists wd;
     w_listdir := w_listdir wd;
     w_template_width := w_template_width wd;
     w_template_height := w_template_height wd;
     w_layouts := w_layouts wd;
     w_open_image := w_open_image wd;
     w_add_movie := w_add_movie wd;
     w_save := w_save wd;
     w_has_transition := false |}.

End Examples.

(** The world [wd] with directory [d] listed as [names], in that order. *)
Definition with_listing (d : string) (names : list string) (wd : World) : World :=
  {| w_isdir := w_isdir wd;
     w_isfile := w_isfile wd;
     w_exists := w_exists wd;
     w_listdir := fun p => if String.eqb p d then Return names else w_listdir wd p;
     w_template_width := w_template_width wd;
     w_template_height := w_template_height wd;
     w_layouts := w_layouts wd;
     w_open_image := w_open_image wd;
     w_add_movie := w_add_movie wd;
     w_save := w_save wd;
     w_has_transition := w_has_transition wd |}.

(* ================================================================== *)
(** * Vocabulary of the statements *)
(* ================================================================== *)

(** ** Sizes *)

(** Canvas and image sizes for which the float computation is shown exact
    enough: both cross products stay below 2^50. *)
Definition in_range (W H w h : Z) : Prop :=
  0 < W /\ 0 < H /\ 0 < w /\ 0 < h /\ W * h < 2 ^ 50 /\ w * H < 2 ^ 50.

(** A placement fits the canvas [W] x [H] for a [w] x [h] image: the limiting
    dimension is the canvas's, the other is the proportional one rounded
    down or one unit less, and the picture lies within the canvas. *)
Definition fits (W H w h : Z) (l t wd ht : Z) : Prop :=
  (w * H < W * h -> ht = H /\ w * H - h <= wd * h <= w * H) /\
  (W * h <= w * H -> wd = W /\ W * h - w <= ht * w <= W * h) /\
  0 <= l /\ 0 <= t /\ l + wd <= W /\ t + ht <= H.

Module Bounds.
Import PyFloat.
Local Open Scope Q_scope.

(** Half an ulp of 1, and half the least subnormal. *)
Definition eps : Q := 1 # 9007199254740992.
Definition eta : Q := two_pow (-1075).

(** A range well inside the normal numbers: 2^-200 .. 2^200. *)
Definition small : Q :=
  1 # 1606938044258990275541962092341162602522202993782792835301376.
Definition big : Q :=
  1606938044258990275541962092341162602522202993782792835301376 # 1.

(** 2^50 *)
Definition K : Q := 1125899906842624 # 1.

End Bounds.

(** ** Names *)

(** The order [sorted] puts names in: code point by code point, a proper
    prefix first. *)
Definition name_le (a b : string) : Prop := String.leb a b = true.

(** ** Decks *)

Section Decks.
Import Pptx.
Context {message : Type}.

(** A script state, by its parts. *)
Definition deck_state (W H : Z) (ss : list slide) (c : list message)
    (o : option presentation) : state message :=
  {| prs := {| slide_width := W; slide_height := H; slides := ss |};
     console := c; output := o |}.

(** The final deck of a run. *)
Definition deck_of {A} (r : state message * outcome A) : list slide :=
  slides (prs (fst r)).

(** A piece of script completes and only prints. *)
Definition only_prints {A} (m : M message A) : Prop :=
  exists Y a, forall st,
    m st = ({| prs := prs st; console := console st ++ Y; output := output st |},
            Done a).

(** A piece of script completes, appends the slides [X] to the deck and
    leaves the rest of the presentation alone, whatever was there before. *)
Definition appends {A} (m : M message A) (W H : Z) (X : list slide) : Prop :=
  forall ss c o, exists Y a,
    m (deck_state W H ss c o) = (deck_state W H (ss ++ X) (c ++ Y) o, Done a).

(** The same, with the value it returns. *)
Definition runs {A} (m : M message A) (W H : Z) (X : list slide) (a : A)
  : Prop :=
  forall ss c o, exists Y,
    m (deck_state W H ss c o) = (deck_state W H (ss ++ X) (c ++ Y) o, Done a).

End Decks.

Module Deck.
Import Pptx.
Local Open Scope string_scope.
Local Open Scope list_scope.

Definition pictures (s : slide) : list picture :=
  flat_map (fun sh => match sh with Picture p => [p] | _ => [] end)
           (s_shapes s).

Definition movies (s : slide) : list string :=
  flat_map (fun sh => match sh with Movie p _ _ _ _ _ => [p] | _ => [] end)
           (s_shapes s).

Definition texts (s : slide) : list string :=
  flat_map (fun sh =>
              match sh with
              | Placeholder _ tf | TextBox _ _ _ _ tf =>
                  match tf_text tf with Some t => [t] | None => [] end
              | _ => []
              end) (s_shapes s).

(** The text a shape shows, if it has been given one. *)
Definition text_of (sh : shape) : list string :=
  match sh with
  | Placeholder _ tf | TextBox _ _ _ _ tf =>
      match tf_text tf with Some t => [t] | None => [] end
  | _ => []
  end.

(** A shape that only holds text. *)
Definition textual (sh : shape) : bool :=
  match sh with
  | Placeholder _ _ | TextBox _ _ _ _ _ => true
  | _ => false
  end.

(** A slide with no media, and one whose only media are pictures read from
    [path]. *)
Definition text_only (s : slide) : Prop :=
  forallb textual (s_shapes s) = true.

Definition shows_only (path : string) (s : slide) : Prop :=
  (forall p, In p (pictures s) -> pic_image p = path) /\ movies s = [].

(** A path is that of a directory entry the scripts take for an image: a
    file of some directory whose name passes the extension test. *)
Definition from_entry (wd : World) (is_image : string -> bool) (path : string)
  : Prop :=
  exists dir name,
    path = PyStr.join dir name /\ w_isfile wd path = true /\ is_image name = true.

(** What a slide shows, for reading a deck at a glance. *)
Inductive label : Type :=
| Image (path : string)
| Title (text : string)
| Empty.

Definition label_of (s : slide) : label :=
  match pictures s, texts s with
  | p :: _, _ => Image (pic_image p)
  | [], t :: _ => Title t
  | [], [] => Empty
  end.

(** A slide runs by itself: it advances after [ms] milliseconds and not on
    a click. *)
Definition timed (ms : Z) (s : slide) : Prop :=
  s_transition s = {| advance_on_click := Some false;
                      advance_on_time := Some true;
                      advance_time := Some ms |}.

(** The slide [add_image_slide] builds on layout [lay] around a picture. *)
Definition picture_slide (lay : layout) (p : picture) (t : transition)
  : slide :=
  {| s_layout := 6;
     s_shapes := map (fun idx => Placeholder idx empty_frame) lay ++ [Picture p];
     s_transition := t |}.

Definition placed (path : string) (size : Z * Z) (l t : Z)
    (wd ht : option Z) : picture :=
  {| pic_image := path; pic_size := size; pic_left := l; pic_top := t;
     pic_width := wd; pic_height := ht |}.

End Deck.

(** ** What each entry of the images folder contributes *)

Module Deck1.
Import Pptx PyStr ImagesOnly.
Local Open Scope list_scope.

(** The slides [add_image_slide] and [add_title_slide] leave on an empty
    deck. *)
Definition image_slides (wd : World) (W H : Z) (path : string) : list slide :=
  deck_of (add_image_slide wd path (deck_state W H [] [] None)).

Definition title_slides (wd : World) (W H : Z) (title : string) : list slide :=
  deck_of (add_title_slide wd title (deck_state W H [] [] None)).

Definition images_of (wd : World) (dir : string) (items : list string)
  : list string :=
  map (join dir)
      (filter (fun n => w_isfile wd (join dir n) && is_image n) items).

Definition subdirectory (wd : World) (W H : Z) (name : string) : list slide :=
  title_slides wd W H name ++
  match w_listdir wd (join IMAGE_DIR name) with
  | Return names =>
      flat_map (image_slides wd W H)
               (images_of wd (join IMAGE_DIR name) (sorted names))
  | Raise _ => []
  end.

(** Root images first, then each subdirectory: title, then its images. *)
Definition deck (wd : World) (names : list string) : list slide :=
  let W := w_template_width wd in
  let H := w_template_height wd in
  flat_map (image_slides wd W H) (images_of wd IMAGE_DIR (sorted names)) ++
  flat_map (subdirectory wd W H)
           (filter (fun n => w_isdir wd (join IMAGE_DIR n)) (sorted names)).

(** What the save step prints. *)
Definition save_log (wd : World) : list message :=
  match w_save wd OUTPUT_FILENAME with
  | Return _ => [PresentationSaved OUTPUT_FILENAME]
  | Raise e => [ErrorSavingPresentation e; EnsureWritePermissions]
  end.

End Deck1.

Module Deck2.
Import Pptx PyStr ImagesAndMusic.
Local Open Scope list_scope.

Definition image_slides (wd : World) (W H : Z) (path : string) : list slide :=
  deck_of (add_image_slide wd path (deck_state W H [] [] None)).

Definition title_slides (wd : World) (W H : Z) (title : string) : list slide :=
  deck_of (add_title_slide wd title (deck_state W H [] [] None)).

Definition images_of (wd : World) (dir : string) (items : list string)
  : list string :=
  map (join dir)
      (filter (fun n => w_isfile wd (join dir n) && is_image n) items).

Definition subdirectory (wd : World) (W H : Z) (name : string) : list slide :=
  title_slides wd W H name ++
  match w_listdir wd (join IMAGES_DIR name) with
  | Return names =>
      flat_map (image_slides wd W H)
               (images_of wd (join IMAGES_DIR name) (sorted names))
  | Raise _ => []
  end.

(** What [set_automatic_transition] leaves of a slide's transition. *)
Definition auto_advance (wd : World) (seconds : Z) (t : transition)
  : transition :=
  if w_has_transition wd
  then {| advance_on_click := Some false; advance_on_time := Some true;
          advance_time := Some (seconds * 1000) |}
  else t.

Definition auto_advance_log (wd : World) : list message :=
  if w_has_transition wd then [] else [WarnTransition AttributeError].

(** What one entry of the images folder contributes, where it stands. *)
Definition entry (wd : World) (W H : Z) (name : string) : list slide :=
  if w_isfile wd (join IMAGES_DIR name) && is_image name
  then image_slides wd W H (join IMAGES_DIR name)
  else if w_isdir wd (join IMAGES_DIR name) then subdirectory wd W H name
  else [].

(** By how much one entry advances [processed_slides]. *)
Definition entry_count (wd : World) (name : string) : Z :=
  if w_isfile wd (join IMAGES_DIR name) && is_image name then 1
  else if w_isdir wd (join IMAGES_DIR name) then
    1 + match w_listdir wd (join IMAGES_DIR name) with
        | Return names =>
            Z.of_nat (List.length
                        (images_of wd (join IMAGES_DIR name) (sorted names)))
        | Raise _ => 0
        end
  else 0.

Definition processed (wd : World) (names : list string) : Z :=
  fold_left (fun n name => n + entry_count wd name) (sorted names) 0.

(** The entries in sorted order, each subdirectory inline. *)
Definition deck (wd : World) (names : list string) : list slide :=
  flat_map (entry wd Inches_16 Inches_9) (sorted names).

(** The order the claim describes, read on the second script: all root
    images, then the subdirectories. *)
Definition root_first_deck (wd : World) (names : list string) : list slide :=
  flat_map (image_slides wd Inches_16 Inches_9)
           (images_of wd IMAGES_DIR (sorted names)) ++
  flat_map (subdirectory wd Inches_16 Inches_9)
           (filter (fun n => negb (w_isfile wd (join IMAGES_DIR n) && is_image n)
                             && w_isdir wd (join IMAGES_DIR n))
                   (sorted names)).

(** The first name of a listing, in the order given, that is a music file. *)
Definition first_music (names : list string) : option string :=
  find is_music names.

(** What [find_music_file] returns, when it returns. *)
Definition music_file (wd : World) : result (option string) :=
  if negb (w_isdir wd MUSIC_DIR) then Return None
  else match w_listdir wd MUSIC_DIR with
       | Raise e => Raise e
       | Return names =>
           Return (option_map (join MUSIC_DIR) (first_music names))
       end.

(** The deck with the music embedded on its first slide. *)
Definition with_music (path : string) (ss : list slide) : list slide :=
  match ss with
  | [] => []
  | s :: r =>
      with_shapes (fun l => l ++ [Movie path Inches_0_1 Inches_0_1
                                        Inches_0_2 Inches_0_2
                                        (mime_type_of path)]) s :: r
  end.


(** The deck after [add_background_music]. *)
Definition after_music (wd : World) (path : string) (ss : list slide)
  : list slide :=
  if (String.eqb path "" || negb (w_exists wd path))%bool then ss
  else match w_add_movie wd path with
       | Return _ => with_music path ss
       | Raise _ => ss
       end.

(** The deck once the music step is over: [mf] is what [find_music_file]
    returned, [n] is [processed_slides]. *)
Definition with_found_music (wd : World) (mf : option string) (n : Z)
    (ss : list slide) : list slide :=
  match mf with
  | Some f =>
      if String.eqb f "" then ss
      else if 0 <? n then after_music wd f ss
      else ss
  | None => ss
  end.

(** What the save step records as saved. *)
Definition saved (wd : World) (n : Z) (p : presentation)
  : option presentation :=
  if 0 <? n then
    match w_save wd OUTPUT_FILENAME with
    | Return _ => Some p
    | Raise _ => None
    end
  else None.

(** What the save step prints, [n] being [processed_slides]. *)
Definition save_log (wd : World) (n : Z) : list message :=
  if 0 <? n then
    match w_save wd OUTPUT_FILENAME with
    | Return _ => [PresentationSaved OUTPUT_FILENAME n; ReminderLoop;
                   TipOpen OUTPUT_FILENAME]
    | Raise e => [FatalSaving e; MaybeCorrupted]
    end
  else [NoSlidesNotSaved].

End Deck2.

Import ListNotations.

(** * Strings: suffixes and sorting *)

Module PyStrFacts.
Import PyStr.
Local Open Scope string_scope.

Lemma endswith_nil p : endswith "" p = String.eqb p "".
Proof. reflexivity. Qed.

Lemma endswith_cons c r p :
  endswith (String c r) p = (String.eqb (String c r) p || endswith r p)%bool.
Proof. reflexivity. Qed.

Lemma endswith_refl s : endswith s s = true.
Proof.
  destruct s; [reflexivity|]. rewrite endswith_cons, String.eqb_refl. reflexivity.
Qed.

(** [s.endswith(p)] holds exactly when [s] is some prefix followed by [p]. *)
Lemma endswith_spec s p : endswith s p = true <-> exists pre, s = pre ++ p.
Proof.
  split.
  - induction s as [|c r IH].
    + rewrite endswith_nil. intros E. apply String.eqb_eq in E. subst.
      exists "". reflexivity.
    + rewrite endswith_cons. intros E. apply orb_prop in E. destruct E as [E|E].
      * apply String.eqb_eq in E. exists "". exact E.
      * destruct (IH E) as [pre ->]. exists (String c pre). reflexivity.
  - intros [pre ->]. induction pre as [|c pre IH].
    + apply endswith_refl.
    + change (String c pre ++ p) with (String c (pre ++ p)).
      rewrite endswith_cons, IH. apply orb_true_r.
Qed.

Lemma endswith_length s p :
  endswith s p = true -> (String.length p <= String.length s)%nat.
Proof.
  induction s as [|c r IH].
  - rewrite endswith_nil. intros E. apply String.eqb_eq in E. subst. reflexivity.
  - rewrite endswith_cons. intros E. apply orb_prop in E. destruct E as [E|E].
    + apply String.eqb_eq in E. subst. reflexivity.
    + specialize (IH E). simpl. lia.
Qed.

(** Of two suffixes of one string, the shorter is a suffix of the longer. *)
Lemma endswith_chain s p q :
  endswith s p = true -> endswith s q = true ->
  (String.length p <= String.length q)%nat -> endswith q p = true.
Proof.
  induction s as [|c r IH].
  - rewrite !endswith_nil. intros Ep Eq Len.
    apply String.eqb_eq in Ep, Eq. subst. reflexivity.
  - rewrite !endswith_cons. intros Ep Eq Len.
    apply orb_prop in Ep. apply orb_prop in Eq.
    destruct Eq as [Eq|Eq].
    + apply String.eqb_eq in Eq. subst q. rewrite endswith_cons.
      destruct Ep as [Ep|Ep]; rewrite Ep; auto using orb_true_r.
    + destruct Ep as [Ep|Ep]; [|auto].
      apply String.eqb_eq in Ep. subst p.
      apply endswith_length in Eq. simpl in Len. lia.
Qed.

Lemma endswith_any_spec s t :
  endswith_any s t = true <-> exists ext, In ext t /\ endswith s ext = true.
Proof.
  unfold endswith_any. rewrite existsb_exists. reflexivity.
Qed.

(** A name that ends with [ext] ends with no suffix of [t], as soon as [ext]
    and the members of [t] are no suffixes of one another. *)
Lemma endswith_any_other s ext t :
  endswith s ext = true ->
  forallb (fun e => negb (endswith e ext) && negb (endswith ext e)) t = true ->
  endswith_any s t = false.
Proof.
  intros E Hall. destruct (endswith_any s t) eqn:A; [|reflexivity].
  apply endswith_any_spec in A. destruct A as (e & He & Ee).
  rewrite forallb_forall in Hall. specialize (Hall e He).
  apply andb_prop in Hall. destruct Hall as [N1 N2].
  destruct (Nat.le_ge_cases (String.length ext) (String.length e)) as [Le|Le].
  - rewrite (endswith_chain s ext e E Ee Le) in N1. discriminate.
  - rewrite (endswith_chain s e ext Ee E Le) in N2. discriminate.
Qed.

(** ** Lower-casing *)

Lemma lower_length s : String.length (lower s) = String.length s.
Proof. induction s; simpl; congruence. Qed.

Lemma lower_ascii_idem c : lower_ascii (lower_ascii c) = lower_ascii c.
Proof.
  destruct c as [[] [] [] [] [] [] [] []]; vm_compute; reflexivity.
Qed.

Lemma lower_idem s : lower (lower s) = lower s.
Proof. induction s; simpl; rewrite ?lower_ascii_idem; congruence. Qed.

Lemma lower_app a b : lower (a ++ b) = lower a ++ lower b.
Proof. induction a; simpl; congruence. Qed.

(** ** [sorted] *)

Lemma insert_perm x l : Permutation (x :: l) (insert x l).
Proof.
  induction l as [|y r IH]; simpl; [reflexivity|].
  destruct (String.leb x y); [reflexivity|].
  rewrite perm_swap. apply perm_skip. exact IH.
Qed.

Lemma sorted_perm l : Permutation l (sorted l).
Proof.
  induction l as [|x r IH]; simpl; [constructor|].
  rewrite <- insert_perm. apply perm_skip. exact IH.
Qed.

Lemma insert_hd x a l : HdRel name_le a l -> name_le a x -> HdRel name_le a (insert x l).
Proof.
  intros Hl Hx. destruct l as [|y r]; simpl.
  - constructor. exact Hx.
  - destruct (String.leb x y); constructor; [exact Hx|].
    inversion Hl. assumption.
Qed.

Lemma insert_sorted x l : Sorted name_le l -> Sorted name_le (insert x l).
Proof.
  induction 1 as [|y r Hs IH Hd]; simpl.
  - repeat constructor.
  - destruct (String.leb x y) eqn:E.
    + constructor; [constructor; assumption|]. constructor. exact E.
    + constructor; [exact IH|]. apply insert_hd; [exact Hd|].
      destruct (String.leb_total x y) as [T|T]; [congruence|exact T].
Qed.

Lemma sorted_sorted l : Sorted name_le (sorted l).
Proof. induction l; simpl; [constructor|]. apply insert_sorted. assumption. Qed.

Lemma sorted_In x l : In x (sorted l) <-> In x l.
Proof.
  split; apply Permutation_in; [symmetry|]; apply sorted_perm.
Qed.

Lemma sorted_length l : List.length (sorted l) = List.length l.
Proof. symmetry. apply Permutation_length, sorted_perm. Qed.

(** The order of names is a total order. *)
Lemma name_le_cases a b : name_le a b <-> String_as_OT.lt a b \/ a = b.
Proof.
  unfold name_le, String.leb. split.
  - destruct (String.compare a b) eqn:E; [|  |discriminate]; intros _.
    + right. apply String_as_OT.cmp_eq. exact E.
    + left. apply String_as_OT.cmp_lt. exact E.
  - intros [L| ->].
    + apply String_as_OT.cmp_lt in L. unfold String_as_OT.cmp in L. rewrite L.
      reflexivity.
    + assert (E : String.compare b b = Eq) by (apply String_as_OT.cmp_eq; reflexivity).
      rewrite E. reflexivity.
Qed.

Lemma name_le_trans a b c : name_le a b -> name_le b c -> name_le a c.
Proof.
  rewrite !name_le_cases. intros [L1| ->] [L2| ->]; auto.
  left. eapply String_as_OT.lt_trans; eassumption.
Qed.

Lemma name_le_refl a : name_le a a.
Proof. apply name_le_cases. auto. Qed.

(** Two sorted lists with the same names are the same list. *)
Lemma sorted_unique l l' :
  Sorted name_le l -> Sorted name_le l' -> Permutation l l' -> l = l'.
Proof.
  intros S1 S2.
  apply Sorted_StronglySorted in S1; [|exact name_le_trans].
  apply Sorted_StronglySorted in S2; [|exact name_le_trans].
  revert l' S2. induction S1 as [|a r Sr IH Ha]; intros l' S2 P.
  - apply Permutation_nil in P. subst. reflexivity.
  - destruct S2 as [|a' r' Sr' Ha'].
    + apply Permutation_sym, Permutation_nil in P. discriminate.
    + assert (a = a').
      { assert (I1 : In a (a' :: r')) by (eapply Permutation_in; [exact P|left; reflexivity]).
        assert (I2 : In a' (a :: r))
          by (eapply Permutation_in; [symmetry; exact P|left; reflexivity]).
        rewrite Forall_forall in Ha, Ha'.
        destruct I1 as [->|I1]; [reflexivity|].
        destruct I2 as [->|I2]; [reflexivity|].
        apply String.leb_antisym; [apply Ha; exact I2|apply Ha'; exact I1]. }
      subst a'. f_equal. apply IH; [exact Sr'|].
      eapply Permutation_cons_inv. exact P.
Qed.

Lemma sorted_permutation l l' : Permutation l l' -> sorted l = sorted l'.
Proof.
  intros P. apply sorted_unique; try apply sorted_sorted.
  rewrite <- (sorted_perm l), <- (sorted_perm l'). exact P.
Qed.

Lemma sorted_idem l : sorted (sorted l) = sorted l.
Proof. apply sorted_permutation. symmetry. apply sorted_perm. Qed.

Lemma append_assoc (a b c : string) : ((a ++ b) ++ c = a ++ (b ++ c))%string.
Proof. induction a; simpl; congruence. Qed.

(** A suffix of the second part is a suffix of the whole. *)
Lemma endswith_app a b p : endswith b p = true -> endswith (a ++ b) p = true.
Proof.
  intros E. apply endswith_spec in E. destruct E as [pre ->].
  apply endswith_spec. exists (a ++ pre). symmetry. apply append_assoc.
Qed.

End PyStrFacts.

(* ================================================================== *)
(** * Rounding to binary64 *)
(* ================================================================== *)

Section Floats.
Import PyFloat Bounds.
Local Open Scope Q_scope.

Lemma two_pow_pos e : 0 < two_pow e.
Proof. unfold two_pow. apply Qpower_0_lt. reflexivity. Qed.

Lemma two_pow_add a b : two_pow (a + b) == two_pow a * two_pow b.
Proof. unfold two_pow. apply Qpower_plus. discriminate. Qed.

Lemma two_pow_succ e : two_pow (e + 1) == 2 * two_pow e.
Proof. rewrite two_pow_add. unfold two_pow at 2. simpl. ring. Qed.

Lemma two_pow_sub a b : two_pow (a - b) == two_pow a / two_pow b.
Proof.
  unfold Z.sub. rewrite two_pow_add. unfold two_pow.
  rewrite Qpower_opp. reflexivity.
Qed.

Lemma two_pow_Z n : (0 <= n)%Z -> inject_Z (2 ^ n) == two_pow n.
Proof. intros H. unfold two_pow. rewrite Zpower_Qpower by assumption. reflexivity. Qed.

Lemma two_pow_le a b : (a <= b)%Z -> two_pow a <= two_pow b.
Proof. intros H. unfold two_pow. apply Qpower_le_compat_l; [assumption|discriminate]. Qed.

(** floor(log2) brackets its argument *)
Lemma ilog2_spec q : 0 < q -> two_pow (ilog2 q) <= q /\ q < two_pow (ilog2 q + 1).
Proof.
  intros Hq. destruct q as [n d]. unfold ilog2. cbn [Qnum Qden]. cbv zeta.
  assert (Hn : (0 < n)%Z) by (unfold Qlt in Hq; simpl in Hq; lia).
  set (ln := Z.log2 n). set (ld := Z.log2 (Zpos d)).
  assert (Hln : (2 ^ ln <= n < 2 ^ (ln + 1))%Z).
  { unfold ln. pose proof (Z.log2_spec n Hn). replace (ln + 1)%Z with (Z.succ (Z.log2 n)) by (unfold ln; lia). lia. }
  assert (Hld : (2 ^ ld <= Zpos d < 2 ^ (ld + 1))%Z).
  { unfold ld. pose proof (Z.log2_spec (Zpos d) ltac:(lia)). replace (Z.log2 (Zpos d) + 1)%Z with (Z.succ (Z.log2 (Zpos d))) by lia. lia. }
  assert (H0n : (0 <= ln)%Z) by apply Z.log2_nonneg.
  assert (H0d : (0 <= ld)%Z) by apply Z.log2_nonneg.
  assert (Qn : two_pow ln <= inject_Z n /\ inject_Z n < two_pow (ln + 1)).
  { rewrite <- !two_pow_Z by lia. rewrite <- Zle_Qle, <- Zlt_Qlt. lia. }
  assert (Qd : two_pow ld <= inject_Z (Zpos d) /\ inject_Z (Zpos d) < two_pow (ld + 1)).
  { rewrite <- !two_pow_Z by lia. rewrite <- Zle_Qle, <- Zlt_Qlt. lia. }
  assert (Hq' : n # d == inject_Z n / inject_Z (Zpos d)) by apply Qmake_Qdiv.
  assert (Hdpos : 0 < inject_Z (Zpos d)) by reflexivity.
  pose proof (two_pow_pos ld) as Pld. pose proof (two_pow_pos ln) as Pln.
  pose proof (two_pow_pos (ln - ld)) as Pl.
  assert (E1 : two_pow ln == two_pow (ln - ld) * two_pow ld).
  { rewrite <- two_pow_add. replace (ln - ld + ld)%Z with ln by lia. reflexivity. }
  pose proof (two_pow_succ ln) as S1. pose proof (two_pow_succ ld) as S2.
  pose proof (two_pow_succ (ln - ld)) as S3.
  pose proof (two_pow_succ (ln - ld - 1)) as S4.
  replace (ln - ld - 1 + 1)%Z with (ln - ld)%Z in S4 by lia.
  assert (Hx : (n # d) * inject_Z (Zpos d) == inject_Z n).
  { rewrite Hq'. field. discriminate. }
  set (x := n # d) in *. set (D := inject_Z (Z.pos d)) in *. set (N := inject_Z n) in *.
  set (p := two_pow (ln - ld)) in *. set (pd := two_pow ld) in *. set (pn := two_pow ln) in *.
  destruct Qn as [Qn1 Qn2]. destruct Qd as [Qd1 Qd2].
  destruct (Qcompare_spec x p) as [He|Hl|Hg].
  - fold p. rewrite S3. split; lra.
  - replace (ln - ld - 1 + 1)%Z with (ln - ld)%Z by lia. fold p. split; [|exact Hl].
    (* 2^(l-1) <= x : x*D = N >= pn = p*pd, D < 2 pd *)
    assert (two_pow (ln - ld - 1) * D <= x * D); [|nra].
    rewrite Hx. nra.
  - fold p. rewrite S3. split; [lra|].
    assert (x * D < 2 * p * D); [|nra].
    rewrite Hx. nra.
Qed.

Lemma rne_err q : q - (1 # 2) <= inject_Z (rne q) /\ inject_Z (rne q) <= q + (1 # 2).
Proof.
  unfold rne. pose proof (Qfloor_le q) as Hl. pose proof (Qlt_floor q) as Hu.
  rewrite inject_Z_plus in Hu. change (inject_Z 1) with 1 in Hu.
  set (f := Qfloor q) in *.
  destruct (Qcompare_spec (q - inject_Z f) (1 # 2)) as [He|Hlt|Hgt].
  - destruct (Z.even f); [|rewrite inject_Z_plus; change (inject_Z 1) with 1]; split; lra.
  - split; lra.
  - rewrite inject_Z_plus; change (inject_Z 1) with 1. split; lra.
Qed.

Lemma rne_nonneg q : 0 <= q -> (0 <= rne q)%Z.
Proof.
  intros Hq. unfold rne.
  assert (Hf : (0 <= Qfloor q)%Z).
  { change 0%Z with (Qfloor 0). apply Qfloor_resp_le. exact Hq. }
  destruct (q - inject_Z (Qfloor q) ?= 1 # 2); [destruct (Z.even _)| |]; lia.
Qed.

Lemma rne_nonpos q : q <= 0 -> (rne q <= 0)%Z.
Proof.
  intros Hq. unfold rne.
  pose proof (Qfloor_le q) as Hl. pose proof (Qlt_floor q) as Hu.
  rewrite inject_Z_plus in Hu. change (inject_Z 1) with 1 in Hu.
  assert (Hf : (Qfloor q <= 0)%Z).
  { change 0%Z with (Qfloor 0). apply Qfloor_resp_le. exact Hq. }
  set (f := Qfloor q) in *.
  destruct (Z.eq_dec f 0) as [E|NE].
  - rewrite E in *. change (inject_Z 0) with 0 in *.
    destruct (Qcompare_spec (q - 0) (1 # 2)) as [He|Hlt|Hgt]; simpl; try lia; lra.
  - assert (f + 1 <= 0)%Z by lia.
    destruct (q - inject_Z f ?= 1 # 2); [destruct (Z.even _)| |]; lia.
Qed.


Lemma eps_two_pow : eps == two_pow (-53).
Proof. reflexivity. Qed.

(** The rounding error of [round64], for every rational. *)
Lemma round64_err q :
  Qabs (round64 q - q) <= eps * Qabs q + eta.
Proof.
  unfold round64. cbv zeta.
  pose proof (Qred_correct q) as Hr.
  set (q' := Qred q) in *.
  pose proof (two_pow_pos (-1075)) as Peta. fold eta in Peta.
  assert (Heps : 0 < eps) by reflexivity.
  destruct (Z.eq_dec (Qnum q') 0) as [E|NE].
  - rewrite E. assert (q' == 0) by (destruct q'; simpl in *; subst; reflexivity).
    assert (Hq0 : q == 0) by (rewrite <- Hr; assumption).
    rewrite Hq0. change (Qabs (0 - 0)) with 0. change (Qabs 0) with 0. lra.
  - assert (Hne : ~ q' == 0).
    { intro H. apply NE. destruct q' as [n d]. unfold Qeq in H. simpl in *. lia. }
    replace (match Qnum q' with 0%Z => 0 | _ => Qred (inject_Z (rne (q' / two_pow (Z.max (ilog2 (Qabs q') - 52) (-1074)))) * two_pow (Z.max (ilog2 (Qabs q') - 52) (-1074))) end)
      with (Qred (inject_Z (rne (q' / two_pow (Z.max (ilog2 (Qabs q') - 52) (-1074)))) * two_pow (Z.max (ilog2 (Qabs q') - 52) (-1074))))
      by (destruct (Qnum q'); [contradiction|reflexivity|reflexivity]).
    rewrite Qred_correct.
    assert (Hapos : 0 < Qabs q').
    { pose proof (Qabs_nonneg q'). destruct (Qeq_dec (Qabs q') 0) as [Z0|NZ]; [|lra].
      exfalso. apply Hne. revert Z0. apply Qabs_case; intros; lra. }
    destruct (ilog2_spec _ Hapos) as [L1 L2].
    set (l := ilog2 (Qabs q')) in *.
    set (e := Z.max (l - 52) (-1074)).
    pose proof (two_pow_pos e) as Pe.
    destruct (rne_err (q' / two_pow e)) as [R1 R2].
    set (m := inject_Z (rne (q' / two_pow e))) in *.
    assert (Hx : q' / two_pow e * two_pow e == q') by (field; lra).
    set (x := q' / two_pow e) in *.
    (* |m*2^e - q'| <= 2^e / 2 *)
    assert (B : Qabs (m * two_pow e - q) <= two_pow e * (1 # 2)).
    { apply Qabs_Qle_condition. rewrite <- Hr. split; nra. }
    assert (C : two_pow e * (1 # 2) <= eps * Qabs q + eta).
    { assert (Habs : Qabs q == Qabs q') by (rewrite Hr; reflexivity).
      rewrite Habs.
      destruct (Z.max_spec (l - 52) (-1074)) as [[_ Em]|[_ Em]]; fold e in Em; rewrite Em.
      - assert (two_pow (-1074) * (1 # 2) == eta) by reflexivity. nra.
      - assert (two_pow (l - 52) * (1 # 2) == eps * two_pow l).
        { replace (l - 52)%Z with (l + -52)%Z by lia. rewrite two_pow_add.
          assert (two_pow (-52) * (1 # 2) == eps) by reflexivity. nra. }
        nra. }
    lra.
Qed.

Lemma round64_compat p q : p == q -> round64 p = round64 q.
Proof. intros H. unfold round64. rewrite (Qred_complete _ _ H). reflexivity. Qed.

Lemma round64_nonneg q : 0 <= q -> 0 <= round64 q.
Proof.
  intros Hq. unfold round64. cbv zeta.
  pose proof (Qred_correct q) as Hr. set (q' := Qred q) in *.
  destruct (Qnum q'); [lra| |];
    rewrite Qred_correct;
    (apply Qmult_le_0_compat;
     [ change 0 with (inject_Z 0); rewrite <- Zle_Qle; apply rne_nonneg;
       apply Qle_shift_div_l; [apply two_pow_pos | lra]
     | apply Qlt_le_weak, two_pow_pos ]).
Qed.

Lemma round64_nonpos q : q <= 0 -> round64 q <= 0.
Proof.
  intros Hq. unfold round64. cbv zeta.
  pose proof (Qred_correct q) as Hr. set (q' := Qred q) in *.
  destruct (Qnum q'); [lra| |];
    rewrite Qred_correct;
    match goal with |- inject_Z (rne ?x) * ?p <= 0 =>
      assert (Hx : x <= 0) by (apply Qle_shift_div_r; [apply two_pow_pos | lra]);
      pose proof (rne_nonpos _ Hx) as Hm; rewrite Zle_Qle in Hm;
      change (inject_Z 0) with 0 in Hm;
      pose proof (two_pow_pos (Z.max (ilog2 (Qabs q') - 52) (-1074))); nra
    end.
Qed.

(** Two-sided form of the error bound for a non-negative argument. *)
Lemma round64_pos_bounds q :
  0 <= q ->
  0 <= round64 q /\ q * (1 - eps) - eta <= round64 q /\ round64 q <= q * (1 + eps) + eta.
Proof.
  intros Hq. pose proof (round64_nonneg q Hq) as Hn.
  pose proof (round64_err q) as He. rewrite (Qabs_pos q Hq) in He.
  apply Qabs_Qle_condition in He. repeat split; lra.
Qed.

Lemma round64_neg_bounds q :
  q <= 0 ->
  round64 q <= 0 /\ q * (1 + eps) - eta <= round64 q /\ round64 q <= q * (1 - eps) + eta.
Proof.
  intros Hq. pose proof (round64_nonpos q Hq) as Hn.
  pose proof (round64_err q) as He. rewrite (Qabs_neg q Hq) in He.
  apply Qabs_Qle_condition in He. repeat split; lra.
Qed.

Lemma of_real_finite q :
  Qabs (round64 q) < two_pow 1024 -> of_real q = Finite (round64 q).
Proof.
  intros H. unfold of_real. cbv zeta.
  destruct (Qle_bool (two_pow 1024) (Qabs (round64 q))) eqn:E; [|reflexivity].
  apply Qle_bool_iff in E. lra.
Qed.


Lemma trunc_nonneg q :
  0 <= q -> (0 <= trunc q)%Z /\ inject_Z (trunc q) <= q /\ q < inject_Z (trunc q) + 1.
Proof.
  intros Hq. unfold trunc. destruct q as [n d]. cbn [Qnum Qden].
  assert (Hn : (0 <= n)%Z) by (unfold Qle in Hq; simpl in Hq; lia).
  rewrite Z.quot_div_nonneg by lia.
  change (n / Zpos d)%Z with (Qfloor (n # d)).
  pose proof (Qfloor_le (n # d)). pose proof (Qlt_floor (n # d)) as Hu.
  rewrite inject_Z_plus in Hu. change (inject_Z 1) with 1 in Hu.
  repeat split; try assumption.
  change 0%Z with (Qfloor 0). apply Qfloor_resp_le. exact Hq.
Qed.

Lemma trunc_small_neg q : - (1) < q -> q <= 0 -> trunc q = 0%Z.
Proof.
  intros H1 H2. unfold trunc. destruct q as [n d]. cbn [Qnum Qden].
  unfold Qlt, Qle in *. simpl in *.
  apply Z.quot_small_iff; lia.
Qed.

(** In the normal range the error is purely relative. *)
Lemma round64_normal q :
  two_pow (-1022) <= q ->
  q * (1 - eps) <= round64 q /\ round64 q <= q * (1 + eps).
Proof.
  intros Hq. pose proof (two_pow_pos (-1022)) as P.
  assert (Hq0 : 0 < q) by lra.
  unfold round64. cbv zeta.
  pose proof (Qred_correct q) as Hr. set (q' := Qred q) in *.
  assert (Hq' : 0 < q') by lra.
  assert (Hnum : (0 < Qnum q')%Z) by (destruct q'; unfold Qlt in Hq'; simpl in *; lia).
  destruct (Qnum q') eqn:En; try lia. clear En Hnum.
  rewrite Qred_correct.
  assert (Ha : Qabs q' == q') by (apply Qabs_pos; lra).
  assert (Hapos : 0 < Qabs q') by lra.
  destruct (ilog2_spec _ Hapos) as [L1 L2].
  set (l := ilog2 (Qabs q')) in *.
  assert (Hl : (-1022 <= l)%Z).
  { assert (two_pow (-1022) < two_pow (l + 1)) by lra.
    apply Qpower_lt_compat_l_inv in H; [lia|reflexivity]. }
  rewrite Z.max_l by lia.
  pose proof (two_pow_pos (l - 52)) as Pe.
  destruct (rne_err (q' / two_pow (l - 52))) as [R1 R2].
  set (m := inject_Z (rne (q' / two_pow (l - 52)))) in *.
  assert (Hx : q' / two_pow (l - 52) * two_pow (l - 52) == q') by (field; lra).
  set (x := q' / two_pow (l - 52)) in *.
  assert (E : two_pow (l - 52) * (1 # 2) == eps * two_pow l).
  { replace (l - 52)%Z with (l + -52)%Z by lia. rewrite two_pow_add.
    assert (two_pow (-52) * (1 # 2) == eps) by reflexivity. nra. }
  assert (Heps : 0 < eps) by reflexivity.
  split; nra.
Qed.

Lemma rne_Z n : rne (inject_Z n) = n.
Proof.
  unfold rne. rewrite Qfloor_Z.
  assert (H : inject_Z n - inject_Z n == 0) by ring.
  rewrite (Qcompare_comp _ _ H (1 # 2) (1 # 2) (Qeq_refl _)). reflexivity.
Qed.

Lemma rne_compat p q : p == q -> rne p = rne q.
Proof.
  intros H. unfold rne. rewrite (Qfloor_comp _ _ H).
  assert (H' : p - inject_Z (Qfloor q) == q - inject_Z (Qfloor q)) by (rewrite H; reflexivity).
  rewrite (Qcompare_comp _ _ H' (1 # 2) (1 # 2) (Qeq_refl _)). reflexivity.
Qed.

(** Integers below 2^53 are floats. *)
Lemma round64_Z n : (0 <= n <= 2 ^ 53)%Z -> round64 (inject_Z n) == inject_Z n.
Proof.
  intros Hn. destruct (Z.eq_dec n 0) as [->|NZ]; [reflexivity|].
  unfold round64. cbv zeta.
  pose proof (Qred_correct (inject_Z n)) as Hr. set (q' := Qred (inject_Z n)) in *.
  assert (Hpos : 0 < inject_Z n) by (change 0 with (inject_Z 0); rewrite <- Zlt_Qlt; lia).
  assert (Hq' : 0 < q') by lra.
  assert (Hnum : (0 < Qnum q')%Z) by (destruct q'; unfold Qlt in Hq'; simpl in *; lia).
  destruct (Qnum q') eqn:En; try lia. clear En Hnum.
  rewrite Qred_correct.
  assert (Ha : Qabs q' == q') by (apply Qabs_pos; lra).
  assert (Hapos : 0 < Qabs q') by lra.
  destruct (ilog2_spec _ Hapos) as [L1 L2].
  set (l := ilog2 (Qabs q')) in *.
  assert (Hl : (0 <= l <= 53)%Z).
  { split.
    - assert (two_pow 0 < two_pow (l + 1)).
      { eapply Qle_lt_trans; [|exact L2]. rewrite Ha, Hr.
        change (two_pow 0) with (inject_Z 1). rewrite <- Zle_Qle. lia. }
      apply (Qpower_lt_compat_l_inv 2 0 (l + 1)) in H; [lia|reflexivity].
    - assert (two_pow l <= two_pow 53).
      { eapply Qle_trans; [exact L1|]. rewrite Ha, Hr.
        rewrite <- two_pow_Z by lia. rewrite <- Zle_Qle. lia. }
      apply (Qpower_le_compat_l_inv 2 l 53) in H; [lia|reflexivity]. }
  destruct (Z.max_spec (l - 52) (-1074)) as [[? _]|[_ Em]]; [lia|]. rewrite Em. clear Em.
  destruct (Z.eq_dec l 53) as [E53|N53].
  - (* n = 2^53 *)
    assert (En : n = (2 ^ 53)%Z).
    { assert (two_pow 53 <= inject_Z n) by (rewrite <- Hr, <- Ha, <- E53; exact L1).
      rewrite <- two_pow_Z in H by lia. rewrite <- Zle_Qle in H. lia. }
    subst n. rewrite E53.
    assert (Eq : q' / two_pow (53 - 52) == inject_Z (2 ^ 52)).
    { rewrite Hr. reflexivity. }
    rewrite (rne_compat _ _ Eq), rne_Z. reflexivity.
  - assert (Eq : q' / two_pow (l - 52) == inject_Z (n * 2 ^ (52 - l))).
    { rewrite Hr, inject_Z_mult, two_pow_Z by lia.
      replace (l - 52)%Z with (- (52 - l))%Z by lia.
      unfold two_pow. rewrite Qpower_opp. field.
      apply Qpower_not_0. discriminate. }
    rewrite (rne_compat _ _ Eq), rne_Z.
    rewrite inject_Z_mult, two_pow_Z by lia.
    rewrite <- Qmult_assoc, <- two_pow_add.
    replace (52 - l + (l - 52))%Z with 0%Z by lia.
    change (two_pow 0) with 1. ring.
Qed.

Lemma is_neg_compat p q : p == q -> is_neg p = is_neg q.
Proof.
  intros H. unfold is_neg. rewrite (Qcompare_comp _ _ H 0 0 (Qeq_refl _)). reflexivity.
Qed.

Lemma of_real_compat p q : p == q -> of_real p = of_real q.
Proof.
  intros H. unfold of_real. rewrite (round64_compat _ _ H), (is_neg_compat _ _ H). reflexivity.
Qed.


Lemma eta_small : eta <= small.
Proof. apply Qle_bool_iff. vm_compute. reflexivity. Qed.

Lemma two_pow_1022_small : two_pow (-1022) <= small.
Proof. apply Qle_bool_iff. vm_compute. reflexivity. Qed.

Lemma big_two_pow : 2 * big + 1 < two_pow 1024.
Proof. apply Qlt_alt. vm_compute. reflexivity. Qed.

Lemma eta_pos : 0 < eta.
Proof. apply two_pow_pos. Qed.

Lemma eps_val : eps == 1 # 9007199254740992.
Proof. reflexivity. Qed.

Lemma of_real_normal q :
  small <= q -> q <= big ->
  exists r, of_real q = Finite r /\ q * (1 - eps) <= r /\ r <= q * (1 + eps).
Proof.
  intros H1 H2. pose proof two_pow_1022_small. pose proof big_two_pow.
  assert (Hq : two_pow (-1022) <= q) by lra.
  destruct (round64_normal q Hq) as [L U].
  assert (0 < small) by reflexivity. pose proof eps_val.
  exists (round64 q). split; [|split; assumption].
  apply of_real_finite. rewrite Qabs_pos by nra. nra.
Qed.

Lemma of_real_pos q :
  0 <= q -> q <= big ->
  exists r, of_real q = Finite r /\ 0 <= r /\
            q * (1 - eps) - eta <= r /\ r <= q * (1 + eps) + eta.
Proof.
  intros H1 H2. pose proof big_two_pow. pose proof eta_small. pose proof eta_pos.
  destruct (round64_pos_bounds q H1) as (N & L & U).
  assert (0 < small) by reflexivity. pose proof eps_val.
  assert (Sm : small <= 1) by (apply Qle_bool_iff; vm_compute; reflexivity).
  exists (round64 q). split; [|repeat split; assumption].
  apply of_real_finite. rewrite Qabs_pos by assumption. nra.
Qed.

Lemma of_real_neg q :
  - big <= q -> q <= 0 ->
  exists r, of_real q = Finite r /\ r <= 0 /\ q * (1 + eps) - eta <= r.
Proof.
  intros H1 H2. pose proof big_two_pow. pose proof eta_small. pose proof eta_pos.
  destruct (round64_neg_bounds q H2) as (N & L & U).
  assert (0 < small) by reflexivity. pose proof eps_val.
  assert (Sm : small <= 1) by (apply Qle_bool_iff; vm_compute; reflexivity).
  exists (round64 q). split; [|repeat split; assumption].
  apply of_real_finite. rewrite Qabs_neg by assumption. nra.
Qed.

Lemma of_real_Z n :
  (0 <= n <= 2 ^ 53)%Z ->
  exists r, of_real (inject_Z n) = Finite r /\ r == inject_Z n.
Proof.
  intros Hn. pose proof (round64_Z n Hn) as E. pose proof big_two_pow.
  exists (round64 (inject_Z n)). split; [|exact E].
  apply of_real_finite. rewrite E.
  assert (0 <= inject_Z n) by (change 0 with (inject_Z 0); rewrite <- Zle_Qle; lia).
  assert (inject_Z n <= inject_Z (2 ^ 53)) by (rewrite <- Zle_Qle; lia).
  rewrite Qabs_pos by assumption.
  assert (inject_Z (2 ^ 53) <= big) by (apply Qle_bool_iff; vm_compute; reflexivity).
  lra.
Qed.

Lemma is_zero_pos r : 0 < r -> is_zero (Finite r) = false.
Proof.
  intros H. unfold is_zero. destruct (Qeq_bool r 0) eqn:E; [|reflexivity].
  apply Qeq_bool_iff in E. lra.
Qed.

Lemma gt_Finite a b : gt (Finite a) (Finite b) = true <-> b < a.
Proof.
  unfold gt. destruct (Qle_bool a b) eqn:E; simpl.
  - apply Qle_bool_iff in E. split; [discriminate|lra].
  - split; [|reflexivity]. intros _.
    destruct (Qlt_le_dec b a) as [L|L]; [assumption|].
    apply Qle_bool_iff in L. congruence.
Qed.
End Floats.

(* ================================================================== *)
(** * The fit-to-canvas arithmetic *)
(* ================================================================== *)

Section Geometry.
Import PyFloat Bounds.
Local Open Scope Q_scope.

(** The two quotients compare as the cross products do. *)
Lemma ratio_separation (Wq Hq wq hq a b : Q) :
  1 <= Wq -> 1 <= Hq -> 1 <= wq -> 1 <= hq ->
  Wq * hq <= K -> wq * Hq <= K ->
  wq * (1 - eps) <= a * hq -> a * hq <= wq * (1 + eps) ->
  Wq * (1 - eps) <= b * Hq -> b * Hq <= Wq * (1 + eps) ->
  wq * Hq + 1 <= Wq * hq ->
  a < b.
Proof.
  intros. pose proof eps_val as E. unfold K in *.
  assert (A1 : a * hq * Hq <= wq * Hq * (1 + eps)) by nra.
  assert (B1 : (wq * Hq + 1) * (1 - eps) <= b * Hq * hq) by nra.
  assert (C : a * (hq * Hq) < b * (hq * Hq)) by nra.
  assert (P : 0 < hq * Hq) by nra.
  apply (proj1 (Qmult_lt_r _ _ _ P)). exact C.
Qed.

Lemma of_int_exact n :
  (0 <= n <= 2 ^ 53)%Z ->
  exists r, of_int n = Return (Finite r) /\ r == inject_Z n.
Proof.
  intros H. destruct (of_real_Z n H) as (r & E & Er).
  exists r. unfold of_int. rewrite E. split; [reflexivity|assumption].
Qed.

Lemma truediv_int_int n d :
  (d <> 0)%Z ->
  small <= inject_Z n / inject_Z d -> inject_Z n / inject_Z d <= big ->
  exists r, PyNum.truediv (PInt n) (PInt d) = Return (PFloat (Finite r)) /\
            inject_Z n / inject_Z d * (1 - eps) <= r /\
            r <= inject_Z n / inject_Z d * (1 + eps).
Proof.
  intros Hd H1 H2. destruct (of_real_normal _ H1 H2) as (r & E & B).
  exists r. unfold PyNum.truediv.
  destruct (Z.eqb_spec d 0) as [->|_]; [contradiction|].
  rewrite E. split; [reflexivity|assumption].
Qed.

Lemma truediv_int_two k :
  (0 <= k)%Z -> inject_Z k <= big ->
  exists r, PyNum.truediv (PInt k) (PInt 2) = Return (PFloat (Finite r)) /\
            0 <= r /\ r <= inject_Z k / 2 * (1 + eps) + eta.
Proof.
  intros Hk Hb.
  assert (Hq : 0 <= inject_Z k) by (change 0 with (inject_Z 0); rewrite <- Zle_Qle; lia).
  assert (H0 : 0 <= inject_Z k / inject_Z 2).
  { apply Qle_shift_div_l; [reflexivity|]. lra. }
  assert (H1 : inject_Z k / inject_Z 2 <= big).
  { apply Qle_shift_div_r; [reflexivity|]. change (inject_Z 2) with 2.
    assert (0 < big) by reflexivity. lra. }
  destruct (of_real_pos _ H0 H1) as (r & E & N & _ & U).
  exists r. unfold PyNum.truediv. change (2 =? 0)%Z with false. cbv iota.
  rewrite E. repeat split; assumption.
Qed.

Lemma mul_float_int a n :
  (0 <= n <= 2 ^ 53)%Z ->
  small <= a * inject_Z n -> a * inject_Z n <= big ->
  exists x, PyNum.mul (PFloat (Finite a)) (PInt n) = Return (PFloat (Finite x)) /\
            a * inject_Z n * (1 - eps) <= x /\ x <= a * inject_Z n * (1 + eps).
Proof.
  intros Hn H1 H2. destruct (of_int_exact n Hn) as (r & E & Er).
  destruct (of_real_normal _ H1 H2) as (x & Ex & B).
  exists x. unfold PyNum.mul, PyNum.to_float. rewrite E. cbn [rbind PyFloat.mul].
  assert (C : a * r == a * inject_Z n) by (rewrite Er; reflexivity).
  rewrite (of_real_compat _ _ C), Ex. split; [reflexivity|assumption].
Qed.

Lemma mul_int_float n a :
  (0 <= n <= 2 ^ 53)%Z ->
  small <= a * inject_Z n -> a * inject_Z n <= big ->
  exists x, PyNum.mul (PInt n) (PFloat (Finite a)) = Return (PFloat (Finite x)) /\
            a * inject_Z n * (1 - eps) <= x /\ x <= a * inject_Z n * (1 + eps).
Proof.
  intros Hn H1 H2. destruct (of_int_exact n Hn) as (r & E & Er).
  destruct (of_real_normal _ H1 H2) as (x & Ex & B).
  exists x. unfold PyNum.mul, PyNum.to_float. rewrite E. cbn [rbind PyFloat.mul].
  assert (C : r * a == a * inject_Z n) by (rewrite Er; ring).
  rewrite (of_real_compat _ _ C), Ex. split; [reflexivity|assumption].
Qed.

Lemma truediv_int_float n a :
  (0 <= n <= 2 ^ 53)%Z -> 0 < a ->
  small <= inject_Z n / a -> inject_Z n / a <= big ->
  exists y, PyNum.truediv (PInt n) (PFloat (Finite a)) = Return (PFloat (Finite y)) /\
            inject_Z n / a * (1 - eps) <= y /\ y <= inject_Z n / a * (1 + eps).
Proof.
  intros Hn Ha H1 H2. destruct (of_int_exact n Hn) as (r & E & Er).
  destruct (of_real_normal _ H1 H2) as (y & Ey & B).
  exists y. unfold PyNum.truediv, PyNum.to_float. rewrite E. cbn [rbind].
  rewrite (is_zero_pos _ Ha). cbn [PyFloat.div].
  assert (C : r / a == inject_Z n / a) by (rewrite Er; reflexivity).
  rewrite (of_real_compat _ _ C), Ey. split; [reflexivity|assumption].
Qed.

Lemma sub_int_float n x :
  (0 <= n <= 2 ^ 53)%Z ->
  PyNum.sub (PInt n) (PFloat (Finite x)) = Return (PFloat (of_real (inject_Z n - x))).
Proof.
  intros Hn. destruct (of_int_exact n Hn) as (r & E & Er).
  unfold PyNum.sub, PyNum.to_float. rewrite E. cbn [rbind PyFloat.sub].
  assert (C : r - x == inject_Z n - x) by (rewrite Er; reflexivity).
  rewrite (of_real_compat _ _ C). reflexivity.
Qed.

Lemma truediv_float_two d :
  PyNum.truediv (PFloat (Finite d)) (PInt 2) = Return (PFloat (of_real (d / 2))).
Proof.
  destruct (of_int_exact 2 ltac:(lia)) as (r & E & Er).
  unfold PyNum.truediv, PyNum.to_float. rewrite E. cbn [rbind].
  assert (0 < r) by (rewrite Er; reflexivity).
  rewrite (is_zero_pos _ H). cbn [PyFloat.div].
  assert (C : d / r == d / 2) by (rewrite Er; reflexivity).
  rewrite (of_real_compat _ _ C). reflexivity.
Qed.


(** Bounds in Q that follow from [in_range]. *)
Lemma in_range_Q W H w h :
  in_range W H w h ->
  1 <= inject_Z W /\ 1 <= inject_Z H /\ 1 <= inject_Z w /\ 1 <= inject_Z h /\
  inject_Z W * inject_Z h <= K - 1 /\ inject_Z w * inject_Z H <= K - 1.
Proof.
  intros (HW & HH & Hw & Hh & B1 & B2).
  change (2 ^ 50)%Z with 1125899906842624%Z in *.
  repeat split.
  1-4: change 1 with (inject_Z 1); rewrite <- Zle_Qle; lia.
  - rewrite <- inject_Z_mult. change (K - 1) with (inject_Z 1125899906842623).
    rewrite <- Zle_Qle. lia.
  - rewrite <- inject_Z_mult. change (K - 1) with (inject_Z 1125899906842623).
    rewrite <- Zle_Qle. lia.
Qed.

Lemma in_range_53 W H w h :
  in_range W H w h ->
  (0 <= W <= 2 ^ 53 /\ 0 <= H <= 2 ^ 53)%Z.
Proof.
  intros (HW & HH & Hw & Hh & B1 & B2).
  change (2 ^ 50)%Z with 1125899906842624%Z in *.
  change (2 ^ 53)%Z with 9007199254740992%Z. nia.
Qed.


Lemma quot_bounds (n d r : Q) :
  0 < d ->
  n / d * (1 - eps) <= r -> r <= n / d * (1 + eps) ->
  n * (1 - eps) <= r * d /\ r * d <= n * (1 + eps).
Proof.
  intros Hd L U.
  assert (E : n / d * d == n) by (field; lra).
  split.
  - rewrite <- E at 1.
    setoid_replace (n / d * d * (1 - eps)) with (n / d * (1 - eps) * d) by ring.
    apply Qmult_le_compat_r; lra.
  - rewrite <- E at 1.
    setoid_replace (n / d * d * (1 + eps)) with (n / d * (1 + eps) * d) by ring.
    apply Qmult_le_compat_r; lra.
Qed.

Lemma le_K_one (x y : Q) : 1 <= x -> 1 <= y -> x * y <= K - 1 -> x <= K /\ y <= K.
Proof. intros. unfold K in *. split; nra. Qed.

Lemma quot_range (n d : Q) :
  1 <= n -> 1 <= d -> n <= K -> d <= K ->
  small <= n / d /\ n / d <= big.
Proof.
  intros Hn Hd Kn Kd. unfold K in *.
  assert (Sm : small <= 1 # 1267650600228229401496703205376)
    by (apply Qle_bool_iff; vm_compute; reflexivity).
  assert (Bg : 1267650600228229401496703205376 # 1 <= big)
    by (apply Qle_bool_iff; vm_compute; reflexivity).
  split.
  - apply Qle_shift_div_l; [lra|]. nra.
  - apply Qle_shift_div_r; [lra|]. nra.
Qed.

Lemma pos_of_scaled (a h w : Q) : 1 <= h -> 1 <= w -> w * (1 - eps) <= a * h -> 0 < a.
Proof.
  intros Hh Hw L. pose proof eps_val as E.
  destruct (Qlt_le_dec 0 a) as [P|N]; [exact P|exfalso].
  assert (a * h <= 0) by nra. nra.
Qed.

Lemma cross_Z_Q (W H w h : Z) :
  (w * H < W * h)%Z ->
  inject_Z w * inject_Z H + 1 <= inject_Z W * inject_Z h.
Proof.
  intros L. rewrite <- !inject_Z_mult. change 1 with (inject_Z 1).
  rewrite <- inject_Z_plus, <- Zle_Qle. lia.
Qed.

(** The two quotients a script compares, and how they compare. *)
Lemma aspect_ratios W H w h :
  in_range W H w h ->
  exists a b,
    PyNum.truediv (PInt w) (PInt h) = Return (PFloat (Finite a)) /\
    PyNum.truediv (PInt W) (PInt H) = Return (PFloat (Finite b)) /\
    inject_Z w * (1 - eps) <= a * inject_Z h /\
    a * inject_Z h <= inject_Z w * (1 + eps) /\
    0 < a /\
    (PyFloat.gt (Finite b) (Finite a) = true <-> (w * H < W * h)%Z).
Proof.
  intros R. destruct (in_range_Q _ _ _ _ R) as (HW & HH & Hw & Hh & B1 & B2).
  pose proof R as (ZW & ZH & Zw & Zh & ZB1 & ZB2).
  destruct (le_K_one _ _ HW Hh B1) as [WK hK].
  destruct (le_K_one _ _ Hw HH B2) as [wK HK].
  destruct (quot_range _ _ Hw Hh wK hK) as [A1 A2].
  destruct (quot_range _ _ HW HH WK HK) as [A3 A4].
  destruct (truediv_int_int w h ltac:(lia) A1 A2) as (a & Ea & La & Ua).
  destruct (truediv_int_int W H ltac:(lia) A3 A4) as (b & Eb & Lb & Ub).
  assert (Ph : 0 < inject_Z h) by lra.
  assert (PH : 0 < inject_Z H) by lra.
  destruct (quot_bounds _ _ _ Ph La Ua) as [La' Ua'].
  destruct (quot_bounds _ _ _ PH Lb Ub) as [Lb' Ub'].
  exists a, b. split; [exact Ea|]. split; [exact Eb|].
  split; [exact La'|]. split; [exact Ua'|].
  split; [exact (pos_of_scaled _ _ _ Hh Hw La')|].
  rewrite gt_Finite. split.
  - intros Hab. destruct (Z_lt_le_dec (w * H) (W * h)) as [L|L]; [exact L|exfalso].
    destruct (Z.eq_dec (W * h) (w * H)) as [Eq|Ne].
    + (* equal quotients round alike *)
      assert (Qe : inject_Z w / inject_Z h == inject_Z W / inject_Z H).
      { unfold Qdiv. apply Qeq_alt. unfold Qeq. simpl.
        destruct h as [|hp|hp]; try lia. destruct H as [|Hp|Hp]; try lia.
        simpl. apply Qeq_alt. unfold Qeq. simpl. lia. }
      unfold PyNum.truediv in Ea, Eb.
      destruct (Z.eqb_spec h 0); [lia|]. destruct (Z.eqb_spec H 0); [lia|].
      rewrite (of_real_compat _ _ Qe) in Ea.
      destruct (of_real (inject_Z W / inject_Z H)); try discriminate.
      inversion Ea; inversion Eb; subst. lra.
    + assert (C : inject_Z W * inject_Z h + 1 <= inject_Z w * inject_Z H).
      { apply cross_Z_Q. lia. }
      assert (b < a); [|lra].
      apply (ratio_separation (inject_Z w) (inject_Z h) (inject_Z W) (inject_Z H) b a);
        try assumption; lra.
  - intros L. pose proof (cross_Z_Q _ _ _ _ L) as C.
    apply (ratio_separation (inject_Z W) (inject_Z H) (inject_Z w) (inject_Z h) a b);
      try assumption; lra.
Qed.

(** Height-limited case: the rounded product stays within half a unit of
    the exact width, measured in units of [1/h]. *)
Lemma height_limited_Q (Hq wq hq a x : Q) :
  1 <= Hq -> 1 <= hq -> 1 <= wq -> wq * Hq <= K - 1 ->
  wq * (1 - eps) <= a * hq -> a * hq <= wq * (1 + eps) -> 0 < a ->
  a * Hq * (1 - eps) <= x -> x <= a * Hq * (1 + eps) ->
  wq * Hq - (1 # 2) <= x * hq /\ x * hq <= wq * Hq + (1 # 2).
Proof.
  intros HH Hh Hw B La Ua Pa Lx Ux.
  assert (E0 : 0 <= 1 + eps) by (unfold eps; lra).
  assert (E1 : 0 <= 1 - eps) by (unfold eps; lra).
  assert (U1 : x * hq <= a * Hq * (1 + eps) * hq)
    by (apply Qmult_le_compat_r; lra).
  assert (U2 : a * hq * (Hq * (1 + eps)) <= wq * (1 + eps) * (Hq * (1 + eps))).
  { apply Qmult_le_compat_r; [exact Ua|]. apply Qmult_le_0_compat; lra. }
  assert (L1 : a * Hq * (1 - eps) * hq <= x * hq)
    by (apply Qmult_le_compat_r; lra).
  assert (L2 : wq * (1 - eps) * (Hq * (1 - eps)) <= a * hq * (Hq * (1 - eps))).
  { apply Qmult_le_compat_r; [exact La|]. apply Qmult_le_0_compat; lra. }
  assert (R1 : a * Hq * (1 + eps) * hq == a * hq * (Hq * (1 + eps))) by ring.
  assert (R2 : a * Hq * (1 - eps) * hq == a * hq * (Hq * (1 - eps))) by ring.
  assert (R3 : wq * (1 + eps) * (Hq * (1 + eps)) == wq * Hq * ((1 + eps) * (1 + eps))) by ring.
  assert (R4 : wq * (1 - eps) * (Hq * (1 - eps)) == wq * Hq * ((1 - eps) * (1 - eps))) by ring.
  rewrite R1 in U1. rewrite R2 in L1. rewrite R3 in U2. rewrite R4 in L2.
  assert (P0 : 0 <= wq * Hq) by (apply Qmult_le_0_compat; lra).
  revert U1 U2 L1 L2 B P0.
  generalize (wq * Hq) (x * hq) (a * hq * (Hq * (1 + eps))) (a * hq * (Hq * (1 - eps))).
  intros P X T1 T2. unfold eps, K. intros. split; lra.
Qed.

(** Width-limited case, likewise for the height in units of [1/w]. *)
Lemma width_limited_Q (Wq wq hq a y : Q) :
  1 <= Wq -> 1 <= hq -> 1 <= wq -> Wq * hq <= K - 1 ->
  wq * (1 - eps) <= a * hq -> a * hq <= wq * (1 + eps) -> 0 < a ->
  Wq / a * (1 - eps) <= y -> y <= Wq / a * (1 + eps) ->
  0 <= y /\ Wq * hq - (1 # 2) <= y * wq /\ y * wq <= Wq * hq + (1 # 2).
Proof.
  intros HW Hh Hw B La Ua Pa Ly Uy.
  destruct (quot_bounds _ _ _ Pa Ly Uy) as [Ly' Uy'].
  assert (E0 : 0 <= 1 + eps) by (unfold eps; lra).
  assert (E1 : 0 < 1 - eps) by (unfold eps; lra).
  assert (Py : 0 <= y).
  { assert (0 <= Wq / a) by (apply Qle_shift_div_l; lra).
    apply Qle_trans with (Wq / a * (1 - eps)); [|exact Ly].
    apply Qmult_le_0_compat; lra. }
  split; [exact Py|].
  assert (U1 : y * a * hq <= Wq * (1 + eps) * hq)
    by (apply Qmult_le_compat_r; lra).
  assert (L1 : Wq * (1 - eps) * hq <= y * a * hq)
    by (apply Qmult_le_compat_r; lra).
  assert (U2 : wq * (1 - eps) * y <= a * hq * y)
    by (apply Qmult_le_compat_r; lra).
  assert (L2 : a * hq * y <= wq * (1 + eps) * y)
    by (apply Qmult_le_compat_r; lra).
  assert (R1 : y * a * hq == a * hq * y) by ring.
  assert (R2 : Wq * (1 + eps) * hq == Wq * hq * (1 + eps)) by ring.
  assert (R3 : Wq * (1 - eps) * hq == Wq * hq * (1 - eps)) by ring.
  assert (R4 : wq * (1 - eps) * y == y * wq * (1 - eps)) by ring.
  assert (R5 : wq * (1 + eps) * y == y * wq * (1 + eps)) by ring.
  rewrite R1, R2 in U1. rewrite R1, R3 in L1. rewrite R4 in U2. rewrite R5 in L2.
  assert (P0 : 0 <= Wq * hq) by (apply Qmult_le_0_compat; lra).
  assert (P1 : 0 <= y * wq) by (apply Qmult_le_0_compat; lra).
  revert U1 U2 L1 L2 B P0 P1.
  generalize (Wq * hq) (y * wq) (a * hq * y).
  intros D Y T. unfold eps, K. intros. split; lra.
Qed.

(** From the scaled bound to the integer the truncation yields. *)
Lemma trunc_scaled (x : Q) (P h : Z) :
  (1 <= h)%Z -> 0 <= x ->
  inject_Z P - (1 # 2) <= x * inject_Z h -> x * inject_Z h <= inject_Z P + (1 # 2) ->
  (0 <= trunc x /\ P - h <= trunc x * h <= P)%Z.
Proof.
  intros Hh Px L U. destruct (trunc_nonneg x Px) as (N & Lo & Hi).
  assert (Hq : 1 <= inject_Z h) by (change 1 with (inject_Z 1); rewrite <- Zle_Qle; lia).
  set (n := trunc x) in *.
  assert (A : inject_Z n * inject_Z h <= x * inject_Z h)
    by (apply Qmult_le_compat_r; lra).
  assert (B : x * inject_Z h <= (inject_Z n + 1) * inject_Z h)
    by (apply Qmult_le_compat_r; lra).
  assert (B' : (inject_Z n + 1) * inject_Z h == inject_Z n * inject_Z h + inject_Z h) by ring.
  rewrite B' in B. rewrite <- inject_Z_mult in A, B.
  split; [exact N|]. split.
  - assert (C : inject_Z (P - h - 1) < inject_Z (n * h)).
    { unfold Z.sub. rewrite !inject_Z_plus, !inject_Z_opp. change (inject_Z 1) with 1. lra. }
    rewrite <- Zlt_Qlt in C. lia.
  - assert (C : inject_Z (n * h) < inject_Z (P + 1)).
    { rewrite inject_Z_plus. change (inject_Z 1) with 1. lra. }
    rewrite <- Zlt_Qlt in C. lia.
Qed.

Lemma K_big : K * K * 4 <= big.
Proof. apply Qle_bool_iff. vm_compute. reflexivity. Qed.

Lemma small_K : small * (K * 4) <= 1.
Proof. apply Qle_bool_iff. vm_compute. reflexivity. Qed.

Lemma inject_Z_K n : (0 <= n <= 2 ^ 50)%Z -> 0 <= inject_Z n /\ inject_Z n <= K.
Proof.
  intros H. change (2 ^ 50)%Z with 1125899906842624%Z in H.
  change 0 with (inject_Z 0). change K with (inject_Z 1125899906842624).
  rewrite <- !Zle_Qle. lia.
Qed.

(** [(n - x) / 2] for a float [x] between 0 and the integer [n]. *)
Lemma center_float_pos n x :
  (0 <= n <= 2 ^ 50)%Z -> 0 <= x -> x <= inject_Z n ->
  exists d lf,
    PyNum.sub (PInt n) (PFloat (Finite x)) = Return (PFloat (Finite d)) /\
    PyNum.truediv (PFloat (Finite d)) (PInt 2) = Return (PFloat (Finite lf)) /\
    0 <= lf /\ lf <= (inject_Z n - x) / 2 + (1 # 4).
Proof.
  intros Hn Px Ux. destruct (inject_Z_K n Hn) as [N0 NK].
  pose proof K_big as KB. pose proof eta_small as ES. pose proof eta_pos as EP.
  assert (Sm : small <= 1 # 1267650600228229401496703205376)
    by (apply Qle_bool_iff; vm_compute; reflexivity).
  assert (Kv : K == 1125899906842624 # 1) by reflexivity.
  assert (KK : K <= K * K * 4) by (rewrite Kv; lra).
  assert (Q1 : 0 <= inject_Z n - x) by lra.
  assert (Q2 : inject_Z n - x <= big) by lra.
  destruct (of_real_pos _ Q1 Q2) as (d & Ed & Pd & _ & Ud).
  assert (Q3 : 0 <= d / 2) by (apply Qle_shift_div_l; lra).
  assert (Q4 : d / 2 <= big).
  { apply Qle_shift_div_r; [reflexivity|]. unfold eps in Ud. lra. }
  destruct (of_real_pos _ Q3 Q4) as (lf & El & Pl & _ & Ul).
  exists d, lf. rewrite sub_int_float by (change (2 ^ 50)%Z with 1125899906842624%Z in Hn;
    change (2 ^ 53)%Z with 9007199254740992%Z; lia).
  rewrite Ed, truediv_float_two, El.
  split; [reflexivity|]. split; [reflexivity|]. split; [exact Pl|].
  assert (D2 : d / 2 == d * (1 # 2)) by (field).
  assert (N2 : (inject_Z n - x) / 2 == (inject_Z n - x) * (1 # 2)) by field.
  rewrite D2 in Ul. rewrite N2. unfold eps in *. lra.
Qed.

(** The same when the float exceeds the integer by at most one half. *)
Lemma center_float_neg n x :
  (0 <= n <= 2 ^ 50)%Z -> inject_Z n <= x -> x <= inject_Z n + (1 # 2) ->
  exists d lf,
    PyNum.sub (PInt n) (PFloat (Finite x)) = Return (PFloat (Finite d)) /\
    PyNum.truediv (PFloat (Finite d)) (PInt 2) = Return (PFloat (Finite lf)) /\
    - (1) < lf /\ lf <= 0.
Proof.
  intros Hn Lx Ux. destruct (inject_Z_K n Hn) as [N0 NK].
  pose proof eta_small as ES. pose proof eta_pos as EP.
  assert (Sm : small <= 1 # 1267650600228229401496703205376)
    by (apply Qle_bool_iff; vm_compute; reflexivity).
  assert (Bg : 1 <= big) by (apply Qle_bool_iff; vm_compute; reflexivity).
  assert (Q1 : - big <= inject_Z n - x) by lra.
  assert (Q2 : inject_Z n - x <= 0) by lra.
  destruct (of_real_neg _ Q1 Q2) as (d & Ed & Nd & Ld).
  assert (D2 : d / 2 == d * (1 # 2)) by (field).
  assert (Q3 : - big <= d / 2) by (rewrite D2; unfold eps in Ld; lra).
  assert (Q4 : d / 2 <= 0) by (rewrite D2; lra).
  destruct (of_real_neg _ Q3 Q4) as (lf & El & Nl & Ll).
  exists d, lf. rewrite sub_int_float by (change (2 ^ 50)%Z with 1125899906842624%Z in Hn;
    change (2 ^ 53)%Z with 9007199254740992%Z; lia).
  rewrite Ed, truediv_float_two, El.
  split; [reflexivity|]. split; [reflexivity|]. split; [|exact Nl].
  rewrite D2 in Ll. unfold eps in *. lra.
Qed.

Lemma truediv_zero_two : PyNum.truediv (PInt 0) (PInt 2) = Return (PFloat (Finite 0)).
Proof. vm_compute. reflexivity. Qed.

(** Range of the aspect ratio as a float. *)
Lemma aspect_range (wq hq a : Q) :
  1 <= wq -> 1 <= hq -> wq <= K -> hq <= K ->
  wq * (1 - eps) <= a * hq -> a * hq <= wq * (1 + eps) ->
  1 <= a * (K * 2) /\ a <= K * 2.
Proof.
  intros Hw Hh wK hK L U.
  assert (A0 : 0 <= a).
  { destruct (Qlt_le_dec a 0) as [N|P]; [|exact P]. exfalso.
    assert (a * hq <= a) by (clear - N Hh; nra).
    unfold eps in *. lra. }
  split.
  - assert (a * hq <= a * K) by (rewrite (Qmult_comm a hq), (Qmult_comm a K);
      apply Qmult_le_compat_r; lra).
    unfold eps in *. lra.
  - assert (a * 1 <= a * hq) by (rewrite (Qmult_comm a 1), (Qmult_comm a hq);
      apply Qmult_le_compat_r; lra).
    unfold eps, K in *. lra.
Qed.

Lemma small_pos : 0 < small.
Proof. reflexivity. Qed.

Lemma range_mul (a Hq : Q) :
  1 <= a * (K * 2) -> a <= K * 2 -> 1 <= Hq -> Hq <= K ->
  small <= a * Hq /\ a * Hq <= big.
Proof.
  intros A1 A2 H1 H2. pose proof K_big as KB. pose proof small_K as SK.
  unfold K in *. split; nra.
Qed.

Lemma range_div (Wq a : Q) :
  1 <= a * (K * 2) -> a <= K * 2 -> 1 <= Wq -> Wq <= K -> 0 < a ->
  small <= Wq / a /\ Wq / a <= big.
Proof.
  intros A1 A2 H1 H2 Pa. pose proof K_big as KB. pose proof small_K as SK.
  pose proof small_pos as SP.
  unfold K in *. split.
  - apply Qle_shift_div_l; [exact Pa|]. nra.
  - apply Qle_shift_div_r; [exact Pa|]. nra.
Qed.

(** Height-limited branch: [aspect_ratio * height]. *)
Lemma limited_width W H w h a :
  in_range W H w h ->
  inject_Z w * (1 - eps) <= a * inject_Z h ->
  a * inject_Z h <= inject_Z w * (1 + eps) -> 0 < a ->
  (w * H < W * h)%Z ->
  exists x,
    PyNum.mul (PFloat (Finite a)) (PInt H) = Return (PFloat (Finite x)) /\
    PyNum.mul (PInt H) (PFloat (Finite a)) = Return (PFloat (Finite x)) /\
    0 <= x /\ x <= inject_Z W /\
    (0 <= trunc x /\ w * H - h <= trunc x * h <= w * H)%Z.
Proof.
  intros R La Ua Pa Lt.
  destruct (in_range_Q _ _ _ _ R) as (HW & HH & Hw & Hh & B1 & B2).
  destruct (in_range_53 _ _ _ _ R) as [W53 H53].
  pose proof R as (ZW & ZH & Zw & Zh & ZB1 & ZB2).
  destruct (le_K_one _ _ HW Hh B1) as [WK hK].
  destruct (le_K_one _ _ Hw HH B2) as [wK HK].
  destruct (aspect_range _ _ _ Hw Hh wK hK La Ua) as [A1 A2].
  destruct (range_mul _ _ A1 A2 HH HK) as [S1 S2].
  destruct (mul_float_int a H H53 S1 S2) as (x & Ex & Lx & Ux).
  destruct (mul_int_float H a H53 S1 S2) as (x' & Ex' & _).
  assert (x' = x).
  { unfold PyNum.mul, PyNum.to_float in Ex, Ex'.
    destruct (of_int H) as [|[r| |]]; cbn [rbind PyFloat.mul] in Ex, Ex'; try discriminate.
    - rewrite (of_real_compat (r * a) (a * r)) in Ex' by ring. congruence.
    - destruct (is_zero (Finite a)); discriminate.
  }
  subst x'.
  destruct (height_limited_Q _ _ _ _ x HH Hh Hw B2 La Ua Pa Lx Ux) as [E1 E2].
  pose proof (cross_Z_Q _ _ _ _ Lt) as C.
  assert (Px : 0 <= x).
  { apply Qle_trans with (a * inject_Z H * (1 - eps)); [|exact Lx].
    apply Qmult_le_0_compat; [apply Qmult_le_0_compat; lra|unfold eps; lra]. }
  assert (Xw : x <= inject_Z W).
  { apply (proj1 (Qmult_le_r x (inject_Z W) (inject_Z h) ltac:(lra))). lra. }
  exists x. split; [exact Ex|]. split; [exact Ex'|]. split; [exact Px|].
  split; [exact Xw|].
  rewrite <- inject_Z_mult in E1, E2.
  apply (trunc_scaled x (w * H) h); [lia|assumption..].
Qed.

(** Width-limited branch: [width / aspect_ratio]. *)
Lemma limited_height W H w h a :
  in_range W H w h ->
  inject_Z w * (1 - eps) <= a * inject_Z h ->
  a * inject_Z h <= inject_Z w * (1 + eps) -> 0 < a ->
  (W * h <= w * H)%Z ->
  exists y,
    PyNum.truediv (PInt W) (PFloat (Finite a)) = Return (PFloat (Finite y)) /\
    0 <= y /\ y <= inject_Z H + (1 # 2) /\
    (0 <= trunc y <= H /\ W * h - w <= trunc y * w <= W * h)%Z.
Proof.
  intros R La Ua Pa Le.
  destruct (in_range_Q _ _ _ _ R) as (HW & HH & Hw & Hh & B1 & B2).
  destruct (in_range_53 _ _ _ _ R) as [W53 H53].
  pose proof R as (ZW & ZH & Zw & Zh & ZB1 & ZB2).
  destruct (le_K_one _ _ HW Hh B1) as [WK hK].
  destruct (le_K_one _ _ Hw HH B2) as [wK HK].
  destruct (aspect_range _ _ _ Hw Hh wK hK La Ua) as [A1 A2].
  destruct (range_div _ _ A1 A2 HW WK Pa) as [S1 S2].
  destruct (truediv_int_float W a W53 Pa S1 S2) as (y & Ey & Ly & Uy).
  destruct (width_limited_Q _ _ _ _ y HW Hh Hw B1 La Ua Pa Ly Uy) as (Py & E1 & E2).
  assert (C : inject_Z W * inject_Z h <= inject_Z w * inject_Z H)
    by (rewrite <- !inject_Z_mult, <- Zle_Qle; exact Le).
  assert (Yh : y <= inject_Z H + (1 # 2)).
  { apply (proj1 (Qmult_le_r y (inject_Z H + (1 # 2)) (inject_Z w) ltac:(lra))).
    assert ((inject_Z H + (1 # 2)) * inject_Z w ==
            inject_Z w * inject_Z H + (1 # 2) * inject_Z w) by ring.
    lra. }
  exists y. split; [exact Ey|]. split; [exact Py|]. split; [exact Yh|].
  rewrite <- inject_Z_mult in E1, E2.
  destruct (trunc_scaled y (W * h) w ltac:(lia) Py E1 E2) as (T0 & T1 & T2).
  repeat split; try assumption. nia.
Qed.

Lemma trunc_zero : trunc 0 = 0%Z.
Proof. reflexivity. Qed.

Lemma Zle_of_Qlt_succ (a b : Z) : inject_Z a < inject_Z b + 1 -> (a <= b)%Z.
Proof.
  intros H. change 1 with (inject_Z 1) in H. rewrite <- inject_Z_plus, <- Zlt_Qlt in H. lia.
Qed.

(** First script, lines 34-55, for sizes in range. *)
Lemma fit_to_canvas_spec W H w h :
  in_range W H w h ->
  exists left_ top width height l t wd ht,
    ImagesOnly.fit_to_canvas W H w h = Return (left_, top, width, height) /\
    PyNum.int left_ = Return l /\ PyNum.int top = Return t /\
    PyNum.int width = Return wd /\ PyNum.int height = Return ht /\
    fits W H w h l t wd ht.
Proof.
  intros R. destruct (aspect_ratios _ _ _ _ R) as (a & b & Ea & Eb & La & Ua & Pa & G).
  pose proof R as (ZW & ZH & Zw & Zh & ZB1 & ZB2).
  assert (W50 : (0 <= W <= 2 ^ 50)%Z) by nia.
  assert (H50 : (0 <= H <= 2 ^ 50)%Z) by nia.
  unfold ImagesOnly.fit_to_canvas. rewrite Ea, Eb. cbn [rbind PyNum.gt PyNum.to_float].
  destruct (PyFloat.gt (Finite b) (Finite a)) eqn:Gt.
  - clear Gt. pose proof (proj1 G eq_refl) as Gt.
    destruct (limited_width _ _ _ _ a R La Ua Pa Gt) as (x & Ex & _ & Px & Xw & T0 & T1).
    destruct (center_float_pos W x W50 Px Xw) as (d & lf & Ed & El & Pl & Ul).
    destruct (trunc_nonneg lf Pl) as (L0 & L1 & L2).
    destruct (trunc_nonneg x Px) as (X0 & X1 & X2).
    rewrite Ex. cbn [rbind]. rewrite Ed. cbn [rbind]. rewrite El. cbn [rbind PyNum.sub].
    rewrite Z.sub_diag, truediv_zero_two. cbn [rbind].
    exists (PFloat (Finite lf)), (PFloat (Finite 0)), (PFloat (Finite x)), (PInt H).
    exists (trunc lf), 0%Z, (trunc x), H.
    repeat (split; [reflexivity|]).
    unfold fits. repeat split; try lia.
    apply Zle_of_Qlt_succ. rewrite inject_Z_plus.
    assert ((inject_Z W - x) / 2 == (inject_Z W - x) * (1 # 2)) by field.
    lra.
  - assert (Le : (W * h <= w * H)%Z).
    { destruct (Z_lt_le_dec (w * H) (W * h)) as [L|L]; [|exact L].
      apply G in L. discriminate. }
    destruct (limited_height _ _ _ _ a R La Ua Pa Le) as (y & Ey & Py & Yh & [T0 T1] & T2).
    rewrite Ey. cbn [rbind].
    destruct (Qlt_le_dec (inject_Z H) y) as [Hy|Hy].
    + destruct (center_float_neg H y H50 ltac:(lra) Yh) as (d & tf & Ed & Et & Lt & Ut).
      rewrite Ed. cbn [rbind PyNum.sub]. rewrite Z.sub_diag, truediv_zero_two.
      cbn [rbind]. rewrite Et. cbn [rbind].
      exists (PFloat (Finite 0)), (PFloat (Finite tf)), (PInt W), (PFloat (Finite y)).
      exists 0%Z, (trunc tf), W, (trunc y).
      repeat (split; [reflexivity|]).
      rewrite (trunc_small_neg tf Lt Ut).
      unfold fits. repeat split; lia.
    + destruct (center_float_pos H y H50 Py Hy) as (d & tf & Ed & Et & Pt & Ut).
      destruct (trunc_nonneg tf Pt) as (L0 & L1 & L2).
      destruct (trunc_nonneg y Py) as (Y0 & Y1 & Y2).
      rewrite Ed. cbn [rbind PyNum.sub]. rewrite Z.sub_diag, truediv_zero_two.
      cbn [rbind]. rewrite Et. cbn [rbind].
      exists (PFloat (Finite 0)), (PFloat (Finite tf)), (PInt W), (PFloat (Finite y)).
      exists 0%Z, (trunc tf), W, (trunc y).
      repeat (split; [reflexivity|]).
      unfold fits. repeat split; try lia.
      apply Zle_of_Qlt_succ. rewrite inject_Z_plus.
      assert ((inject_Z H - y) / 2 == (inject_Z H - y) * (1 # 2)) by field.
      lra.
Qed.

(** Second script, lines 67-75. *)
Lemma new_size_spec W H w h :
  in_range W H w h ->
  exists nw nh,
    ImagesAndMusic.new_size W H w h = Return (nw, nh) /\
    (0 <= nw <= W /\ 0 <= nh <= H)%Z /\
    (w * H < W * h -> nh = H /\ w * H - h <= nw * h <= w * H)%Z /\
    (W * h <= w * H -> nw = W /\ W * h - w <= nh * w <= W * h)%Z.
Proof.
  intros R. destruct (aspect_ratios _ _ _ _ R) as (a & b & Ea & Eb & La & Ua & Pa & G).
  pose proof R as (ZW & ZH & Zw & Zh & ZB1 & ZB2).
  unfold ImagesAndMusic.new_size. rewrite Ea, Eb. cbn [rbind PyNum.gt PyNum.to_float].
  destruct (PyFloat.gt (Finite b) (Finite a)) eqn:Gt.
  - clear Gt. pose proof (proj1 G eq_refl) as Gt.
    destruct (limited_width _ _ _ _ a R La Ua Pa Gt) as (x & _ & Ex & Px & Xw & T0 & T1).
    rewrite Ex. cbn [rbind PyNum.int to_int].
    exists (trunc x), H. split; [reflexivity|].
    repeat split; try lia; nia.
  - assert (Le : (W * h <= w * H)%Z).
    { destruct (Z_lt_le_dec (w * H) (W * h)) as [L|L]; [|exact L].
      apply G in L. discriminate. }
    destruct (limited_height _ _ _ _ a R La Ua Pa Le) as (y & Ey & Py & Yh & [T0 T1] & T2).
    rewrite Ey. cbn [rbind PyNum.int to_int].
    exists W, (trunc y). split; [reflexivity|].
    repeat split; lia.
Qed.

(** Second script, lines 83-84: the margin that centres a length. *)
Lemma centered_spec S n :
  (0 <= n <= S)%Z -> (S <= 2 ^ 50)%Z ->
  exists l, ImagesAndMusic.centered S n = Return l /\ (0 <= l /\ 2 * l <= S - n)%Z.
Proof.
  intros Hn HS.
  assert (K50 : (0 <= S - n <= 2 ^ 50)%Z) by lia.
  destruct (inject_Z_K _ K50) as [P0 P1].
  assert (KB : K <= big) by (apply Qle_bool_iff; vm_compute; reflexivity).
  destruct (truediv_int_two (S - n) ltac:(lia) ltac:(lra)) as (r & E & Pr & Ur).
  destruct (trunc_nonneg r Pr) as (L0 & L1 & L2).
  unfold ImagesAndMusic.centered. cbn [PyNum.sub rbind]. rewrite E. cbn [rbind PyNum.int to_int].
  exists (trunc r). split; [reflexivity|]. split; [exact L0|].
  pose proof eta_small as ES. pose proof eta_pos as EP.
  assert (Sm : small <= 1 # 1267650600228229401496703205376)
    by (apply Qle_bool_iff; vm_compute; reflexivity).
  assert (D2 : inject_Z (S - n) / 2 == inject_Z (S - n) * (1 # 2)) by field.
  rewrite D2 in Ur.
  apply Zle_of_Qlt_succ. rewrite inject_Z_mult. change (inject_Z 2) with 2.
  unfold eps, K in *. lra.
Qed.

End Geometry.

Import Pptx.

(** * Lists addressed by position *)

Lemma nth_error_snoc {A} (l : list A) (x : A) :
  nth_error (l ++ [x]) (List.length l) = Some x.
Proof. induction l; simpl; auto. Qed.

Lemma update_snoc {A} (f : A -> A) (l : list A) (x : A) :
  update (List.length l) f (l ++ [x]) = l ++ [f x].
Proof. induction l; simpl; congruence. Qed.

Lemma remove_nth_snoc {A} (l : list A) (x : A) :
  remove_nth (List.length l) (l ++ [x]) = l.
Proof. induction l; simpl; congruence. Qed.

Lemma update_nil_snoc {A} (f : A -> A) (x : A) :
  update 0 f [x] = [f x].
Proof. reflexivity. Qed.

(** Symbolic execution of a script on a state given by its parts. *)
Ltac run_step :=
  first
    [ rewrite nth_error_snoc
    | rewrite update_snoc
    | rewrite remove_nth_snoc
    | progress cbv beta iota zeta delta
        [bind ret raise exit lift print get_prs modify_prs try_catch
         try_except try_except_all
         on_slide shapes_of slide_layouts add_slide add_shape add_picture
         set_picture remove_shape placeholders shapes_title set_frame
         add_textbox add_movie slide_show_transition save
         with_slides with_shapes with_transition new_slide
         prs console output slides slide_width slide_height
         s_shapes s_layout s_transition deck_state deck_of]
    | progress cbn [fst snd] ].
Ltac run := repeat run_step.
(** The same, rewriting with what is known of the world where it is met. *)
Ltac drive known := repeat first [ run_step | known ].
Ltac finish :=
  first [ reflexivity | repeat rewrite <- app_assoc; cbn [app]; reflexivity ].
(** For a piece of script that adds no slide. *)
Ltac no_slide :=
  exists []; intros ss c o; eexists; eexists;
  replace (ss ++ []) with ss by (symmetry; apply app_nil_r).

Section Appends.
Context {message : Type}.

Lemma appends_deck {A} (m : M message A) W H X :
  appends m W H X -> deck_of (m (deck_state W H [] [] None)) = X.
Proof.
  intros Hm. destruct (Hm [] [] None) as (Y & a & E). rewrite E. reflexivity.
Qed.

Lemma appends_ret {A} (a : A) W H : appends (message:=message) (ret a) W H [].
Proof.
  intros ss c o. exists [], a. cbn. rewrite !app_nil_r. reflexivity.
Qed.

Lemma appends_print (m : message) W H : appends (print m) W H [].
Proof.
  intros ss c o. exists [m], tt. cbn. rewrite !app_nil_r. reflexivity.
Qed.

Lemma appends_bind {A B} (m : M message A) (k : A -> M message B) W H X Z :
  appends m W H X -> (forall a, appends (k a) W H Z) ->
  appends (bind m k) W H (X ++ Z).
Proof.
  intros Hm Hk ss c o. destruct (Hm ss c o) as (Y & a & E).
  destruct (Hk a (ss ++ X) (c ++ Y) o) as (Y' & b & E').
  exists (Y ++ Y'), b. unfold bind. rewrite E, E', !app_assoc. reflexivity.
Qed.

Lemma appends_for_each {A V} (body : A -> V -> M message V) W H
    (X : A -> list slide) (xs : list A) :
  (forall x v, appends (body x v) W H (X x)) ->
  forall v, appends (for_each xs v body) W H (flat_map X xs).
Proof.
  intros Hb. induction xs as [|x r IH]; intros v; simpl.
  - apply appends_ret.
  - apply appends_bind; [apply Hb|]. intros v'. apply IH.
Qed.

End Appends.

(** * What a slide holds *)

Lemma textual_placeholders (lay : layout) :
  forallb Deck.textual (map (fun idx => Placeholder idx empty_frame) lay) = true.
Proof. induction lay; simpl; auto. Qed.

Lemma forallb_update {A} (P : A -> bool) (f : A -> A) n l :
  (forall x, P (f x) = P x) ->
  forallb P l = true -> forallb P (update n f l) = true.
Proof.
  intros Hf. revert n. induction l as [|x r IH]; intros n Hl.
  - destruct n; reflexivity.
  - simpl in Hl. apply andb_prop in Hl. destruct Hl as [Hx Hr].
    destruct n; simpl; rewrite ?Hf, ?Hx, ?Hr, ?IH; auto.
Qed.

Lemma textual_no_media shs :
  forallb Deck.textual shs = true ->
  flat_map (fun sh => match sh with Picture p => [p] | _ => [] end) shs = [] /\
  flat_map (fun sh => match sh with Movie p _ _ _ _ _ => [p] | _ => [] end) shs = [].
Proof.
  induction shs as [|sh r IH]; simpl; [auto|].
  intros H. apply andb_prop in H. destruct H as [Hs Hr].
  destruct (IH Hr) as [I1 I2]. destruct sh; try discriminate; simpl; auto.
Qed.

Lemma text_only_shows path s : Deck.text_only s -> Deck.shows_only path s.
Proof.
  unfold Deck.text_only, Deck.shows_only, Deck.pictures, Deck.movies.
  intros H. destruct (textual_no_media _ H) as [E1 E2]. rewrite E1, E2.
  split; [intros p []|reflexivity].
Qed.

Lemma picture_shows path i shs p t :
  forallb Deck.textual shs = true -> pic_image p = path ->
  Deck.shows_only path {| s_layout := i; s_shapes := shs ++ [Picture p];
                          s_transition := t |}.
Proof.
  intros H E. destruct (textual_no_media _ H) as [E1 E2].
  unfold Deck.shows_only, Deck.pictures, Deck.movies. cbn [s_shapes].
  rewrite !flat_map_app, E1, E2. simpl. split; [|reflexivity].
  intros q [<-|[]]. exact E.
Qed.

(** ** The text on a slide *)

Lemma texts_shapes s : Deck.texts s = flat_map Deck.text_of (s_shapes s).
Proof. reflexivity. Qed.

Lemma text_of_placeholders (lay : layout) :
  flat_map Deck.text_of (map (fun idx => Placeholder idx empty_frame) lay) = [].
Proof. induction lay; simpl; auto. Qed.

Lemma text_of_update_keep k (F : shape -> shape) l :
  (forall sh, Deck.text_of (F sh) = Deck.text_of sh) ->
  flat_map Deck.text_of (update k F l) = flat_map Deck.text_of l.
Proof.
  intros HF. revert k. induction l as [|x r IH]; intros k; [destruct k; reflexivity|].
  destruct k; simpl; rewrite ?HF, ?IH; reflexivity.
Qed.

Lemma text_of_update_title k (F : shape -> shape) (lay : layout) title :
  (k < List.length lay)%nat ->
  (forall idx, Deck.text_of (F (Placeholder idx empty_frame)) = [title]) ->
  flat_map Deck.text_of (update k F (map (fun idx => Placeholder idx empty_frame) lay))
  = [title].
Proof.
  intros Hk HF. revert k Hk. induction lay as [|i r IH]; intros k Hk; simpl in Hk; [lia|].
  destruct k; simpl.
  - rewrite HF, text_of_placeholders. reflexivity.
  - apply IH. lia.
Qed.

Lemma placeholders_from_range n l k idx :
  In (k, idx) (placeholders_from n l) -> (n <= k < n + List.length l)%nat.
Proof.
  revert n. induction l as [|sh r IH]; intros n I; simpl in *; [destruct I|].
  destruct sh; try (apply IH in I; lia).
  destruct I as [[= <- _]|I]; [lia|]. apply IH in I. lia.
Qed.

Lemma shapes_title_range (f : nat * nat -> bool) (lay : layout) k :
  option_map fst
    (find f (placeholders_from 0 (map (fun idx => Placeholder idx empty_frame) lay)))
  = Some k ->
  (k < List.length lay)%nat.
Proof.
  destruct (find f _) as [[k' idx]|] eqn:Fd; [|discriminate].
  intros [= <-]. apply find_some in Fd. destruct Fd as [I _].
  apply placeholders_from_range in I. rewrite length_map in I. lia.
Qed.

(** The one slide of the list, if any, shows [title] and nothing else; [range]
    proves that the shape given the text exists. *)
Ltac titled range :=
  first
    [ apply Forall_nil
    | apply Forall_cons; [|apply Forall_nil];
      rewrite texts_shapes; cbn [s_shapes];
      first
        [ rewrite flat_map_app, text_of_placeholders; reflexivity
        | repeat (rewrite text_of_update_keep; [|solve [intros []; reflexivity]]);
          apply text_of_update_title; [range|intros; reflexivity] ] ].

Ltac textual :=
  repeat first
    [ apply textual_placeholders
    | reflexivity
    | apply forallb_update; [intros []; reflexivity|]
    | rewrite forallb_app; apply andb_true_intro; split ].

(** Every slide of an explicit list holds text only, or one picture of
    [path] besides. *)
Ltac check_slides :=
  repeat first
    [ apply Forall_nil
    | apply Forall_cons
    | apply picture_shows; [textual|reflexivity]
    | apply text_only_shows; unfold Deck.text_only; cbn [s_shapes]; textual
    | unfold Deck.text_only; cbn [s_shapes]; textual ].

(** * The slide-adding procedures append *)

Ltac case_of known check :=
  eexists; split;
  [ intros ss c o; eexists; eexists; drive known; finish
  | split; [check | simpl; lia] ].
Ltac case_of_none known :=
  exists []; split;
  [ intros ss c o; eexists; eexists;
    replace (ss ++ []) with ss by (symmetry; apply app_nil_r);
    drive known; finish
  | split; [apply Forall_nil | simpl; lia] ].

(** No slide of the list has a timing. *)
Ltac untimed := repeat (apply Forall_cons; [reflexivity|]); apply Forall_nil.

Ltac case_of1 known check :=
  eexists; split;
  [ intros ss c o; eexists; eexists; drive known; finish
  | split; [check | split; [simpl; lia | untimed]] ].
Ltac case_of_none1 known :=
  exists []; split;
  [ intros ss c o; eexists; eexists;
    replace (ss ++ []) with ss by (symmetry; apply app_nil_r);
    drive known; finish
  | split; [apply Forall_nil | split; [simpl; lia | untimed]] ].

Module Run1.
Import ImagesOnly.

Lemma add_image_slide_appends1 wd path W H :
  exists X, appends (add_image_slide wd path) W H X /\
            Forall (Deck.shows_only path) X /\ (List.length X <= 1)%nat /\
            Forall (fun s => s_transition s = no_transition) X.
Proof.
  unfold appends, add_image_slide, create_picture, fit_picture,
    add_image_slide_except.
  destruct (nth_error (w_layouts wd) 6) as [lay|] eqn:L.
  2:{ case_of_none1 ltac:(rewrite L). }
  destruct (w_open_image wd path) as [e|[w h]] eqn:O.
  { case_of1 ltac:(first [rewrite L|rewrite O]) check_slides. }
  destruct (fit_to_canvas W H w h) as [e|[[[left_ top] width] height]] eqn:F.
  { case_of1 ltac:(first [rewrite L|rewrite O|rewrite F]) check_slides. }
  destruct (PyNum.int left_) as [e|l] eqn:I1.
  { case_of1 ltac:(first [rewrite L|rewrite O|rewrite F|rewrite I1]) check_slides. }
  destruct (PyNum.int top) as [e|t] eqn:I2.
  { case_of1 ltac:(first [rewrite L|rewrite O|rewrite F|rewrite I1|rewrite I2]) check_slides. }
  destruct (PyNum.int width) as [e|wdt] eqn:I3.
  { case_of1 ltac:(first [rewrite L|rewrite O|rewrite F|rewrite I1|rewrite I2|rewrite I3])
      check_slides. }
  destruct (PyNum.int height) as [e|ht] eqn:I4.
  { case_of1 ltac:(first [rewrite L|rewrite O|rewrite F|rewrite I1|rewrite I2|rewrite I3
                        |rewrite I4]) check_slides. }
  case_of1 ltac:(first [rewrite L|rewrite O|rewrite F|rewrite I1|rewrite I2|rewrite I3
                      |rewrite I4]) check_slides.
Qed.

Lemma add_title_slide_appends1 wd title W H :
  exists X, appends (add_title_slide wd title) W H X /\
            (Forall Deck.text_only X /\
             Forall (fun s => Deck.texts s = [title]) X /\
             (nth_error (w_layouts wd) 5 <> None \/ nth_error (w_layouts wd) 0 <> None ->
              exists s, X = [s] /\
                        s_layout s = match nth_error (w_layouts wd) 5 with
                                     | Some _ => 5%nat
                                     | None => 0%nat
                                     end) /\
             (nth_error (w_layouts wd) 5 = None -> nth_error (w_layouts wd) 0 = None ->
              X = [])) /\
            (List.length X <= 1)%nat /\
            Forall (fun s => s_transition s = no_transition) X.
Proof.
  unfold appends, add_title_slide.
  destruct (nth_error (w_layouts wd) 5) as [lay|] eqn:L5.
  - destruct (option_map fst (find (fun ph => Nat.eqb (snd ph) 0)
        (placeholders_from 0 (map (fun idx => Placeholder idx empty_frame) lay))))
      as [t|] eqn:T.
    + case_of1 ltac:(first [rewrite L5|rewrite T])
        ltac:(split; [check_slides
                     |split; [titled ltac:(exact (shapes_title_range _ _ _ T))
                             |split; [intros _; eexists; split; reflexivity
                                     |discriminate]]]).
    + case_of1 ltac:(first [rewrite L5|rewrite T])
        ltac:(split; [check_slides
                     |split; [titled fail
                             |split; [intros _; eexists; split; reflexivity
                                     |discriminate]]]).
  - destruct (nth_error (w_layouts wd) 0) as [lay|] eqn:L0.
    + destruct (option_map fst (find (fun ph => Nat.eqb (snd ph) 0)
        (placeholders_from 0 (map (fun idx => Placeholder idx empty_frame) lay))))
        as [t|] eqn:T.
      * case_of1 ltac:(first [rewrite L5|rewrite L0|rewrite T|progress unfold is_IndexError])
          ltac:(split; [check_slides
                       |split; [titled ltac:(exact (shapes_title_range _ _ _ T))
                               |split; [intros _; eexists; split; reflexivity
                                       |discriminate]]]).
      * case_of1 ltac:(first [rewrite L5|rewrite L0|rewrite T|progress unfold is_IndexError])
          ltac:(split; [check_slides
                       |split; [titled fail
                               |split; [intros _; eexists; split; reflexivity
                                       |discriminate]]]).
    + exists [].
      split; [|split; [split; [apply Forall_nil
                              |split; [apply Forall_nil
                                      |split; [intros [N|N]; congruence|reflexivity]]]
                      |split; [simpl; lia|apply Forall_nil]]].
      intros ss c o; eexists; eexists.
      replace (ss ++ []) with ss by (symmetry; apply app_nil_r).
      drive ltac:(first [rewrite L5|rewrite L0|progress unfold is_IndexError]); finish.
Qed.

End Run1.


Module Run2.
Import ImagesAndMusic.

Lemma scan_placeholders_prints phs ts : only_prints (scan_placeholders phs ts).
Proof.
  revert ts. induction phs as [|[shape idx] r IH]; intros ts; simpl.
  - exists [], ts. intros st. unfold ret. rewrite app_nil_r. destruct st; reflexivity.
  - destruct (Nat.eqb idx 1 || Nat.eqb idx 3)%bool.
    + exists [FoundPlaceholder idx], (Some shape). intros st. reflexivity.
    + destruct (Nat.eqb idx 2).
      * destruct (IH (Some shape)) as (Y & a & E).
        exists (FoundBodyPlaceholder idx :: Y), a. intros st.
        unfold bind, print. rewrite E. cbn [prs console output].
        rewrite <- app_assoc. reflexivity.
      * apply IH.
Qed.

(** The loop returns the shape it was given or one of the placeholders. *)
Lemma scan_placeholders_value phs ts :
  exists Y a,
    (forall st,
       scan_placeholders phs ts st =
       ({| prs := prs st; console := console st ++ Y; output := output st |},
        Done a)) /\
    (a = ts \/ exists sh idx, a = Some sh /\ In (sh, idx) phs).
Proof.
  revert ts. induction phs as [|[shape idx] r IH]; intros ts; simpl.
  - exists [], ts. split; [|left; reflexivity].
    intros st. unfold ret. rewrite app_nil_r. destruct st; reflexivity.
  - destruct (Nat.eqb idx 1 || Nat.eqb idx 3)%bool.
    + exists [FoundPlaceholder idx], (Some shape). split; [intros st; reflexivity|].
      right. exists shape, idx. auto.
    + destruct (Nat.eqb idx 2).
      * destruct (IH (Some shape)) as (Y & a & E & R).
        exists (FoundBodyPlaceholder idx :: Y), a. split.
        -- intros st. unfold bind, print. rewrite E. cbn [prs console output].
           rewrite <- app_assoc. reflexivity.
        -- right. destruct R as [->|(sh & i & -> & I)].
           ++ exists shape, idx. auto.
           ++ exists sh, i. auto.
      * destruct (IH ts) as (Y & a & E & R). exists Y, a. split; [exact E|].
        destruct R as [->|(sh & i & -> & I)]; [left; reflexivity|].
        right. exists sh, i. auto.
Qed.

Lemma set_automatic_transition_last wd seconds W H ss sl c o :
  set_automatic_transition wd (List.length ss) seconds
    {| prs := {| slide_width := W; slide_height := H; slides := ss ++ [sl] |};
       console := c; output := o |} =
  ({| prs := {| slide_width := W; slide_height := H;
                slides := ss ++ [with_transition (Deck2.auto_advance wd seconds) sl] |};
      console := c ++ Deck2.auto_advance_log wd; output := o |}, Done tt).
Proof.
  unfold set_automatic_transition, Deck2.auto_advance, Deck2.auto_advance_log.
  destruct (w_has_transition wd) eqn:T.
  - run. rewrite T. run.
    unfold set_advance_time, set_advance_on_time, set_advance_on_click.
    cbv beta iota zeta delta [advance_on_click advance_on_time advance_time].
    rewrite app_nil_r. reflexivity.
  - run. rewrite T. run. destruct sl; reflexivity.
Qed.

Lemma add_image_slide_appends2 wd path W H :
  exists X, appends (add_image_slide wd path) W H X /\
            Forall (Deck.shows_only path) X /\ (List.length X <= 1)%nat.
Proof.
  unfold appends, add_image_slide, add_image_slide_try.
  destruct (nth_error (w_layouts wd) 6) as [lay|] eqn:L.
  2:{ case_of_none ltac:(first [rewrite L|progress unfold is_FileNotFoundError]). }
  destruct (w_open_image wd path) as [e|[w h]] eqn:O.
  { destruct (is_FileNotFoundError e) eqn:FE;
      case_of ltac:(first [rewrite L|rewrite O|rewrite FE]) check_slides. }
  destruct ((w =? 0) || (h =? 0))%bool eqn:Z0.
  { case_of ltac:(first [rewrite L|rewrite O|rewrite Z0
                        |rewrite set_automatic_transition_last]) check_slides. }
  destruct (new_size W H w h) as [e|[nw nh]] eqn:N.
  { destruct (is_FileNotFoundError e) eqn:FE;
      case_of ltac:(first [rewrite L|rewrite O|rewrite Z0|rewrite N|rewrite FE])
        check_slides. }
  destruct (centered W nw) as [e|l] eqn:C1.
  { destruct (is_FileNotFoundError e) eqn:FE;
      case_of ltac:(first [rewrite L|rewrite O|rewrite Z0|rewrite N|rewrite C1|rewrite FE])
        check_slides. }
  destruct (centered H nh) as [e|t] eqn:C2.
  { destruct (is_FileNotFoundError e) eqn:FE;
      case_of ltac:(first [rewrite L|rewrite O|rewrite Z0|rewrite N|rewrite C1|rewrite C2
                          |rewrite FE]) check_slides. }
  case_of ltac:(first [rewrite L|rewrite O|rewrite Z0|rewrite N|rewrite C1|rewrite C2
                      |rewrite set_automatic_transition_last]) check_slides.
Qed.

Lemma add_title_slide_appends2 wd title W H :
  exists X, appends (add_title_slide wd title) W H X /\
            (Forall Deck.text_only X /\
             Forall (fun s => Deck.texts s = [title]) X /\
             (nth_error (w_layouts wd) 5 <> None ->
              exists s, X = [s] /\
                        s_transition s =
                        Deck2.auto_advance wd SLIDE_TRANSITION_SECONDS no_transition /\
                        s_layout s = 5%nat) /\
             (nth_error (w_layouts wd) 5 = None -> X = [])) /\
            (List.length X <= 1)%nat.
Proof.
  unfold appends, add_title_slide.
  destruct (nth_error (w_layouts wd) 5) as [lay|] eqn:L5.
  2:{ exists [].
      split; [|split; [split; [apply Forall_nil
                              |split; [apply Forall_nil|split; [congruence|reflexivity]]]
                      |simpl; lia]].
      intros ss c o; eexists; eexists.
      replace (ss ++ []) with ss by (symmetry; apply app_nil_r).
      drive ltac:(rewrite L5); finish. }
  destruct (option_map fst (find (fun ph => Nat.eqb (snd ph) 0)
      (placeholders_from 0 (map (fun idx => Placeholder idx empty_frame) lay))))
    as [t|] eqn:T.
  { case_of ltac:(first [rewrite L5 | rewrite T | rewrite set_automatic_transition_last])
      ltac:(split; [check_slides
                   |split; [titled ltac:(exact (shapes_title_range _ _ _ T))
                           |split; [intros _; eexists; split; [reflexivity|split; reflexivity]
                                   |discriminate]]]). }
  destruct (placeholders_from 0 (map (fun idx => Placeholder idx empty_frame) lay))
    as [|ph phs] eqn:P.
  { case_of ltac:(first [rewrite L5 | rewrite P | rewrite T
                        | rewrite set_automatic_transition_last])
      ltac:(split; [check_slides
                   |split; [titled fail|split; [intros _; eexists; split; [reflexivity|split; reflexivity]
                                   |discriminate]]]). }
  destruct (scan_placeholders_value (ph :: phs) None) as (Y & [sh|] & E & R).
  - assert (Hsh : (sh < List.length lay)%nat).
    { destruct R as [R|(sh' & idx & [= <-] & I)]; [discriminate R|].
      rewrite <- P in I. apply placeholders_from_range in I.
      rewrite length_map in I. lia. }
    case_of ltac:(first [rewrite L5 | rewrite P | rewrite T | rewrite E
                        | rewrite set_automatic_transition_last])
      ltac:(split; [check_slides
                   |split; [titled ltac:(exact Hsh)
                           |split; [intros _; eexists; split; [reflexivity|split; reflexivity]
                                   |discriminate]]]).
  - case_of ltac:(first [rewrite L5 | rewrite P | rewrite T | rewrite E
                        | rewrite set_automatic_transition_last])
      ltac:(split; [check_slides
                   |split; [titled fail|split; [intros _; eexists; split; [reflexivity|split; reflexivity]
                                   |discriminate]]]).
Qed.

End Run2.

Section AppendsMore.
Context {message : Type}.

Lemma runs_appends {A} (m : M message A) W H X a :
  runs m W H X a -> appends m W H X.
Proof. intros Hm ss c o. destruct (Hm ss c o) as (Y & E). exists Y, a. exact E. Qed.

Lemma runs_ret {A} (a : A) W H : runs (message:=message) (ret a) W H [] a.
Proof. intros ss c o. exists []. cbn. rewrite !app_nil_r. reflexivity. Qed.

Lemma runs_bind {A B} (m : M message A) (k : A -> M message B) W H X Z a b :
  runs m W H X a -> runs (k a) W H Z b -> runs (bind m k) W H (X ++ Z) b.
Proof.
  intros Hm Hk ss c o. destruct (Hm ss c o) as (Y & E).
  destruct (Hk (ss ++ X) (c ++ Y) o) as (Y' & E').
  exists (Y ++ Y'). unfold bind. rewrite E, E', !app_assoc. reflexivity.
Qed.

Lemma runs_print (m : message) W H : runs (print m) W H [] tt.
Proof. intros ss c o. exists [m]. cbn. rewrite !app_nil_r. reflexivity. Qed.

Lemma runs_for_each {A V} (body : A -> V -> M message V) W H
    (X : A -> list slide) (g : V -> A -> V) (xs : list A) :
  (forall x v, runs (body x v) W H (X x) (g v x)) ->
  forall v, runs (for_each xs v body) W H (flat_map X xs) (fold_left g xs v).
Proof.
  intros Hb. induction xs as [|x r IH]; intros v; simpl.
  - apply runs_ret.
  - eapply runs_bind; [apply Hb|]. apply IH.
Qed.

Lemma runs_lift {A} (a : A) W H : runs (message:=message) (lift (Return a)) W H [] a.
Proof. intros ss c o. exists []. cbn. rewrite !app_nil_r. reflexivity. Qed.

Lemma appends_after {A B} (m : M message A) (k : A -> M message B) W H X Z a :
  runs m W H X a -> appends (k a) W H Z -> appends (bind m k) W H (X ++ Z).
Proof.
  intros Hm Hk ss c o. destruct (Hm ss c o) as (Y & E).
  destruct (Hk (ss ++ X) (c ++ Y) o) as (Y' & b & E').
  exists (Y ++ Y'), b. unfold bind. rewrite E, E', !app_assoc. reflexivity.
Qed.

Lemma appends_if {A} (b : bool) (m1 m2 : M message A) W H X :
  appends m1 W H X -> appends m2 W H X -> appends (if b then m1 else m2) W H X.
Proof. destruct b; auto. Qed.

Lemma appends_X {A} (m : M message A) W H X :
  (exists X', appends m W H X') -> X = deck_of (m (deck_state W H [] [] None)) ->
  appends m W H X.
Proof.
  intros (X' & Hm) E. rewrite (appends_deck m W H X' Hm) in E. subst. exact Hm.
Qed.

Lemma appends_nil_l {A} (m : M message A) W H X :
  appends m W H ([] ++ X) -> appends m W H X.
Proof. auto. Qed.

Lemma appends_try_except {A} (m : M message A) h W H X :
  appends m W H X -> appends (try_except m h) W H X.
Proof.
  intros Hm ss c o. destruct (Hm ss c o) as (Y & a & E). exists Y, a.
  unfold try_except, try_catch. rewrite E. reflexivity.
Qed.

End AppendsMore.

Lemma flat_map_filter {A B} (c : A -> bool) (f : A -> list B) (l : list A) :
  flat_map (fun x => if c x then f x else []) l = flat_map f (filter c l).
Proof.
  induction l as [|x r IH]; simpl; [reflexivity|].
  destruct (c x); simpl; rewrite IH; reflexivity.
Qed.

Lemma flat_map_map {A B C} (g : A -> B) (f : B -> list C) (l : list A) :
  flat_map f (map g l) = flat_map (fun x => f (g x)) l.
Proof. induction l; simpl; congruence. Qed.

Module Loop1.
Import ImagesOnly PyStr.

Lemma add_image_slide_deck1 wd path W H :
  appends (add_image_slide wd path) W H (Deck1.image_slides wd W H path).
Proof.
  destruct (Run1.add_image_slide_appends1 wd path W H) as (X & HX & _).
  apply appends_X; [exists X; exact HX|reflexivity].
Qed.

Lemma add_title_slide_deck1 wd title W H :
  appends (add_title_slide wd title) W H (Deck1.title_slides wd W H title).
Proof.
  destruct (Run1.add_title_slide_appends1 wd title W H) as (X & HX & _).
  apply appends_X; [exists X; exact HX|reflexivity].
Qed.

Lemma add_images_deck wd dir items W H :
  appends (add_images wd dir items) W H
    (flat_map (Deck1.image_slides wd W H) (Deck1.images_of wd dir items)).
Proof.
  unfold Deck1.images_of. rewrite flat_map_map, <- flat_map_filter.
  unfold add_images. apply appends_for_each. intros x v.
  destruct (w_isfile wd (join dir x) && is_image x)%bool.
  - rewrite <- (app_nil_r (Deck1.image_slides _ _ _ _)).
    apply appends_bind; [apply add_image_slide_deck1|]. intros a. apply appends_ret.
  - apply appends_ret.
Qed.

Lemma process_subdirectory_deck wd name n W H :
  appends (process_subdirectory wd name n) W H
    (if w_isdir wd (join IMAGE_DIR name) then Deck1.subdirectory wd W H name else []).
Proof.
  unfold process_subdirectory, Deck1.subdirectory.
  destruct (w_isdir wd (join IMAGE_DIR name)); [|apply appends_ret].
  apply appends_nil_l. apply appends_bind; [apply appends_print|]. intros _.
  apply appends_bind; [apply add_title_slide_deck1|]. intros _.
  destruct (w_listdir wd (join IMAGE_DIR name)) as [e|names] eqn:L.
  - intros ss c o. eexists. eexists.
    replace (ss ++ []) with ss by (symmetry; apply app_nil_r). run. finish.
  - apply appends_try_except. apply appends_nil_l.
    eapply appends_after; [apply runs_lift|].
    rewrite <- (app_nil_r (flat_map _ _)).
    apply appends_bind; [apply add_images_deck|]. intros k.
    apply appends_if; apply appends_nil_l;
      (apply appends_bind; [apply appends_print|]; intros _; apply appends_ret).
Qed.

End Loop1.

(** Use of an [appends] fact where the script has reached its subject. *)
Ltac step_appends lem :=
  match goal with
  | |- context [?m {| prs := {| slide_width := ?W; slide_height := ?H; slides := ?ss |};
                      console := ?c; output := ?o |}] =>
      let Y := fresh "Y" in
      let a := fresh "a" in
      let E := fresh "E" in
      destruct (lem W H ss c o) as (Y & a & E);
      unfold deck_state in E; rewrite E; clear E
  end.

(** Each of the listed messages is on the console. *)
Ltac on_console :=
  repeat (apply in_or_app; first [right; simpl; tauto | left]).
Ltac printed := repeat (apply Forall_cons; [on_console|]); apply Forall_nil.

(** The console ends with the listed lines. *)
Ltac last_lines :=
  match goal with
  | |- exists Y, (?X ++ [_]) ++ [_] = Y ++ [_; _] =>
      exists X; rewrite <- app_assoc; reflexivity
  | |- exists Y, ?X ++ [_] = Y ++ [_] => exists X; reflexivity
  end.

Module Main1.
Import ImagesOnly PyStr.

Lemma subdirectories_deck wd items n W H :
  appends (for_each items n (process_subdirectory wd)) W H
    (flat_map (Deck1.subdirectory wd W H)
              (filter (fun n => w_isdir wd (join IMAGE_DIR n)) items)).
Proof.
  rewrite <- flat_map_filter. apply appends_for_each.
  intros x v. apply Loop1.process_subdirectory_deck.
Qed.

(** The first script on an existing, listable images folder. *)
Lemma main_run1 wd names :
  w_isdir wd IMAGE_DIR = true ->
  w_listdir wd IMAGE_DIR = Return names ->
  let final := {| slide_width := w_template_width wd;
                  slide_height := w_template_height wd;
                  slides := Deck1.deck wd names |} in
  prs (fst (main wd)) = final /\
  output (fst (main wd)) =
    match w_save wd OUTPUT_FILENAME with
    | Return _ => Some final
    | Raise _ => None
    end /\
  snd (main wd) = Done tt /\
  Forall (fun m => In m (console (fst (main wd)))) (Deck1.save_log wd) /\
  exists Y, console (fst (main wd)) = Y ++ Deck1.save_log wd.
Proof.
  intros D L final. unfold main, create_presentation, start, Presentation, Deck1.save_log.
  rewrite D. cbn [negb]. run. rewrite L. run.
  step_appends (fun W H => Loop1.add_images_deck wd IMAGE_DIR (sorted names) W H).
  destruct (0 <? a); run;
    step_appends (fun W H => subdirectories_deck wd (sorted names) 0 W H);
    destruct (0 <? a0); run;
    destruct (w_save wd OUTPUT_FILENAME); run;
    (split; [reflexivity
            |split; [reflexivity|split; [reflexivity|split; [printed|last_lines]]]]).
Qed.

End Main1.

Lemma update_zero_cons {A} (f : A -> A) (x : A) (r : list A) :
  update 0 f (x :: r) = f x :: r.
Proof. reflexivity. Qed.

Lemma nth_error_zero_cons {A} (x : A) (r : list A) : nth_error (x :: r) 0 = Some x.
Proof. reflexivity. Qed.

Section RunsUnit.
Context {message : Type}.

Lemma appends_runs_unit (m : M message unit) W H X :
  appends m W H X -> runs m W H X tt.
Proof.
  intros Hm ss c o. destruct (Hm ss c o) as (Y & [] & E). exists Y. exact E.
Qed.

Lemma runs_if {A} (b : bool) (m1 m2 : M message A) W H X1 X2 a1 a2 :
  runs m1 W H X1 a1 -> runs m2 W H X2 a2 ->
  runs (if b then m1 else m2) W H (if b then X1 else X2) (if b then a1 else a2).
Proof. destruct b; auto. Qed.

Lemma runs_nil_l {A} (m : M message A) W H X a :
  runs m W H ([] ++ X) a -> runs m W H X a.
Proof. auto. Qed.

Lemma runs_nil_r {A} (m : M message A) W H X a :
  runs m W H (X ++ []) a -> runs m W H X a.
Proof. rewrite app_nil_r. auto. Qed.

End RunsUnit.

Lemma fold_left_count {A} (c : A -> bool) (l : list A) (n : Z) :
  fold_left (fun v x => if c x then v + 1 else v) l n =
  n + Z.of_nat (List.length (filter c l)).
Proof.
  revert n. induction l as [|x r IH]; intros n; simpl; [lia|].
  rewrite IH. destruct (c x); simpl List.length; lia.
Qed.

Module Loop2.
Import ImagesAndMusic PyStr.

Lemma add_image_slide_deck2 wd path W H :
  runs (add_image_slide wd path) W H (Deck2.image_slides wd W H path) tt.
Proof.
  apply appends_runs_unit.
  destruct (Run2.add_image_slide_appends2 wd path W H) as (X & HX & _).
  apply appends_X; [exists X; exact HX|reflexivity].
Qed.

Lemma add_title_slide_deck2 wd title W H :
  runs (add_title_slide wd title) W H (Deck2.title_slides wd W H title) tt.
Proof.
  apply appends_runs_unit.
  destruct (Run2.add_title_slide_appends2 wd title W H) as (X & HX & _).
  apply appends_X; [exists X; exact HX|reflexivity].
Qed.

Lemma add_subdir_images_deck wd dir items n W H :
  runs (add_subdir_images wd dir items n) W H
    (flat_map (Deck2.image_slides wd W H) (Deck2.images_of wd dir items))
    (n + Z.of_nat (List.length (Deck2.images_of wd dir items))).
Proof.
  unfold Deck2.images_of. rewrite flat_map_map, <- flat_map_filter, length_map.
  rewrite <- fold_left_count.
  unfold add_subdir_images. apply runs_for_each. intros x v.
  destruct (w_isfile wd (join dir x) && is_image x)%bool.
  - apply runs_nil_r. eapply runs_bind; [apply add_image_slide_deck2|apply runs_ret].
  - apply runs_ret.
Qed.

Lemma process_item_deck wd name n W H :
  runs (process_item wd name n) W H (Deck2.entry wd W H name)
       (n + Deck2.entry_count wd name).
Proof.
  unfold process_item, Deck2.entry, Deck2.entry_count, Deck2.subdirectory.
  destruct (w_isfile wd (join IMAGES_DIR name) && is_image name)%bool.
  { apply runs_nil_r. eapply runs_bind; [apply add_image_slide_deck2|apply runs_ret]. }
  destruct (w_isdir wd (join IMAGES_DIR name)).
  2:{ replace (n + 0) with n by lia.
      apply runs_nil_l. eapply runs_bind; [apply runs_print|apply runs_ret]. }
  apply runs_nil_l. eapply runs_bind; [apply runs_print|].
  eapply runs_bind; [apply add_title_slide_deck2|].
  destruct (w_listdir wd (join IMAGES_DIR name)) as [e|names] eqn:L.
  - intros ss c o. eexists.
    replace (ss ++ []) with ss by (symmetry; apply app_nil_r).
    replace (n + (1 + 0)) with (n + 1) by lia. run. finish.
  - rewrite Z.add_assoc. apply runs_nil_l.
    eapply runs_bind with (a := Some (sorted names)).
    { intros ss c o. eexists.
      replace (ss ++ []) with ss by (symmetry; apply app_nil_r). run. finish. }
    apply runs_nil_r. eapply runs_bind; [apply add_subdir_images_deck|].
    apply runs_nil_l. eapply runs_bind; [apply runs_print|apply runs_ret].
Qed.

Lemma process_items_deck wd names W H :
  runs (for_each (sorted names) 0 (process_item wd)) W H
       (flat_map (Deck2.entry wd W H) (sorted names)) (Deck2.processed wd names).
Proof.
  unfold Deck2.processed.
  apply (runs_for_each (process_item wd) W H (Deck2.entry wd W H)
           (fun n name => n + Deck2.entry_count wd name)).
  intros x v. apply process_item_deck.
Qed.

Lemma search_music_prints directory filenames :
  exists Y, forall st : state message,
    search_music directory filenames st =
    ({| prs := prs st; console := console st ++ Y; output := output st |},
     Done (option_map (join directory) (Deck2.first_music filenames))).
Proof.
  induction filenames as [|f r IH]; simpl.
  - exists [NoMusicFile]. intros st. reflexivity.
  - destruct (is_music f).
    + exists [FoundMusicFile f]. intros st. reflexivity.
    + exact IH.
Qed.

Lemma find_music_file_run wd :
  exists Y, forall st : state message,
    find_music_file wd MUSIC_DIR st =
    ({| prs := prs st; console := console st ++ Y; output := output st |},
     match Deck2.music_file wd with
     | Raise e => Fail e
     | Return r => Done r
     end).
Proof.
  unfold find_music_file, Deck2.music_file.
  destruct (w_isdir wd MUSIC_DIR); cbn [negb].
  - destruct (w_listdir wd MUSIC_DIR) as [e|names].
    + exists [SearchingMusic MUSIC_DIR]. intros st. reflexivity.
    + destruct (search_music_prints MUSIC_DIR names) as (Y & E).
      exists (SearchingMusic MUSIC_DIR :: Y). intros st.
      run. rewrite E. run. rewrite <- app_assoc. reflexivity.
  - exists [MusicDirectoryNotFound MUSIC_DIR]. intros st. reflexivity.
Qed.

Lemma add_background_music_run wd f W H ss c o :
  exists Y,
    add_background_music wd f
      {| prs := {| slide_width := W; slide_height := H; slides := ss |};
         console := c; output := o |} =
    ({| prs := {| slide_width := W; slide_height := H;
                  slides := Deck2.after_music wd f ss |};
        console := c ++ Y; output := o |}, Done tt).
Proof.
  unfold add_background_music, Deck2.after_music, Deck2.with_music.
  destruct ss as [|s r].
  - eexists. run.
    destruct (String.eqb f "" || negb (w_exists wd f))%bool;
      [|destruct (w_add_movie wd f)]; finish.
  - destruct (String.eqb f "" || negb (w_exists wd f))%bool.
    + eexists. run. finish.
    + destruct (w_add_movie wd f) as [e|[]] eqn:A.
      * eexists. run. rewrite A. run. finish.
      * eexists. run. rewrite A. run.
        rewrite update_zero_cons. run. finish.
Qed.

End Loop2.

Module Main2.
Import ImagesAndMusic PyStr.

(** The second script on an existing, listable images folder. *)
Lemma main_run2 wd names :
  w_isdir wd IMAGES_DIR = true ->
  w_listdir wd IMAGES_DIR = Return names ->
  let n := Deck2.processed wd names in
  match Deck2.music_file wd with
  | Raise e =>
      prs (fst (main wd)) = {| slide_width := Inches_16; slide_height := Inches_9;
                              slides := Deck2.deck wd names |} /\
      output (fst (main wd)) = None /\
      snd (main wd) = Fail e
  | Return mf =>
      let final := {| slide_width := Inches_16; slide_height := Inches_9;
                      slides := Deck2.with_found_music wd mf n (Deck2.deck wd names) |} in
      prs (fst (main wd)) = final /\
      output (fst (main wd)) = Deck2.saved wd n final /\
      snd (main wd) = Done tt /\
      Forall (fun m => In m (console (fst (main wd)))) (Deck2.save_log wd n)
  end.
Proof.
  intros D L n. unfold main, script, start, Presentation.
  run. rewrite D. cbn [negb]. run. rewrite L. run.
  destruct (Loop2.process_items_deck wd names Inches_16 Inches_9 []
              ([Rule; Starting; ShowImageDirectory IMAGES_DIR; ShowMusicDirectory MUSIC_DIR;
                ShowOutputFile OUTPUT_FILENAME; ShowTransitionTime SLIDE_TRANSITION_SECONDS;
                Rule; PresentationCreated Inches_16 Inches_9;
                FoundItems (Z.of_nat (List.length (sorted names))) IMAGES_DIR]) None)
    as (Y & E).
  unfold deck_state in E. cbn [app] in E |- *. rewrite E. clear E. run.
  destruct (Loop2.find_music_file_run wd) as (Ym & Em). rewrite Em. clear Em. run.
  fold n. unfold Deck2.deck, Deck2.saved, Deck2.with_found_music, Deck2.save_log.
  destruct (Deck2.music_file wd) as [e|[f|]].
  - repeat split; reflexivity.
  - destruct (String.eqb f "").
    + run. destruct (0 <? n); run;
        [destruct (w_save wd OUTPUT_FILENAME); run|];
        (split; [reflexivity|split; [reflexivity|split; [reflexivity|printed]]]).
    + destruct (0 <? n).
      * match goal with
        | |- context [add_background_music wd f
                        {| prs := {| slide_width := ?W; slide_height := ?H; slides := ?ss |};
                           console := ?c; output := ?o |}] =>
            destruct (Loop2.add_background_music_run wd f W H ss c o) as (Yb & Eb);
            rewrite Eb; clear Eb
        end.
        run. destruct (w_save wd OUTPUT_FILENAME); run;
          (split; [reflexivity|split; [reflexivity|split; [reflexivity|printed]]]).
      * run. (split; [reflexivity|split; [reflexivity|split; [reflexivity|printed]]]).
  - run. destruct (0 <? n); run;
      [destruct (w_save wd OUTPUT_FILENAME); run|];
      (split; [reflexivity|split; [reflexivity|split; [reflexivity|printed]]]).
Qed.

End Main2.

Import Pptx.

(** * What the decks hold *)


Lemma text_only_no_movie s : Deck.text_only s -> Deck.movies s = [].
Proof. intros T. apply (textual_no_media _ T). Qed.

Lemma images_of_entry {wd} (is_image : string -> bool) dir items path :
  In path (map (PyStr.join dir)
               (filter (fun n => w_isfile wd (PyStr.join dir n) && is_image n) items)) ->
  Deck.from_entry wd is_image path.
Proof.
  intros I. apply in_map_iff in I. destruct I as (n & <- & I).
  apply filter_In in I. destruct I as [_ I]. apply andb_prop in I.
  exists dir, n. tauto.
Qed.

Module Holds1.
Import ImagesOnly.






End Holds1.

Module Holds2.
Import ImagesAndMusic.

Lemma image_slides_show2 wd W H path :
  Forall (Deck.shows_only path) (Deck2.image_slides wd W H path).
Proof.
  destruct (Run2.add_image_slide_appends2 wd path W H) as (X & HX & F & _).
  unfold Deck2.image_slides. rewrite (appends_deck _ _ _ _ HX). exact F.
Qed.

Lemma title_slides_text2 wd W H title :
  Forall Deck.text_only (Deck2.title_slides wd W H title).
Proof.
  destruct (Run2.add_title_slide_appends2 wd title W H) as (X & HX & (F & _) & _).
  unfold Deck2.title_slides. rewrite (appends_deck _ _ _ _ HX). exact F.
Qed.

Lemma images_slides2 wd W H dir items s :
  In s (flat_map (Deck2.image_slides wd W H) (Deck2.images_of wd dir items)) ->
  exists path, Deck.from_entry wd is_image path /\ Deck.shows_only path s.
Proof.
  intros I. apply in_flat_map in I. destruct I as (path & Ip & Is).
  exists path. split; [exact (images_of_entry is_image dir items path Ip)|].
  pose proof (image_slides_show2 wd W H path) as F.
  rewrite Forall_forall in F. auto.
Qed.

Lemma subdirectory_slides2 wd W H name s :
  In s (Deck2.subdirectory wd W H name) ->
  Deck.text_only s \/
  exists path, Deck.from_entry wd is_image path /\ Deck.shows_only path s.
Proof.
  unfold Deck2.subdirectory. intros I. apply in_app_or in I. destruct I as [I|I].
  - left. pose proof (title_slides_text2 wd W H name) as F.
    rewrite Forall_forall in F. auto.
  - right. destruct (w_listdir wd (PyStr.join IMAGES_DIR name)) as [e|names];
      [destruct I|]. eapply images_slides2. exact I.
Qed.

Lemma entry_slides wd W H name s :
  In s (Deck2.entry wd W H name) ->
  Deck.text_only s \/
  exists path, Deck.from_entry wd is_image path /\ Deck.shows_only path s.
Proof.
  unfold Deck2.entry. intros I.
  destruct (w_isfile wd (PyStr.join IMAGES_DIR name) && is_image name)%bool eqn:E.
  - right. exists (PyStr.join IMAGES_DIR name). split.
    + apply andb_prop in E. exists IMAGES_DIR, name. tauto.
    + pose proof (image_slides_show2 wd W H (PyStr.join IMAGES_DIR name)) as F.
      rewrite Forall_forall in F. auto.
  - destruct (w_isdir wd (PyStr.join IMAGES_DIR name)); [|destruct I].
    eapply subdirectory_slides2. exact I.
Qed.

Lemma deck_slides2 wd names s :
  In s (Deck2.deck wd names) ->
  Deck.text_only s \/
  exists path, Deck.from_entry wd is_image path /\ Deck.shows_only path s.
Proof.
  unfold Deck2.deck. intros I. apply in_flat_map in I.
  destruct I as (name & _ & I). eapply entry_slides. exact I.
Qed.

Lemma deck_no_movies wd names : Forall (fun s => Deck.movies s = []) (Deck2.deck wd names).
Proof.
  apply Forall_forall. intros s I.
  destruct (deck_slides2 wd names s I) as [T|(path & _ & _ & M)];
    [apply text_only_no_movie; exact T|exact M].
Qed.

(** ** The music step touches the first slide only, and only adds a movie *)


Lemma with_music_labels path ss :
  map Deck.label_of (Deck2.with_music path ss) = map Deck.label_of ss.
Proof.
  destruct ss as [|s r]; [reflexivity|]. simpl. f_equal.
  unfold Deck.label_of, Deck.pictures, Deck.texts. cbn [with_shapes s_shapes].
  rewrite !flat_map_app. cbn [flat_map]. rewrite !app_nil_r. reflexivity.
Qed.

Lemma with_music_transitions path ss :
  map s_transition (Deck2.with_music path ss) = map s_transition ss.
Proof. destruct ss as [|s r]; reflexivity. Qed.

Lemma with_found_music_cases wd mf n ss :
  Deck2.with_found_music wd mf n ss = ss \/
  exists f, mf = Some f /\ Deck2.with_found_music wd mf n ss = Deck2.with_music f ss.
Proof.
  unfold Deck2.with_found_music, Deck2.after_music.
  destruct mf as [f|]; [|left; reflexivity].
  destruct (String.eqb f ""); [left; reflexivity|].
  destruct (0 <? n); [|left; reflexivity]. cbn [orb].
  destruct (negb (w_exists wd f)); [left; reflexivity|].
  destruct (w_add_movie wd f); [left; reflexivity|].
  right. exists f. split; reflexivity.
Qed.


Lemma with_found_music_labels wd mf n ss :
  map Deck.label_of (Deck2.with_found_music wd mf n ss) = map Deck.label_of ss.
Proof.
  destruct (with_found_music_cases wd mf n ss) as [->|(f & _ & ->)];
    [reflexivity|apply with_music_labels].
Qed.

End Holds2.

(** ** Where music ends up *)

Lemma flat_map_nil {A B} (f : A -> list B) (l : list A) :
  Forall (fun x => f x = []) l -> flat_map f l = [].
Proof. induction 1 as [|x r E _ IH]; simpl; [reflexivity|]. rewrite E, IH. reflexivity. Qed.

Lemma with_music_movies path s r :
  Forall (fun x => Deck.movies x = []) (s :: r) ->
  flat_map Deck.movies (Deck2.with_music path (s :: r)) = [path] /\
  Forall (fun x => Deck.movies x = []) (tl (Deck2.with_music path (s :: r))).
Proof.
  intros F. inversion F as [|? ? E Fr]; subst. split; [|exact Fr].
  cbn [Deck2.with_music flat_map]. rewrite (flat_map_nil _ _ Fr), app_nil_r.
  unfold Deck.movies in *. cbn [with_shapes s_shapes].
  rewrite flat_map_app, E. reflexivity.
Qed.

Lemma find_first {A} (f : A -> bool) (l : list A) (x : A) :
  find f l = Some x ->
  exists pre post, l = pre ++ x :: post /\ f x = true /\
                   Forall (fun y => f y = false) pre.
Proof.
  induction l as [|y r IH]; simpl; [discriminate|].
  destruct (f y) eqn:E.
  - intros [= <-]. exists [], r. auto.
  - intros Fd. destruct (IH Fd) as (pre & post & -> & Fx & Fp).
    exists (y :: pre), post. auto.
Qed.

(** ** A folder with nothing to show *)

Lemma filter_none {A} (f : A -> bool) (l : list A) :
  (forall x, In x l -> f x = false) -> filter f l = [].
Proof.
  induction l as [|x r IH]; simpl; intros Hf; [reflexivity|].
  rewrite (Hf x (or_introl eq_refl)). apply IH. auto.
Qed.

Lemma fold_left_zero {A} (g : A -> Z) (l : list A) :
  (forall x, In x l -> g x = 0) -> fold_left (fun n x => n + g x) l 0 = 0.
Proof.
  induction l as [|x r IH]; simpl; intros Hg; [reflexivity|].
  rewrite (Hg x (or_introl eq_refl)). apply IH. auto.
Qed.

Lemma barren_deck1 wd names :
  (forall n, In n names ->
     w_isdir wd (PyStr.join ImagesOnly.IMAGE_DIR n) = false /\
     (w_isfile wd (PyStr.join ImagesOnly.IMAGE_DIR n) && ImagesOnly.is_image n)%bool
       = false) ->
  Deck1.deck wd names = [].
Proof.
  intros B. unfold Deck1.deck, Deck1.images_of.
  rewrite !filter_none; [reflexivity| |];
    intros n I; apply (proj1 (PyStrFacts.sorted_In _ _)) in I; apply (B n I).
Qed.

Lemma barren_deck2 wd names :
  (forall n, In n names ->
     w_isdir wd (PyStr.join ImagesAndMusic.IMAGES_DIR n) = false /\
     (w_isfile wd (PyStr.join ImagesAndMusic.IMAGES_DIR n)
      && ImagesAndMusic.is_image n)%bool = false) ->
  Deck2.deck wd names = [] /\ Deck2.processed wd names = 0.
Proof.
  intros B. split.
  - unfold Deck2.deck. apply flat_map_nil, Forall_forall. intros n I.
    apply (proj1 (PyStrFacts.sorted_In _ _)) in I. destruct (B n I) as [D F].
    unfold Deck2.entry. rewrite D, F. reflexivity.
  - unfold Deck2.processed. apply fold_left_zero. intros n I.
    apply (proj1 (PyStrFacts.sorted_In _ _)) in I. destruct (B n I) as [D F].
    unfold Deck2.entry_count. rewrite D, F. reflexivity.
Qed.

Import Pptx.

(** * The first script's [add_image_slide], case by case *)

Module Exact1.
Import ImagesOnly.

Lemma add_image_slide_placed1 wd path lay W H w h left_ top width height
    l t wdt ht ss c o :
  nth_error (w_layouts wd) 6 = Some lay ->
  w_open_image wd path = Return (w, h) ->
  fit_to_canvas W H w h = Return (left_, top, width, height) ->
  PyNum.int left_ = Return l -> PyNum.int top = Return t ->
  PyNum.int width = Return wdt -> PyNum.int height = Return ht ->
  add_image_slide wd path (deck_state W H ss c o) =
  (deck_state W H
     (ss ++ [Deck.picture_slide lay
               (Deck.placed path (w, h) l t (Some wdt) (Some ht)) no_transition])
     (c ++ [AddedImage (PyStr.basename path)]) o,
   Done true).
Proof.
  intros L O F I1 I2 I3 I4.
  unfold deck_state, add_image_slide, create_picture, fit_picture.
  drive ltac:(first [rewrite L|rewrite O|rewrite F|rewrite I1|rewrite I2|rewrite I3
                    |rewrite I4]).
  reflexivity.
Qed.

Lemma add_image_slide_failed wd path lay W H e ss c o :
  nth_error (w_layouts wd) 6 = Some lay ->
  snd (add_image_slide_try wd path (deck_state W H ss c o)) = Fail e ->
  add_image_slide wd path (deck_state W H ss c o) =
  (deck_state W H (ss ++ [new_slide 6 lay])
     (c ++ [ErrorAddingImage (PyStr.basename path) e]) o,
   Done false).
Proof.
  intros L.
  unfold deck_state, add_image_slide, add_image_slide_try, create_picture,
    fit_picture, add_image_slide_except.
  destruct (w_open_image wd path) as [e0|[w h]] eqn:O.
  { drive ltac:(first [rewrite L|rewrite O]). intros [= <-]. reflexivity. }
  destruct (fit_to_canvas W H w h) as [e0|[[[left_ top] width] height]] eqn:F.
  { drive ltac:(first [rewrite L|rewrite O|rewrite F]). intros [= <-]. reflexivity. }
  destruct (PyNum.int left_) as [e0|l] eqn:I1.
  { drive ltac:(first [rewrite L|rewrite O|rewrite F|rewrite I1]).
    intros [= <-]. reflexivity. }
  destruct (PyNum.int top) as [e0|t] eqn:I2.
  { drive ltac:(first [rewrite L|rewrite O|rewrite F|rewrite I1|rewrite I2]).
    intros [= <-]. reflexivity. }
  destruct (PyNum.int width) as [e0|wdt] eqn:I3.
  { drive ltac:(first [rewrite L|rewrite O|rewrite F|rewrite I1|rewrite I2|rewrite I3]).
    intros [= <-]. reflexivity. }
  destruct (PyNum.int height) as [e0|ht] eqn:I4.
  { drive ltac:(first [rewrite L|rewrite O|rewrite F|rewrite I1|rewrite I2|rewrite I3
                      |rewrite I4]).
    intros [= <-]. reflexivity. }
  drive ltac:(first [rewrite L|rewrite O|rewrite F|rewrite I1|rewrite I2|rewrite I3
                    |rewrite I4]).
  discriminate.
Qed.

End Exact1.

(** * The second script's [add_image_slide], case by case *)

Module Exact2.
Import ImagesAndMusic.

Lemma add_image_slide_placed2 wd path lay W H w h nw nh l t ss c o :
  nth_error (w_layouts wd) 6 = Some lay ->
  w_open_image wd path = Return (w, h) ->
  ((w =? 0) || (h =? 0))%bool = false ->
  new_size W H w h = Return (nw, nh) ->
  centered W nw = Return l -> centered H nh = Return t ->
  add_image_slide wd path (deck_state W H ss c o) =
  (deck_state W H
     (ss ++ [Deck.picture_slide lay
               (Deck.placed path (w, h) l t (Some nw) (Some nh))
               (Deck2.auto_advance wd SLIDE_TRANSITION_SECONDS no_transition)])
     (c ++ [ProcessingImage path; SlideAddedFor (PyStr.basename path);
            AttemptingPicture (PyStr.basename path); PictureAdded;
            ResizedPicture nw nh; PositionedPicture;
            SettingTransition SLIDE_TRANSITION_SECONDS]
        ++ Deck2.auto_advance_log wd
        ++ [ProcessedImageSlide (PyStr.basename path)]) o,
   Done tt).
Proof.
  intros L O Z0 N C1 C2.
  unfold deck_state, add_image_slide, add_image_slide_try.
  drive ltac:(first [rewrite L|rewrite O|rewrite Z0|rewrite N|rewrite C1|rewrite C2
                    |rewrite Run2.set_automatic_transition_last]).
  repeat rewrite <- app_assoc. reflexivity.
Qed.

Lemma add_image_slide_zero wd path lay W H w h ss c o :
  nth_error (w_layouts wd) 6 = Some lay ->
  w_open_image wd path = Return (w, h) ->
  ((w =? 0) || (h =? 0))%bool = true ->
  add_image_slide wd path (deck_state W H ss c o) =
  (deck_state W H
     (ss ++ [Deck.picture_slide lay
               (Deck.placed path (w, h) 0 0 (Some 914400) None)
               (Deck2.auto_advance wd SLIDE_TRANSITION_SECONDS no_transition)])
     (c ++ [ProcessingImage path; SlideAddedFor (PyStr.basename path);
            AttemptingPicture (PyStr.basename path); PictureAdded;
            ErrorZeroSize (PyStr.basename path)]
        ++ Deck2.auto_advance_log wd) o,
   Done tt).
Proof.
  intros L O Z0.
  unfold deck_state, add_image_slide, add_image_slide_try.
  drive ltac:(first [rewrite L|rewrite O|rewrite Z0
                    |rewrite Run2.set_automatic_transition_last]).
  repeat rewrite <- app_assoc. reflexivity.
Qed.

Lemma add_image_slide_unreadable wd path lay W H e ss c o :
  nth_error (w_layouts wd) 6 = Some lay ->
  w_open_image wd path = Raise e ->
  add_image_slide wd path (deck_state W H ss c o) =
  (deck_state W H (ss ++ [new_slide 6 lay])
     (c ++ [ProcessingImage path; SlideAddedFor (PyStr.basename path);
            AttemptingPicture (PyStr.basename path);
            if is_FileNotFoundError e then ErrorImageNotFound path
            else ErrorProcessingImage path e]) o,
   Done tt).
Proof.
  intros L O.
  unfold deck_state, add_image_slide, add_image_slide_try.
  destruct (is_FileNotFoundError e) eqn:FE;
    drive ltac:(first [rewrite L|rewrite O|rewrite FE]);
    repeat rewrite <- app_assoc; reflexivity.
Qed.

(** The [try] block completes exactly when the blank layout exists, the
    picture opens and, unless its size is zero, the new size and both
    offsets are computed without an exception. *)
Lemma add_image_slide_try_done wd path W H ss c o :
  snd (add_image_slide_try wd path (deck_state W H ss c o)) = Done tt <->
  exists lay w h,
    nth_error (w_layouts wd) 6 = Some lay /\
    w_open_image wd path = Return (w, h) /\
    (((w =? 0) || (h =? 0))%bool = true \/
     (((w =? 0) || (h =? 0))%bool = false /\
      exists nw nh l t,
        new_size W H w h = Return (nw, nh) /\
        centered W nw = Return l /\ centered H nh = Return t)).
Proof.
  unfold deck_state, add_image_slide_try.
  destruct (nth_error (w_layouts wd) 6) as [lay|] eqn:L.
  2:{ split; [|intros (? & ? & ? & [=] & _)].
      drive ltac:(rewrite L). discriminate. }
  destruct (w_open_image wd path) as [e|[w h]] eqn:O.
  { split; [|intros (? & ? & ? & _ & [=] & _)].
    drive ltac:(first [rewrite L|rewrite O]). discriminate. }
  destruct ((w =? 0) || (h =? 0))%bool eqn:Z0.
  { split; [intros _; exists lay, w, h; auto|intros _].
    drive ltac:(first [rewrite L|rewrite O|rewrite Z0
                      |rewrite Run2.set_automatic_transition_last]).
    reflexivity. }
  destruct (new_size W H w h) as [e|[nw nh]] eqn:N.
  { split.
    - drive ltac:(first [rewrite L|rewrite O|rewrite Z0|rewrite N]). discriminate.
    - intros (? & ? & ? & _ & [= <- <-] & [B|(_ & ? & ? & ? & ? & N' & _)]);
        [rewrite Z0 in B; discriminate|rewrite N in N'; discriminate]. }
  destruct (centered W nw) as [e|l] eqn:C1.
  { split.
    - drive ltac:(first [rewrite L|rewrite O|rewrite Z0|rewrite N|rewrite C1]).
      discriminate.
    - intros (? & ? & ? & _ & [= <- <-] & [B|(_ & ? & ? & ? & ? & N' & C1' & _)]);
        [rewrite Z0 in B; discriminate|].
      rewrite N in N'. injection N' as <- <-. rewrite C1 in C1'. discriminate. }
  destruct (centered H nh) as [e|t] eqn:C2.
  { split.
    - drive ltac:(first [rewrite L|rewrite O|rewrite Z0|rewrite N|rewrite C1|rewrite C2]).
      discriminate.
    - intros (? & ? & ? & _ & [= <- <-] & [B|(_ & ? & ? & ? & ? & N' & _ & C2')]);
        [rewrite Z0 in B; discriminate|].
      rewrite N in N'. injection N' as <- <-. rewrite C2 in C2'. discriminate. }
  split.
  - intros _. exists lay, w, h. split; [reflexivity|]. split; [reflexivity|].
    right. split; [exact Z0|]. exists nw, nh, l, t. auto.
  - intros _.
    drive ltac:(first [rewrite L|rewrite O|rewrite Z0|rewrite N|rewrite C1|rewrite C2
                      |rewrite Run2.set_automatic_transition_last]).
    reflexivity.
Qed.

End Exact2.

(** * Claims *)

(** C1, as stated, fails on a canvas of 18014398509481986 x 3 for an image of
    18014398509481985 x 3: the canvas is the wider of the two, so the claim
    asks for the canvas height 3, but both quotients round to the same float
    and both scripts give the picture the canvas width and height 2. *)
Lemma fit_to_canvas_beyond_range :
  18014398509481985 * 3 < 18014398509481986 * 3 /\
  (exists left_ top width height,
     ImagesOnly.fit_to_canvas 18014398509481986 3 18014398509481985 3 =
       Return (left_, top, width, height) /\
     PyNum.int width = Return 18014398509481986 /\
     PyNum.int height = Return 2) /\
  ImagesAndMusic.new_size 18014398509481986 3 18014398509481985 3 =
    Return (18014398509481986, 2) /\
  2 <> 3.
Proof.
  split; [lia|]. split; [|split; [vm_compute; reflexivity|lia]].
  eexists _, _, _, _. split; [vm_compute; reflexivity|].
  split; vm_compute; reflexivity.
Qed.

(** C1, amended: when the image opens with a size [w] x [h] such that
    [W * h] and [w * H] stay below 2^50, [add_image_slide] of either script
    completes and leaves one slide whose picture is placed so that it fits:
    the limiting dimension is the canvas's, the other is the proportional
    one rounded down or one unit less, and the picture lies within the
    canvas. *)
Theorem fit_to_canvas_in_range wd path lay W H w h :
  nth_error (w_layouts wd) 6 = Some lay ->
  w_open_image wd path = Return (w, h) ->
  in_range W H w h ->
  (exists l t wdt ht,
     fits W H w h l t wdt ht /\
     forall ss c o,
       ImagesOnly.add_image_slide wd path (deck_state W H ss c o) =
       (deck_state W H
          (ss ++ [Deck.picture_slide lay
                    (Deck.placed path (w, h) l t (Some wdt) (Some ht))
                    no_transition])
          (c ++ [ImagesOnly.AddedImage (PyStr.basename path)]) o,
        Done true)) /\
  (exists l t wdt ht,
     fits W H w h l t wdt ht /\
     forall ss c o,
       ImagesAndMusic.add_image_slide wd path (deck_state W H ss c o) =
       (deck_state W H
          (ss ++ [Deck.picture_slide lay
                    (Deck.placed path (w, h) l t (Some wdt) (Some ht))
                    (Deck2.auto_advance wd ImagesAndMusic.SLIDE_TRANSITION_SECONDS
                       no_transition)])
          (c ++ [ImagesAndMusic.ProcessingImage path;
                 ImagesAndMusic.SlideAddedFor (PyStr.basename path);
                 ImagesAndMusic.AttemptingPicture (PyStr.basename path);
                 ImagesAndMusic.PictureAdded;
                 ImagesAndMusic.ResizedPicture wdt ht;
                 ImagesAndMusic.PositionedPicture;
                 ImagesAndMusic.SettingTransition
                   ImagesAndMusic.SLIDE_TRANSITION_SECONDS]
             ++ Deck2.auto_advance_log wd
             ++ [ImagesAndMusic.ProcessedImageSlide (PyStr.basename path)]) o,
        Done tt)).
Proof.
  intros L O R. split.
  - destruct (fit_to_canvas_spec W H w h R)
      as (left_ & top & width & height & l & t & wdt & ht & F & I1 & I2 & I3 & I4 & Fit).
    exists l, t, wdt, ht. split; [exact Fit|]. intros ss c o.
    eapply Exact1.add_image_slide_placed1; eauto.
  - destruct (new_size_spec W H w h R) as (nw & nh & N & (Bw & Bh) & HL & WL).
    pose proof R as (ZW & ZH & Zw & Zh & ZB1 & ZB2).
    assert (W50 : W <= 2 ^ 50) by nia.
    assert (H50 : H <= 2 ^ 50) by nia.
    destruct (centered_spec W nw Bw W50) as (l & C1 & Pl & Ul).
    destruct (centered_spec H nh Bh H50) as (t & C2 & Pt & Ut).
    exists l, t, nw, nh. split.
    + unfold fits. split; [exact HL|]. split; [exact WL|]. lia.
    + intros ss c o.
      apply Exact2.add_image_slide_placed2; auto.
      apply orb_false_intro; apply Z.eqb_neq; lia.
Qed.

Lemma fit_to_canvas_in_range_example :
  exists l t wdt ht,
    fits 14630400 8229600 640 480 l t wdt ht /\
    deck_of (ImagesAndMusic.add_image_slide
               (Examples.world [] [("images/a.png"%string, Return (640, 480))])
               "images/a.png" (deck_state 14630400 8229600 [] [] None)) =
    [Deck.picture_slide []
       (Deck.placed "images/a.png" (640, 480) l t (Some wdt) (Some ht))
       {| advance_on_click := Some false; advance_on_time := Some true;
          advance_time := Some 1000 |}].
Proof.
  destruct (fit_to_canvas_in_range
              (Examples.world [] [("images/a.png"%string, Return (640, 480))])
              "images/a.png" [] 14630400 8229600 640 480)
    as (_ & l & t & wdt & ht & Fit & Run).
  - reflexivity.
  - reflexivity.
  - unfold in_range. lia.
  - exists l, t, wdt, ht. split; [exact Fit|]. rewrite Run. reflexivity.
Defined.




(** C5, as stated, fails.  [set_automatic_transition] is guarded: with a
    library whose slides offer no [slide_show_transition] it only prints a
    warning, and the slide of a well-formed image ends up without timing.
    Besides, for an image file the library cannot read, the slide has been
    added when [add_picture] raises and the handler returns without
    setting a transition. *)
Lemma slides_left_untimed :
  (exists s,
     deck_of (ImagesAndMusic.main
                (Examples.without_transition
                   (Examples.world [("images"%string, ["a.png"%string])]
                      [("images/a.png"%string, Return (640, 480))]))) = [s] /\
     Deck.pictures s =
       [Deck.placed "images/a.png" (640, 480) 1828800 0 (Some 10972800)
                    (Some 8229600)] /\
     ~ Deck.timed (ImagesAndMusic.SLIDE_TRANSITION_SECONDS * 1000) s) /\
  (exists s,
     deck_of (ImagesAndMusic.main
                (Examples.world [("images"%string, ["a.png"%string])]
                   [("images/a.png"%string, Raise LibraryError)])) = [s] /\
     ~ Deck.timed (ImagesAndMusic.SLIDE_TRANSITION_SECONDS * 1000) s).
Proof.
  split.
  - eexists. split; [vm_compute; reflexivity|]. split; [reflexivity|].
    unfold Deck.timed. cbn. discriminate.
  - exists (new_slide 6 []). split; [vm_compute; reflexivity|].
    unfold Deck.timed. cbn. discriminate.
Qed.

(** C5, amended: where the library offers [slide_show_transition], every
    image slide whose picture was added and sized without an exception -
    that is, whenever the [try] block of [add_image_slide] completes, which
    it does for every image of zero width or height and for every image
    whose size is in range - and every title slide ends up advancing after
    [SLIDE_TRANSITION_SECONDS] seconds, with advance on click disabled. *)
Theorem slides_timed wd :
  w_has_transition wd = true ->
  (forall path W H ss c o,
     snd (ImagesAndMusic.add_image_slide_try wd path (deck_state W H ss c o)) =
       Done tt ->
     exists s Y,
       ImagesAndMusic.add_image_slide wd path (deck_state W H ss c o) =
         (deck_state W H (ss ++ [s]) (c ++ Y) o, Done tt) /\
       Deck.timed (ImagesAndMusic.SLIDE_TRANSITION_SECONDS * 1000) s) /\
  (forall path lay W H w h ss c o,
     nth_error (w_layouts wd) 6 = Some lay ->
     w_open_image wd path = Return (w, h) ->
     w = 0 \/ h = 0 \/ in_range W H w h ->
     snd (ImagesAndMusic.add_image_slide_try wd path (deck_state W H ss c o)) =
       Done tt) /\
  (forall title W H,
     nth_error (w_layouts wd) 5 <> None ->
     exists s,
       appends (ImagesAndMusic.add_title_slide wd title) W H [s] /\
       Deck.timed (ImagesAndMusic.SLIDE_TRANSITION_SECONDS * 1000) s).
Proof.
  intros T. split; [|split].
  - intros path W H ss c o Try.
    apply Exact2.add_image_slide_try_done in Try.
    destruct Try as (lay & w & h & L & O & [Z0|(Z0 & nw & nh & l & t & N & C1 & C2)]).
    + eexists. eexists. split.
      * apply Exact2.add_image_slide_zero; eauto.
      * unfold Deck.timed, Deck.picture_slide, Deck2.auto_advance. rewrite T.
        reflexivity.
    + eexists. eexists. split.
      * apply Exact2.add_image_slide_placed2; eauto.
      * unfold Deck.timed, Deck.picture_slide, Deck2.auto_advance. rewrite T.
        reflexivity.
  - intros path lay W H w h ss c o L O Size.
    apply Exact2.add_image_slide_try_done. exists lay, w, h.
    split; [exact L|]. split; [exact O|].
    assert (Z0 : (w = 0 \/ h = 0) \/ in_range W H w h) by tauto.
    destruct Z0 as [Z0|R].
    + left. destruct Z0 as [-> | ->]; [reflexivity|apply orb_true_r].
    + right. destruct (new_size_spec W H w h R) as (nw & nh & N & (Bw & Bh) & _).
      pose proof R as (ZW & ZH & Zw & Zh & ZB1 & ZB2).
      assert (W50 : W <= 2 ^ 50) by nia.
      assert (H50 : H <= 2 ^ 50) by nia.
      destruct (centered_spec W nw Bw W50) as (l & C1 & _).
      destruct (centered_spec H nh Bh H50) as (t & C2 & _).
      split; [apply orb_false_intro; apply Z.eqb_neq; lia|].
      exists nw, nh, l, t. auto.
  - intros title W H L.
    destruct (Run2.add_title_slide_appends2 wd title W H) as (X & HX & (_ & _ & HT & _) & _).
    destruct (HT L) as (s & -> & E & _). exists s. split; [exact HX|].
    unfold Deck.timed. rewrite E. unfold Deck2.auto_advance. rewrite T.
    reflexivity.
Qed.

(** An image of 1 x 100000000 pixels lies outside the range in which the
    placement is shown to fit, and is sized and timed all the same. *)
Lemma slides_timed_example :
  exists s Y,
    ImagesAndMusic.add_image_slide
      (Examples.world [] [("images/a.png"%string, Return (1, 100000000))])
      "images/a.png" (deck_state 14630400 8229600 [] [] None) =
    (deck_state 14630400 8229600 ([] ++ [s]) ([] ++ Y) None, Done tt) /\
    Deck.timed (ImagesAndMusic.SLIDE_TRANSITION_SECONDS * 1000) s.
Proof.
  destruct (slides_timed
              (Examples.world [] [("images/a.png"%string, Return (1, 100000000))])
              eq_refl) as (Timed & _).
  apply (Timed "images/a.png"%string 14630400 8229600 [] [] None).
  vm_compute. reflexivity.
Defined.




(** C9: in the first script, when the [try] block of [add_image_slide] fails
    with an exception after the slide was created, the function prints the
    error, leaves the new slide in the deck without any picture and returns
    [False]; the loop that called it does not count the image. *)
Theorem failed_image_leaves_empty_slide wd dir name lay W H e ss c o :
  nth_error (w_layouts wd) 6 = Some lay ->
  snd (ImagesOnly.add_image_slide_try wd (PyStr.join dir name)
         (deck_state W H ss c o)) = Fail e ->
  (w_isfile wd (PyStr.join dir name) && ImagesOnly.is_image name)%bool = true ->
  ImagesOnly.add_image_slide wd (PyStr.join dir name) (deck_state W H ss c o) =
    (deck_state W H (ss ++ [new_slide 6 lay])
       (c ++ [ImagesOnly.ErrorAddingImage
                (PyStr.basename (PyStr.join dir name)) e]) o,
     Done false) /\
  Deck.pictures (new_slide 6 lay) = [] /\
  ImagesOnly.add_images wd dir [name] (deck_state W H ss c o) =
    (deck_state W H (ss ++ [new_slide 6 lay])
       (c ++ [ImagesOnly.ErrorAddingImage
                (PyStr.basename (PyStr.join dir name)) e]) o,
     Done 0).
Proof.
  intros L F I.
  pose proof (Exact1.add_image_slide_failed wd _ lay W H e ss c o L F) as E.
  split; [exact E|]. split.
  - unfold Deck.pictures, new_slide. cbn [s_shapes].
    apply (textual_no_media _ (textual_placeholders lay)).
  - unfold ImagesOnly.add_images. cbn [for_each]. rewrite I.
    unfold bind at 1. unfold bind at 1. rewrite E. reflexivity.
Qed.

Lemma failed_image_leaves_empty_slide_example :
  ImagesOnly.add_images
    (Examples.world [] [("images/a.png"%string, Raise LibraryError)])
    "images" ["a.png"%string] (deck_state 9144000 6858000 [] [] None) =
  (deck_state 9144000 6858000 [new_slide 6 []]
     [ImagesOnly.ErrorAddingImage "a.png" LibraryError] None,
   Done 0).
Proof.
  apply (failed_image_leaves_empty_slide
           (Examples.world [] [("images/a.png"%string, Raise LibraryError)])
           "images"%string "a.png"%string [] 9144000 6858000 LibraryError [] [] None);
    reflexivity.
Defined.

(** C7: when the images directory does not exist, neither script writes a
    file and each reports the condition; the second script then exits with
    status 1, and does the same when the directory cannot be listed. *)
Theorem missing_root wd :
  (w_isdir wd ImagesOnly.IMAGE_DIR = false ->
   output (fst (ImagesOnly.main wd)) = None /\
   console (fst (ImagesOnly.main wd)) =
     [ImagesOnly.DirectoryNotFound ImagesOnly.IMAGE_DIR;
      ImagesOnly.PleaseCreateDirectory]) /\
  (w_isdir wd ImagesAndMusic.IMAGES_DIR = false ->
   output (fst (ImagesAndMusic.main wd)) = None /\
   last (console (fst (ImagesAndMusic.main wd))) ImagesAndMusic.Rule =
     ImagesAndMusic.FatalImagesDirectoryNotFound ImagesAndMusic.IMAGES_DIR /\
   snd (ImagesAndMusic.main wd) = Exit 1 /\
   exit_status (snd (ImagesAndMusic.main wd)) <> 0) /\
  (w_isdir wd ImagesAndMusic.IMAGES_DIR = true ->
   forall e, w_listdir wd ImagesAndMusic.IMAGES_DIR = Raise e ->
   output (fst (ImagesAndMusic.main wd)) = None /\
   last (console (fst (ImagesAndMusic.main wd))) ImagesAndMusic.Rule =
     ImagesAndMusic.FatalCannotList ImagesAndMusic.IMAGES_DIR e /\
   snd (ImagesAndMusic.main wd) = Exit 1 /\
   exit_status (snd (ImagesAndMusic.main wd)) <> 0).
Proof.
  split; [|split].
  - intros D. unfold ImagesOnly.main, ImagesOnly.create_presentation, ImagesOnly.start.
    rewrite D. split; reflexivity.
  - intros D. unfold ImagesAndMusic.main, ImagesAndMusic.script, ImagesAndMusic.start.
    drive ltac:(rewrite D). cbn. repeat split; discriminate.
  - intros D e E.
    unfold ImagesAndMusic.main, ImagesAndMusic.script, ImagesAndMusic.start.
    drive ltac:(first [rewrite D|rewrite E]). cbn. repeat split; discriminate.
Qed.

Lemma missing_root_example :
  exit_status (snd (ImagesAndMusic.main (Examples.world [] []))) <> 0 /\
  output (fst (ImagesOnly.main (Examples.world [] []))) = None /\
  snd (ImagesAndMusic.main
         (Examples.locked (Examples.world [("images"%string, [])] []))) = Exit 1.
Proof.
  destruct (missing_root (Examples.world [] [])) as (M1 & M2 & _).
  destruct (missing_root (Examples.locked (Examples.world [("images"%string, [])] [])))
    as (_ & _ & M3).
  split; [apply M2; reflexivity|]. split; [apply M1; reflexivity|].
  apply (M3 eq_refl OSError eq_refl).
Defined.



(** C10: when the images directory can be listed and holds neither a
    supported image file nor a subdirectory, the first script still saves a
    presentation without slides (when saving succeeds), and the second
    script saves nothing. *)
Theorem empty_root wd names :
  w_isdir wd ImagesOnly.IMAGE_DIR = true ->
  w_listdir wd ImagesOnly.IMAGE_DIR = Return names ->
  (forall n, In n names ->
     w_isdir wd (PyStr.join ImagesOnly.IMAGE_DIR n) = false /\
     (w_isfile wd (PyStr.join ImagesOnly.IMAGE_DIR n) && ImagesOnly.is_image n)%bool
       = false /\
     (w_isfile wd (PyStr.join ImagesAndMusic.IMAGES_DIR n)
      && ImagesAndMusic.is_image n)%bool = false) ->
  w_save wd ImagesOnly.OUTPUT_FILENAME = Return tt ->
  output (fst (ImagesOnly.main wd)) = Some (Presentation wd) /\
  output (fst (ImagesAndMusic.main wd)) = None.
Proof.
  intros D Ls B Sv. split.
  - destruct (Main1.main_run1 wd names D Ls) as (_ & O & _).
    rewrite O, Sv, barren_deck1; [reflexivity|].
    intros n I. destruct (B n I) as (B1 & B2 & _). auto.
  - pose proof (Main2.main_run2 wd names D Ls) as R. cbv zeta in R.
    destruct (barren_deck2 wd names) as [_ P0].
    { intros n I. destruct (B n I) as (B1 & _ & B3). auto. }
    destruct (Deck2.music_file wd) as [e|mf].
    + apply R.
    + destruct R as (_ & O & _). rewrite O, P0. reflexivity.
Qed.

Lemma empty_root_example :
  output (fst (ImagesOnly.main
                 (Examples.world [("images"%string, ["notes.txt"%string])]
                    [("images/notes.txt"%string, Raise LibraryError)]))) =
    Some {| slide_width := 9144000; slide_height := 6858000; slides := [] |} /\
  output (fst (ImagesAndMusic.main
                 (Examples.world [("images"%string, ["notes.txt"%string])]
                    [("images/notes.txt"%string, Raise LibraryError)]))) = None.
Proof.
  apply (empty_root
           (Examples.world [("images"%string, ["notes.txt"%string])]
              [("images/notes.txt"%string, Raise LibraryError)])
           ["notes.txt"%string] eq_refl eq_refl).
  - intros n [<-|[]]. repeat split; vm_compute; reflexivity.
  - reflexivity.
Defined.

(** C3, as stated, fails in the second script: with a root image z.png and
    a subdirectory sub holding c.png, the title of sub and c.png come before
    z.png, whereas root images first would give z.png, then sub. *)
Lemma root_image_after_subdirectory :
  map Deck.label_of
      (deck_of (ImagesAndMusic.main
                  (Examples.world
                     [("images"%string, ["z.png"; "sub"]%string);
                      ("images/sub"%string, ["c.png"%string])]
                     [("images/z.png"%string, Return (640, 480));
                      ("images/sub/c.png"%string, Return (640, 480))]))) =
    [Deck.Title "sub"; Deck.Image "images/sub/c.png"; Deck.Image "images/z.png"] /\
  map Deck.label_of
      (Deck2.root_first_deck
         (Examples.world
            [("images"%string, ["z.png"; "sub"]%string);
             ("images/sub"%string, ["c.png"%string])]
            [("images/z.png"%string, Return (640, 480));
             ("images/sub/c.png"%string, Return (640, 480))])
         ["z.png"; "sub"]%string) =
    [Deck.Image "images/z.png"; Deck.Title "sub"; Deck.Image "images/sub/c.png"].
Proof. split; vm_compute; reflexivity. Qed.

(** C3, amended: the names of a directory are processed in sorted order (a
    sorted permutation of the listing).  The first script emits the slides
    of all root images, then, for each subdirectory, its title slide and the
    slides of its images in sorted order.  The second script walks the
    sorted root entries once and emits each where it stands: an image its
    slide, a subdirectory its title slide followed by its images in sorted
    order. *)
Theorem slide_order wd names :
  w_isdir wd ImagesOnly.IMAGE_DIR = true ->
  w_listdir wd ImagesOnly.IMAGE_DIR = Return names ->
  Sorted name_le (PyStr.sorted names) /\
  Permutation names (PyStr.sorted names) /\
  deck_of (ImagesOnly.main wd) = Deck1.deck wd names /\
  map Deck.label_of (deck_of (ImagesAndMusic.main wd)) =
    map Deck.label_of (Deck2.deck wd names).
Proof.
  intros D Ls. split; [apply PyStrFacts.sorted_sorted|].
  split; [apply PyStrFacts.sorted_perm|]. split.
  - destruct (Main1.main_run1 wd names D Ls) as (E & _).
    unfold deck_of. rewrite E. reflexivity.
  - pose proof (Main2.main_run2 wd names D Ls) as R. cbv zeta in R.
    unfold deck_of. destruct (Deck2.music_file wd) as [e|mf].
    + destruct R as (E & _). rewrite E. reflexivity.
    + destruct R as (E & _). rewrite E. cbn [slides].
      apply Holds2.with_found_music_labels.
Qed.

Lemma slide_order_example :
  map Deck.label_of
      (deck_of (ImagesOnly.main
                  (Examples.world
                     [("images"%string, ["b.png"; "sub"; "a.png"]%string);
                      ("images/sub"%string, ["c.png"%string])]
                     [("images/a.png"%string, Return (640, 480));
                      ("images/b.png"%string, Return (480, 640));
                      ("images/sub/c.png"%string, Return (640, 480))]))) =
    [Deck.Image "images/a.png"; Deck.Image "images/b.png"; Deck.Title "sub";
     Deck.Image "images/sub/c.png"] /\
  map Deck.label_of
      (deck_of (ImagesAndMusic.main
                  (Examples.world
                     [("images"%string, ["b.png"; "sub"; "a.png"]%string);
                      ("images/sub"%string, ["c.png"%string])]
                     [("images/a.png"%string, Return (640, 480));
                      ("images/b.png"%string, Return (480, 640));
                      ("images/sub/c.png"%string, Return (640, 480))]))) =
    [Deck.Image "images/a.png"; Deck.Image "images/b.png"; Deck.Title "sub";
     Deck.Image "images/sub/c.png"].
Proof.
  destruct (slide_order
              (Examples.world
                 [("images"%string, ["b.png"; "sub"; "a.png"]%string);
                  ("images/sub"%string, ["c.png"%string])]
                 [("images/a.png"%string, Return (640, 480));
                  ("images/b.png"%string, Return (480, 640));
                  ("images/sub/c.png"%string, Return (640, 480))])
              ["b.png"; "sub"; "a.png"]%string eq_refl eq_refl)
    as (_ & _ & E1 & E2).
  rewrite E1, E2. split; vm_compute; reflexivity.
Defined.

(** C4, as stated, fails: the music directory is scanned in the order the
    system lists it, which [find_music_file] does not sort.  Listed as
    b.wav, a.mp3, it is b.wav that is embedded, although a.mp3 comes first
    in sorted order. *)
Lemma music_in_listing_order :
  flat_map Deck.movies
    (deck_of (ImagesAndMusic.main
                (Examples.world
                   [("images"%string, ["a.png"%string]);
                    ("music"%string, ["b.wav"; "a.mp3"]%string)]
                   [("images/a.png"%string, Return (640, 480));
                    ("music/b.wav"%string, Raise LibraryError);
                    ("music/a.mp3"%string, Raise LibraryError)]))) =
    ["music/b.wav"%string] /\
  Deck2.first_music (PyStr.sorted ["b.wav"; "a.mp3"]%string) = Some "a.mp3"%string.
Proof. split; vm_compute; reflexivity. Qed.

(** C4, amended: when the music directory lists several files with an
    allowed audio extension, the file taken is the first such name in the
    order the system lists the directory (not sorted).  No slide but the
    first ever holds a movie and no other file is embedded.  That one file
    is embedded, once, on the first slide, exactly when slides were
    processed, the deck is not empty, the file exists and the library
    accepts it; in every other case the deck is left without any movie. *)
Theorem music_first_listed wd names mnames f :
  w_isdir wd ImagesAndMusic.IMAGES_DIR = true ->
  w_listdir wd ImagesAndMusic.IMAGES_DIR = Return names ->
  w_isdir wd ImagesAndMusic.MUSIC_DIR = true ->
  w_listdir wd ImagesAndMusic.MUSIC_DIR = Return mnames ->
  Deck2.first_music mnames = Some f ->
  (exists pre post,
     mnames = pre ++ f :: post /\ ImagesAndMusic.is_music f = true /\
     Forall (fun n => ImagesAndMusic.is_music n = false) pre) /\
  (Deck2.processed wd names <= 0 \/ Deck2.deck wd names = [] \/
   w_exists wd (PyStr.join ImagesAndMusic.MUSIC_DIR f) = false \/
   (exists e, w_add_movie wd (PyStr.join ImagesAndMusic.MUSIC_DIR f) = Raise e) ->
   deck_of (ImagesAndMusic.main wd) = Deck2.deck wd names /\
   flat_map Deck.movies (deck_of (ImagesAndMusic.main wd)) = []) /\
  Forall (fun s => Deck.movies s = []) (tl (deck_of (ImagesAndMusic.main wd))) /\
  (forall m, In m (flat_map Deck.movies (deck_of (ImagesAndMusic.main wd))) ->
             m = PyStr.join ImagesAndMusic.MUSIC_DIR f) /\
  (0 < Deck2.processed wd names -> Deck2.deck wd names <> [] ->
   w_exists wd (PyStr.join ImagesAndMusic.MUSIC_DIR f) = true ->
   w_add_movie wd (PyStr.join ImagesAndMusic.MUSIC_DIR f) = Return tt ->
   deck_of (ImagesAndMusic.main wd) =
     Deck2.with_music (PyStr.join ImagesAndMusic.MUSIC_DIR f) (Deck2.deck wd names) /\
   flat_map Deck.movies (deck_of (ImagesAndMusic.main wd)) =
     [PyStr.join ImagesAndMusic.MUSIC_DIR f]).
Proof.
  intros D Ls MD ML FM.
  pose proof (Main2.main_run2 wd names D Ls) as R. cbv zeta in R.
  assert (MF : Deck2.music_file wd =
               Return (Some (PyStr.join ImagesAndMusic.MUSIC_DIR f))).
  { unfold Deck2.music_file. rewrite MD, ML, FM. reflexivity. }
  rewrite MF in R. destruct R as (E & _).
  pose proof (Holds2.deck_no_movies wd names) as NM.
  assert (DE : deck_of (ImagesAndMusic.main wd) =
               Deck2.with_found_music wd
                 (Some (PyStr.join ImagesAndMusic.MUSIC_DIR f))
                 (Deck2.processed wd names) (Deck2.deck wd names)).
  { unfold deck_of. rewrite E. reflexivity. }
  split; [exact (find_first _ _ _ FM)|].
  split.
  { intros Not.
    assert (Same : deck_of (ImagesAndMusic.main wd) = Deck2.deck wd names).
    { rewrite DE. unfold Deck2.with_found_music, Deck2.after_music.
      destruct (String.eqb (PyStr.join ImagesAndMusic.MUSIC_DIR f) "") eqn:Q;
        [discriminate Q|].
      destruct Not as [N|[N|[N|(e & N)]]].
      - apply Z.ltb_ge in N. rewrite N. reflexivity.
      - rewrite N. destruct (0 <? Deck2.processed wd names); [|reflexivity].
        cbn [orb]. destruct (negb _); [reflexivity|].
        destruct (w_add_movie wd _); reflexivity.
      - rewrite N. cbn [orb negb].
        destruct (0 <? Deck2.processed wd names); reflexivity.
      - rewrite N. destruct (0 <? Deck2.processed wd names); [|reflexivity].
        cbn [orb]. destruct (negb _); reflexivity. }
    split; [exact Same|]. rewrite Same. apply flat_map_nil. exact NM. }
  rewrite DE.
  destruct (Holds2.with_found_music_cases wd
              (Some (PyStr.join ImagesAndMusic.MUSIC_DIR f))
              (Deck2.processed wd names) (Deck2.deck wd names))
    as [C|(f' & [= <-] & C)].
  - rewrite C. split; [|split].
    + destruct (Deck2.deck wd names); [constructor|]. inversion NM. assumption.
    + intros m I. rewrite (flat_map_nil _ _ NM) in I. destruct I.
    + intros P NE Ex Mv. exfalso. revert C.
      unfold Deck2.with_found_music, Deck2.after_music.
      destruct (String.eqb (PyStr.join ImagesAndMusic.MUSIC_DIR f) "") eqn:Q;
        [discriminate Q|].
      apply Z.ltb_lt in P. rewrite P, Ex, Mv. cbn [orb negb].
      destruct (Deck2.deck wd names) as [|s r]; [congruence|].
      cbn [Deck2.with_music]. intros [= C].
      apply (f_equal s_shapes) in C. cbn [with_shapes s_shapes] in C.
      apply (f_equal (@List.length shape)) in C. rewrite length_app in C.
      simpl in C. lia.
  - rewrite C. destruct (Deck2.deck wd names) as [|s r].
    + split; [constructor|]. split; [intros m []|]. intros _ NE. congruence.
    + destruct (with_music_movies (PyStr.join ImagesAndMusic.MUSIC_DIR f) s r NM)
        as [M1 M2].
      split; [exact M2|]. split.
      * intros m I. rewrite M1 in I. destruct I as [<-|[]]. reflexivity.
      * intros _ _ _ _. split; [reflexivity|exact M1].
Qed.

Lemma music_first_listed_example :
  flat_map Deck.movies
    (deck_of (ImagesAndMusic.main
                (Examples.world
                   [("images"%string, ["a.png"; "b.png"]%string);
                    ("music"%string, ["notes.txt"; "b.wav"; "a.mp3"]%string)]
                   [("images/a.png"%string, Return (640, 480));
                    ("images/b.png"%string, Return (640, 480));
                    ("music/b.wav"%string, Raise LibraryError);
                    ("music/a.mp3"%string, Raise LibraryError)]))) =
  ["music/b.wav"%string] /\
  flat_map Deck.movies
    (deck_of (ImagesAndMusic.main
                (Examples.world
                   [("images"%string, ["a.png"%string]);
                    ("music"%string, ["gone.mp3"%string])]
                   [("images/a.png"%string, Return (640, 480))]))) = [].
Proof.
  split.
  - destruct (music_first_listed
                (Examples.world
                   [("images"%string, ["a.png"; "b.png"]%string);
                    ("music"%string, ["notes.txt"; "b.wav"; "a.mp3"]%string)]
                   [("images/a.png"%string, Return (640, 480));
                    ("images/b.png"%string, Return (640, 480));
                    ("music/b.wav"%string, Raise LibraryError);
                    ("music/a.mp3"%string, Raise LibraryError)])
                ["a.png"; "b.png"]%string ["notes.txt"; "b.wav"; "a.mp3"]%string
                "b.wav"%string eq_refl eq_refl eq_refl eq_refl eq_refl)
      as (_ & _ & _ & _ & Embedded).
    destruct Embedded as (_ & E).
    + vm_compute. reflexivity.
    + vm_compute. discriminate.
    + reflexivity.
    + reflexivity.
    + exact E.
  - destruct (music_first_listed
                (Examples.world
                   [("images"%string, ["a.png"%string]);
                    ("music"%string, ["gone.mp3"%string])]
                   [("images/a.png"%string, Return (640, 480))])
                ["a.png"%string] ["gone.mp3"%string]
                "gone.mp3"%string eq_refl eq_refl eq_refl eq_refl eq_refl)
      as (_ & Not & _).
    destruct Not as (_ & E); [|exact E].
    right. right. left. reflexivity.
Defined.

Import Pptx.

(** * Further properties of the two scripts *)

(** The second script accepts every image name the first accepts, and
    besides those exactly the names ending in .tif, which the first
    rejects. *)
Theorem allowed_extensions_extend_supported :
  (forall name,
     ImagesOnly.is_image name = true -> ImagesAndMusic.is_image name = true) /\
  (forall name,
     PyStr.endswith (PyStr.lower name) ".tif" = true ->
     ImagesAndMusic.is_image name = true /\ ImagesOnly.is_image name = false) /\
  (forall name,
     ImagesAndMusic.is_image name = true ->
     ImagesOnly.is_image name = true \/
     PyStr.endswith (PyStr.lower name) ".tif" = true).
Proof.
  unfold ImagesOnly.is_image, ImagesAndMusic.is_image, PyStr.endswith_any.
  change ImagesAndMusic.ALLOWED_IMAGE_EXTENSIONS
    with (ImagesOnly.SUPPORTED_EXTENSIONS ++ [".tif"%string]).
  split; [|split].
  - intros name E. rewrite existsb_app, E. reflexivity.
  - intros name E. split.
    + rewrite existsb_app. cbn [existsb]. rewrite E. apply orb_true_iff. right. reflexivity.
    + apply (PyStrFacts.endswith_any_other _ ".tif"%string _ E).
      vm_compute. reflexivity.
  - intros name E. rewrite existsb_app in E. apply orb_prop in E.
    destruct E as [E|E]; [left; exact E|right].
    cbn [existsb] in E. rewrite orb_false_r in E. exact E.
Qed.

(** The MIME type the music is embedded with follows the extension of the
    file found, in any letter case: audio/wav for .wav, audio/x-ms-wma for
    .wma and audio/mpeg for .mp3. *)
Theorem mime_type_by_extension directory filename :
  (PyStr.endswith (PyStr.lower filename) ".wav" = true ->
   ImagesAndMusic.mime_type_of (PyStr.join directory filename) = "audio/wav"%string) /\
  (PyStr.endswith (PyStr.lower filename) ".wma" = true ->
   ImagesAndMusic.mime_type_of (PyStr.join directory filename)
     = "audio/x-ms-wma"%string) /\
  (PyStr.endswith (PyStr.lower filename) ".mp3" = true ->
   ImagesAndMusic.mime_type_of (PyStr.join directory filename) = "audio/mpeg"%string).
Proof.
  assert (Ends : forall ext,
            PyStr.endswith (PyStr.lower filename) ext = true ->
            PyStr.endswith (PyStr.lower (PyStr.join directory filename)) ext = true).
  { intros ext E. unfold PyStr.join. rewrite !PyStrFacts.lower_app.
    apply PyStrFacts.endswith_app, PyStrFacts.endswith_app. exact E. }
  assert (Not : forall ext other,
            PyStr.endswith (PyStr.lower filename) ext = true ->
            String.length ext = String.length other ->
            PyStr.endswith other ext = false ->
            PyStr.endswith (PyStr.lower (PyStr.join directory filename)) other = false).
  { intros ext other E Len N.
    destruct (PyStr.endswith (PyStr.lower (PyStr.join directory filename)) other) eqn:O;
      [|reflexivity].
    rewrite (PyStrFacts.endswith_chain _ ext other (Ends ext E) O) in N;
      [discriminate|]. rewrite Len. reflexivity. }
  unfold ImagesAndMusic.mime_type_of. split; [|split]; intros E.
  - rewrite (Ends _ E). reflexivity.
  - rewrite (Not _ ".wav"%string E eq_refl eq_refl), (Ends _ E). reflexivity.
  - rewrite (Not _ ".wav"%string E eq_refl eq_refl),
      (Not _ ".wma"%string E eq_refl eq_refl). reflexivity.
Qed.

Lemma mime_type_by_extension_example :
  ImagesAndMusic.mime_type_of (PyStr.join "music" "Theme.WMA") = "audio/x-ms-wma"%string.
Proof.
  destruct (mime_type_by_extension "music"%string "Theme.WMA"%string) as (_ & M & _).
  apply M. reflexivity.
Defined.

(** The order in which the system lists the images directory does not
    matter: run in two worlds that differ only in the order of that
    listing, each script ends the same way, with the same presentation in
    memory and the same file saved. *)
Theorem listing_order_irrelevant wd names names' :
  w_isdir wd ImagesOnly.IMAGE_DIR = true ->
  Permutation names names' ->
  (prs (fst (ImagesOnly.main (with_listing ImagesOnly.IMAGE_DIR names wd))) =
   prs (fst (ImagesOnly.main (with_listing ImagesOnly.IMAGE_DIR names' wd))) /\
   output (fst (ImagesOnly.main (with_listing ImagesOnly.IMAGE_DIR names wd))) =
   output (fst (ImagesOnly.main (with_listing ImagesOnly.IMAGE_DIR names' wd))) /\
   snd (ImagesOnly.main (with_listing ImagesOnly.IMAGE_DIR names wd)) =
   snd (ImagesOnly.main (with_listing ImagesOnly.IMAGE_DIR names' wd))) /\
  (prs (fst (ImagesAndMusic.main (with_listing ImagesAndMusic.IMAGES_DIR names wd))) =
   prs (fst (ImagesAndMusic.main (with_listing ImagesAndMusic.IMAGES_DIR names' wd))) /\
   output (fst (ImagesAndMusic.main (with_listing ImagesAndMusic.IMAGES_DIR names wd))) =
   output (fst (ImagesAndMusic.main (with_listing ImagesAndMusic.IMAGES_DIR names' wd))) /\
   snd (ImagesAndMusic.main (with_listing ImagesAndMusic.IMAGES_DIR names wd)) =
   snd (ImagesAndMusic.main (with_listing ImagesAndMusic.IMAGES_DIR names' wd))).
Proof.
  intros D P. pose proof (PyStrFacts.sorted_permutation _ _ P) as E.
  split.
  - destruct (Main1.main_run1 (with_listing ImagesOnly.IMAGE_DIR names wd) names
                D eq_refl) as (P1 & O1 & Q1 & _).
    destruct (Main1.main_run1 (with_listing ImagesOnly.IMAGE_DIR names' wd) names'
                D eq_refl) as (P2 & O2 & Q2 & _).
    rewrite P1, P2, O1, O2, Q1, Q2.
    change (Deck1.deck (with_listing ImagesOnly.IMAGE_DIR names wd) names)
      with (Deck1.deck wd names).
    change (Deck1.deck (with_listing ImagesOnly.IMAGE_DIR names' wd) names')
      with (Deck1.deck wd names').
    assert (Dk : Deck1.deck wd names = Deck1.deck wd names').
    { unfold Deck1.deck, Deck1.images_of. rewrite E. reflexivity. }
    rewrite Dk. repeat split; reflexivity.
  - pose proof (Main2.main_run2 (with_listing ImagesAndMusic.IMAGES_DIR names wd)
                  names D eq_refl) as R1.
    pose proof (Main2.main_run2 (with_listing ImagesAndMusic.IMAGES_DIR names' wd)
                  names' D eq_refl) as R2.
    cbv zeta in R1, R2.
    change (Deck2.music_file (with_listing ImagesAndMusic.IMAGES_DIR names wd))
      with (Deck2.music_file wd) in R1.
    change (Deck2.music_file (with_listing ImagesAndMusic.IMAGES_DIR names' wd))
      with (Deck2.music_file wd) in R2.
    change (Deck2.deck (with_listing ImagesAndMusic.IMAGES_DIR names wd) names)
      with (Deck2.deck wd names) in R1.
    change (Deck2.deck (with_listing ImagesAndMusic.IMAGES_DIR names' wd) names')
      with (Deck2.deck wd names') in R2.
    change (Deck2.processed (with_listing ImagesAndMusic.IMAGES_DIR names wd) names)
      with (Deck2.processed wd names) in R1.
    change (Deck2.processed (with_listing ImagesAndMusic.IMAGES_DIR names' wd) names')
      with (Deck2.processed wd names') in R2.
    assert (Dk : Deck2.deck wd names = Deck2.deck wd names')
      by (unfold Deck2.deck; rewrite E; reflexivity).
    assert (Pk : Deck2.processed wd names = Deck2.processed wd names')
      by (unfold Deck2.processed; rewrite E; reflexivity).
    rewrite Dk, Pk in R1.
    destruct (Deck2.music_file wd) as [e|mf].
    + destruct R1 as (P1 & O1 & Q1). destruct R2 as (P2 & O2 & Q2).
      rewrite P1, P2, O1, O2, Q1, Q2. repeat split; reflexivity.
    + destruct R1 as (P1 & O1 & Q1 & _). destruct R2 as (P2 & O2 & Q2 & _).
      rewrite P1, P2, O1, O2, Q1, Q2. repeat split; reflexivity.
Qed.

Lemma listing_order_irrelevant_example :
  deck_of (ImagesOnly.main
             (with_listing "images" ["b.png"; "sub"; "a.png"]%string
                (Examples.world [("images"%string, []);
                                 ("images/sub"%string, ["c.png"%string])]
                   [("images/a.png"%string, Return (640, 480));
                    ("images/b.png"%string, Return (480, 640));
                    ("images/sub/c.png"%string, Return (640, 480))]))) =
  deck_of (ImagesOnly.main
             (with_listing "images" ["sub"; "a.png"; "b.png"]%string
                (Examples.world [("images"%string, []);
                                 ("images/sub"%string, ["c.png"%string])]
                   [("images/a.png"%string, Return (640, 480));
                    ("images/b.png"%string, Return (480, 640));
                    ("images/sub/c.png"%string, Return (640, 480))]))).
Proof.
  destruct (listing_order_irrelevant
              (Examples.world [("images"%string, []);
                               ("images/sub"%string, ["c.png"%string])]
                 [("images/a.png"%string, Return (640, 480));
                  ("images/b.png"%string, Return (480, 640));
                  ("images/sub/c.png"%string, Return (640, 480))])
              ["b.png"; "sub"; "a.png"]%string ["sub"; "a.png"; "b.png"]%string
              eq_refl) as ((E & _) & _).
  - apply perm_trans with (["sub"; "b.png"; "a.png"]%string).
    + apply perm_swap.
    + apply perm_skip. apply perm_swap.
  - unfold deck_of. exact (f_equal slides E).
Defined.

(** ** Failures of the operating system *)

(** Second script: a music directory that exists but cannot be listed ends
    the run with the exception [os.listdir] raised, after all slides were
    built and before anything is saved: no file is written and the exit
    status is 1. *)
Theorem music_listing_failure wd names e :
  w_isdir wd ImagesAndMusic.IMAGES_DIR = true ->
  w_listdir wd ImagesAndMusic.IMAGES_DIR = Return names ->
  w_isdir wd ImagesAndMusic.MUSIC_DIR = true ->
  w_listdir wd ImagesAndMusic.MUSIC_DIR = Raise e ->
  snd (ImagesAndMusic.main wd) = Fail e /\
  exit_status (snd (ImagesAndMusic.main wd)) = 1 /\
  output (fst (ImagesAndMusic.main wd)) = None /\
  deck_of (ImagesAndMusic.main wd) = Deck2.deck wd names.
Proof.
  intros D Ls MD ML.
  pose proof (Main2.main_run2 wd names D Ls) as R. cbv zeta in R.
  assert (MF : Deck2.music_file wd = Raise e).
  { unfold Deck2.music_file. rewrite MD, ML. reflexivity. }
  rewrite MF in R. destruct R as (P & O & Q).
  rewrite Q, O. unfold deck_of. rewrite P. auto.
Qed.

Lemma music_listing_failure_example :
  snd (ImagesAndMusic.main
         (Examples.lock "music"
            (Examples.world [("images"%string, ["a.png"%string]);
                             ("music"%string, ["a.mp3"%string])]
               [("images/a.png"%string, Return (640, 480))]))) = Fail OSError.
Proof.
  destruct (music_listing_failure
              (Examples.lock "music"
                 (Examples.world [("images"%string, ["a.png"%string]);
                                  ("music"%string, ["a.mp3"%string])]
                    [("images/a.png"%string, Return (640, 480))]))
              ["a.png"%string] OSError eq_refl eq_refl eq_refl eq_refl) as (E & _).
  exact E.
Defined.

(** First script: an images directory that exists but cannot be listed ends
    the run with the exception raised by [os.listdir], which nothing
    catches; nothing is written.  (The second script reports this case and
    exits.) *)
Theorem root_listing_failure wd e :
  w_isdir wd ImagesOnly.IMAGE_DIR = true ->
  w_listdir wd ImagesOnly.IMAGE_DIR = Raise e ->
  snd (ImagesOnly.main wd) = Fail e /\
  output (fst (ImagesOnly.main wd)) = None /\
  console (fst (ImagesOnly.main wd)) =
    [ImagesOnly.ScanningDirectory ImagesOnly.IMAGE_DIR] /\
  deck_of (ImagesOnly.main wd) = [].
Proof.
  intros D Ls.
  unfold ImagesOnly.main, ImagesOnly.create_presentation, ImagesOnly.start,
    Presentation, deck_of.
  rewrite D. cbn [negb]. run. rewrite Ls. run. auto.
Qed.

Lemma root_listing_failure_example :
  snd (ImagesOnly.main
         (Examples.locked (Examples.world [("images"%string, [])] []))) = Fail OSError.
Proof.
  destruct (root_listing_failure
              (Examples.locked (Examples.world [("images"%string, [])] []))
              OSError eq_refl eq_refl) as (E & _).
  exact E.
Defined.

(** First script: when saving raises, the run ends with two lines, the
    error and the advice about write permissions; the deck in memory is the
    whole deck and the script ends normally (exit status 0). *)
Theorem save_failure_reported wd names e :
  w_isdir wd ImagesOnly.IMAGE_DIR = true ->
  w_listdir wd ImagesOnly.IMAGE_DIR = Return names ->
  w_save wd ImagesOnly.OUTPUT_FILENAME = Raise e ->
  snd (ImagesOnly.main wd) = Done tt /\
  exit_status (snd (ImagesOnly.main wd)) = 0 /\
  deck_of (ImagesOnly.main wd) = Deck1.deck wd names /\
  exists Y,
    console (fst (ImagesOnly.main wd)) =
    Y ++ [ImagesOnly.ErrorSavingPresentation e; ImagesOnly.EnsureWritePermissions].
Proof.
  intros D Ls Sv.
  destruct (Main1.main_run1 wd names D Ls) as (P & _ & Q & _ & Tail).
  unfold Deck1.save_log in Tail. rewrite Sv in Tail.
  rewrite Q. unfold deck_of. rewrite P. auto.
Qed.

Lemma save_failure_reported_example :
  exit_status
    (snd (ImagesOnly.main
            (Examples.read_only
               (Examples.world [("images"%string, ["a.png"%string])]
                  [("images/a.png"%string, Return (640, 480))])))) = 0.
Proof.
  destruct (save_failure_reported
              (Examples.read_only
                 (Examples.world [("images"%string, ["a.png"%string])]
                    [("images/a.png"%string, Return (640, 480))]))
              ["a.png"%string] OSError eq_refl eq_refl eq_refl) as (_ & E & _).
  exact E.
Defined.

(** Second script, when the music lookup does not raise: the run ends
    normally.  With [processed_slides] positive [prs.save] is called: if it
    completes, what it wrote is the 16 x 9 inch presentation with the final
    deck and the success line reports [processed_slides]; if it raises, the
    failure is reported as fatal, with the warning that the file might be
    corrupted or incomplete.  Otherwise [prs.save] is not called and the
    script says that no slides were added. *)
Theorem saved_presentation wd names mf :
  w_isdir wd ImagesAndMusic.IMAGES_DIR = true ->
  w_listdir wd ImagesAndMusic.IMAGES_DIR = Return names ->
  Deck2.music_file wd = Return mf ->
  snd (ImagesAndMusic.main wd) = Done tt /\
  (0 < Deck2.processed wd names ->
   w_save wd ImagesAndMusic.OUTPUT_FILENAME = Return tt ->
   output (fst (ImagesAndMusic.main wd)) =
     Some {| slide_width := Inches_16; slide_height := Inches_9;
             slides := deck_of (ImagesAndMusic.main wd) |} /\
   In (ImagesAndMusic.PresentationSaved ImagesAndMusic.OUTPUT_FILENAME
         (Deck2.processed wd names))
      (console (fst (ImagesAndMusic.main wd)))) /\
  (0 < Deck2.processed wd names ->
   forall e, w_save wd ImagesAndMusic.OUTPUT_FILENAME = Raise e ->
   In (ImagesAndMusic.FatalSaving e) (console (fst (ImagesAndMusic.main wd))) /\
   In ImagesAndMusic.MaybeCorrupted (console (fst (ImagesAndMusic.main wd)))) /\
  (Deck2.processed wd names <= 0 ->
   output (fst (ImagesAndMusic.main wd)) = None /\
   In ImagesAndMusic.NoSlidesNotSaved (console (fst (ImagesAndMusic.main wd)))).
Proof.
  intros D Ls MF.
  pose proof (Main2.main_run2 wd names D Ls) as R. cbv zeta in R.
  rewrite MF in R. destruct R as (P & O & Q & Lg).
  unfold Deck2.saved, Deck2.save_log in *.
  split; [exact Q|]. split; [|split].
  - intros N Sv. apply Z.ltb_lt in N. rewrite N, Sv in *.
    inversion Lg as [|? ? L1 _]; subst. split; [|exact L1].
    rewrite O. unfold deck_of. rewrite P. reflexivity.
  - intros N e Sv. apply Z.ltb_lt in N. rewrite N, Sv in *.
    inversion Lg as [|? ? L1 Lg']; subst. inversion Lg' as [|? ? L2 _]; subst.
    split; [exact L1|exact L2].
  - intros N. assert (N' : (0 <? Deck2.processed wd names) = false)
      by (apply Z.ltb_ge; exact N).
    rewrite N' in *. inversion Lg as [|? ? L1 _]; subst. split; [exact O|exact L1].
Qed.

Lemma saved_presentation_example :
  In (ImagesAndMusic.FatalSaving OSError)
     (console (fst (ImagesAndMusic.main
                      (Examples.read_only
                         (Examples.world [("images"%string, ["a.png"%string])]
                            [("images/a.png"%string, Return (640, 480))]))))).
Proof.
  destruct (saved_presentation
              (Examples.read_only
                 (Examples.world [("images"%string, ["a.png"%string])]
                    [("images/a.png"%string, Return (640, 480))]))
              ["a.png"%string] None eq_refl eq_refl eq_refl)
    as (_ & _ & F & _).
  destruct (F eq_refl OSError eq_refl) as (E & _). exact E.
Defined.

(** ** One entry at a time *)

(** First script: whatever the library and the system do, neither
    [add_image_slide] nor [add_title_slide] lets an exception escape; each
    adds at most one slide at the end of the deck and leaves the slides
    already there, the slide size and the written file alone. *)
Theorem entries_isolated1 wd name W H :
  (exists X,
     (List.length X <= 1)%nat /\
     forall ss c o, exists Y ok,
       ImagesOnly.add_image_slide wd name (deck_state W H ss c o) =
       (deck_state W H (ss ++ X) (c ++ Y) o, Done ok)) /\
  (exists X,
     (List.length X <= 1)%nat /\ Forall Deck.text_only X /\
     forall ss c o, exists Y,
       ImagesOnly.add_title_slide wd name (deck_state W H ss c o) =
       (deck_state W H (ss ++ X) (c ++ Y) o, Done tt)).
Proof.
  split.
  - destruct (Run1.add_image_slide_appends1 wd name W H) as (X & HX & _ & L & _).
    exists X. split; [exact L|exact HX].
  - destruct (Run1.add_title_slide_appends1 wd name W H) as (X & HX & (T & _) & L & _).
    exists X. split; [exact L|]. split; [exact T|].
    intros ss c o. destruct (HX ss c o) as (Y & [] & E). exists Y. exact E.
Qed.

(** Second script: the same holds of its [add_image_slide] and
    [add_title_slide]; and [set_automatic_transition] never raises: it sets
    the three timing fields of the slide, or prints a warning and leaves the
    slide as it is. *)
Theorem entries_isolated2 wd name W H :
  (exists X,
     (List.length X <= 1)%nat /\
     forall ss c o, exists Y,
       ImagesAndMusic.add_image_slide wd name (deck_state W H ss c o) =
       (deck_state W H (ss ++ X) (c ++ Y) o, Done tt)) /\
  (exists X,
     (List.length X <= 1)%nat /\ Forall Deck.text_only X /\
     forall ss c o, exists Y,
       ImagesAndMusic.add_title_slide wd name (deck_state W H ss c o) =
       (deck_state W H (ss ++ X) (c ++ Y) o, Done tt)) /\
  (forall seconds ss sl c o,
     ImagesAndMusic.set_automatic_transition wd (List.length ss) seconds
       (deck_state W H (ss ++ [sl]) c o) =
     (deck_state W H
        (ss ++ [if w_has_transition wd
                then {| s_layout := s_layout sl; s_shapes := s_shapes sl;
                        s_transition :=
                          {| advance_on_click := Some false;
                             advance_on_time := Some true;
                             advance_time := Some (seconds * 1000) |} |}
                else sl])
        (c ++ (if w_has_transition wd then []
               else [ImagesAndMusic.WarnTransition AttributeError])) o,
      Done tt)).
Proof.
  split; [|split].
  - destruct (Run2.add_image_slide_appends2 wd name W H) as (X & HX & _ & L).
    exists X. split; [exact L|].
    intros ss c o. destruct (HX ss c o) as (Y & [] & E). exists Y. exact E.
  - destruct (Run2.add_title_slide_appends2 wd name W H) as (X & HX & (T & _) & L).
    exists X. split; [exact L|]. split; [exact T|].
    intros ss c o. destruct (HX ss c o) as (Y & [] & E). exists Y. exact E.
  - intros seconds ss sl c o. unfold deck_state.
    rewrite Run2.set_automatic_transition_last.
    unfold Deck2.auto_advance, Deck2.auto_advance_log, with_transition.
    destruct (w_has_transition wd); [reflexivity|]. destruct sl; reflexivity.
Qed.

(** ** Counting *)









(** ** Title slides *)

(** In both scripts the slide [add_title_slide] makes for a folder shows
    the folder's name as its only text, and holds neither a picture nor a
    movie. *)
Theorem title_slide_shows_name wd title W H :
  (exists X,
     appends (ImagesOnly.add_title_slide wd title) W H X /\
     Forall (fun s => Deck.texts s = [title] /\ Deck.pictures s = [] /\
                      Deck.movies s = []) X) /\
  (exists X,
     appends (ImagesAndMusic.add_title_slide wd title) W H X /\
     Forall (fun s => Deck.texts s = [title] /\ Deck.pictures s = [] /\
                      Deck.movies s = []) X).
Proof.
  split.
  - destruct (Run1.add_title_slide_appends1 wd title W H)
      as (X & HX & (T & N & _) & _).
    exists X. split; [exact HX|]. rewrite Forall_forall in *. intros s I.
    split; [exact (N s I)|]. apply textual_no_media. exact (T s I).
  - destruct (Run2.add_title_slide_appends2 wd title W H)
      as (X & HX & (T & N & _) & _).
    exists X. split; [exact HX|]. rewrite Forall_forall in *. intros s I.
    split; [exact (N s I)|]. apply textual_no_media. exact (T s I).
Qed.

(** The first script builds a title slide on layout 5 and falls back to
    layout 0 when the template has no layout 5; without either no slide is
    added.  The second script has no fallback: without layout 5 it adds no
    title slide. *)
Theorem title_layout_fallback wd title W H :
  (nth_error (w_layouts wd) 5 <> None ->
   (exists s, appends (ImagesOnly.add_title_slide wd title) W H [s] /\
              s_layout s = 5%nat) /\
   (exists s, appends (ImagesAndMusic.add_title_slide wd title) W H [s] /\
              s_layout s = 5%nat)) /\
  (nth_error (w_layouts wd) 5 = None ->
   appends (ImagesAndMusic.add_title_slide wd title) W H [] /\
   (nth_error (w_layouts wd) 0 <> None ->
    exists s, appends (ImagesOnly.add_title_slide wd title) W H [s] /\
              s_layout s = 0%nat) /\
   (nth_error (w_layouts wd) 0 = None ->
    appends (ImagesOnly.add_title_slide wd title) W H [])).
Proof.
  destruct (Run1.add_title_slide_appends1 wd title W H)
    as (X1 & HX1 & (_ & _ & One1 & None1) & _).
  destruct (Run2.add_title_slide_appends2 wd title W H)
    as (X2 & HX2 & (_ & _ & One2 & None2) & _).
  split.
  - intros L. split.
    + destruct (One1 (or_introl L)) as (s & -> & E). exists s. split; [exact HX1|].
      rewrite E. destruct (nth_error (w_layouts wd) 5); [reflexivity|congruence].
    + destruct (One2 L) as (s & -> & _ & E). exists s. split; [exact HX2|exact E].
  - intros L. split; [|split].
    + rewrite <- (None2 L). exact HX2.
    + intros L0. destruct (One1 (or_intror L0)) as (s & -> & E).
      exists s. split; [exact HX1|]. rewrite E, L. reflexivity.
    + intros L0. rewrite <- (None1 L L0). exact HX1.
Qed.

Lemma title_layout_fallback_example :
  exists s,
    appends (ImagesOnly.add_title_slide
               (Examples.with_layouts [[0; 1]%nat] (Examples.world [] [])) "sub")
            9144000 6858000 [s] /\
    s_layout s = 0%nat.
Proof.
  destruct (title_layout_fallback
              (Examples.with_layouts [[0; 1]%nat] (Examples.world [] []))
              "sub"%string 9144000 6858000) as (_ & F).
  destruct (F eq_refl) as (_ & F0 & _). apply F0. discriminate.
Defined.

(** The second script's search for a text placeholder, used when the
    layout has no title shape: the first placeholder with idx 1 or 3 is
    taken; failing that, the last placeholder with idx 2; failing that,
    none. *)
Theorem scan_placeholders_choice phs st :
  (forall pre shape idx post,
     phs = pre ++ (shape, idx) :: post ->
     idx = 1%nat \/ idx = 3%nat ->
     Forall (fun ph => snd ph <> 1%nat /\ snd ph <> 3%nat) pre ->
     snd (ImagesAndMusic.scan_placeholders phs None st) = Done (Some shape)) /\
  (Forall (fun ph => snd ph <> 1%nat /\ snd ph <> 3%nat) phs ->
   snd (ImagesAndMusic.scan_placeholders phs None st) =
   Done (fold_left (fun found ph => if Nat.eqb (snd ph) 2 then Some (fst ph) else found)
                   phs None)).
Proof.
  assert (Step : forall l rest ts,
            Forall (fun ph => snd ph <> 1%nat /\ snd ph <> 3%nat) l ->
            exists Y, forall st0,
              ImagesAndMusic.scan_placeholders (l ++ rest) ts st0 =
              ImagesAndMusic.scan_placeholders rest
                (fold_left (fun found ph =>
                              if Nat.eqb (snd ph) 2 then Some (fst ph) else found)
                           l ts)
                {| prs := prs st0; console := console st0 ++ Y; output := output st0 |}).
  { induction l as [|[sh i] r IH]; intros rest ts F.
    - exists []. intros st0. rewrite app_nil_r. destruct st0; reflexivity.
    - inversion F as [|? ? [N1 N3] Fr]; subst. cbn [snd] in N1, N3.
      cbn [app ImagesAndMusic.scan_placeholders fold_left fst snd].
      apply Nat.eqb_neq in N1, N3. rewrite N1, N3. cbn [orb].
      destruct (Nat.eqb i 2).
      + destruct (IH rest (Some sh) Fr) as (Y & E).
        exists (ImagesAndMusic.FoundBodyPlaceholder i :: Y). intros st0.
        unfold bind, print. rewrite E. cbn [prs console output].
        rewrite <- app_assoc. reflexivity.
      + apply IH. exact Fr. }
  split.
  - intros pre shape idx post -> I F.
    destruct (Step pre ((shape, idx) :: post) None F) as (Y & E). rewrite E.
    cbn [ImagesAndMusic.scan_placeholders].
    destruct I as [-> | ->]; reflexivity.
  - intros F. destruct (Step phs [] None F) as (Y & E).
    rewrite app_nil_r in E. rewrite E. reflexivity.
Qed.

Lemma scan_placeholders_choice_example :
  snd (ImagesAndMusic.scan_placeholders [(0, 2); (1, 2); (2, 3); (3, 1)]%nat None
         (ImagesAndMusic.start (Examples.world [] []))) = Done (Some 2%nat).
Proof.
  destruct (scan_placeholders_choice [(0, 2); (1, 2); (2, 3); (3, 1)]%nat
              (ImagesAndMusic.start (Examples.world [] []))) as (First & _).
  apply (First [(0, 2); (1, 2)]%nat 2%nat 3%nat [(3, 1)]%nat).
  - reflexivity.
  - right. reflexivity.
  - repeat constructor; discriminate.
Defined.

(** ** Music *)

(** [add_background_music] never raises.  It gives up, with a message and
    without touching the deck, when there is no slide, when the path is
    empty or does not exist, and when the library refuses the file;
    otherwise it appends one movie shape, 0.2 inch square at 0.1 inch from
    the corner, to the first slide and leaves the other slides alone. *)
Theorem background_music_guards wd f W H ss c o :
  (ss = [] ->
   ImagesAndMusic.add_background_music wd f (deck_state W H ss c o) =
   (deck_state W H ss
      (c ++ [ImagesAndMusic.AttemptingMusic (PyStr.basename f);
             ImagesAndMusic.CannotAddMusicNoSlides]) o, Done tt)) /\
  (ss <> [] -> f = ""%string \/ w_exists wd f = false ->
   ImagesAndMusic.add_background_music wd f (deck_state W H ss c o) =
   (deck_state W H ss
      (c ++ [ImagesAndMusic.AttemptingMusic (PyStr.basename f);
             ImagesAndMusic.ErrorMusicPathInvalid f]) o, Done tt)) /\
  (ss <> [] -> f <> ""%string -> w_exists wd f = true ->
   forall e, w_add_movie wd f = Raise e ->
   ImagesAndMusic.add_background_music wd f (deck_state W H ss c o) =
   (deck_state W H ss
      (c ++ [ImagesAndMusic.AttemptingMusic (PyStr.basename f);
             ImagesAndMusic.AddingMusicToFirstSlide;
             ImagesAndMusic.UsingMimeType (ImagesAndMusic.mime_type_of f);
             ImagesAndMusic.ErrorAddingMusic f e]) o, Done tt)) /\
  (forall s r, ss = s :: r -> f <> ""%string -> w_exists wd f = true ->
   w_add_movie wd f = Return tt ->
   ImagesAndMusic.add_background_music wd f (deck_state W H ss c o) =
   (deck_state W H
      ({| s_layout := s_layout s;
          s_shapes := s_shapes s ++
                      [Movie f 91440 91440 182880 182880
                             (ImagesAndMusic.mime_type_of f)];
          s_transition := s_transition s |} :: r)
      (c ++ [ImagesAndMusic.AttemptingMusic (PyStr.basename f);
             ImagesAndMusic.AddingMusicToFirstSlide;
             ImagesAndMusic.UsingMimeType (ImagesAndMusic.mime_type_of f);
             ImagesAndMusic.EmbeddedMusic (PyStr.basename f);
             ImagesAndMusic.ReminderManualSetup]) o, Done tt)).
Proof.
  unfold deck_state, ImagesAndMusic.add_background_music.
  split; [|split; [|split]].
  - intros ->. run. finish.
  - intros N Bad. destruct ss as [|s r]; [congruence|].
    assert (B : (String.eqb f "" || negb (w_exists wd f))%bool = true).
    { destruct Bad as [-> | E]; [reflexivity|]. rewrite E. apply orb_true_r. }
    run. rewrite B. run. finish.
  - intros N Nf Ex e Mv. destruct ss as [|s r]; [congruence|].
    assert (B : (String.eqb f "" || negb (w_exists wd f))%bool = false).
    { apply String.eqb_neq in Nf. rewrite Nf, Ex. reflexivity. }
    run. rewrite B. run. rewrite Mv. run. finish.
  - intros s r -> Nf Ex Mv.
    assert (B : (String.eqb f "" || negb (w_exists wd f))%bool = false).
    { apply String.eqb_neq in Nf. rewrite Nf, Ex. reflexivity. }
    run. rewrite B. run. rewrite Mv. run. rewrite update_zero_cons. run. finish.
Qed.

Lemma background_music_guards_example :
  ImagesAndMusic.add_background_music
    (Examples.world [] []) "music/a.mp3"
    (deck_state 14630400 8229600 [new_slide 6 []] [] None) =
  (deck_state 14630400 8229600 [new_slide 6 []]
     [ImagesAndMusic.AttemptingMusic "a.mp3";
      ImagesAndMusic.ErrorMusicPathInvalid "music/a.mp3"] None, Done tt).
Proof.
  destruct (background_music_guards (Examples.world [] []) "music/a.mp3"%string
              14630400 8229600 [new_slide 6 []] [] None) as (_ & G & _).
  apply G; [discriminate|right; reflexivity].
Defined.

(** [find_music_file] only prints.  It returns [None] when the directory
    does not exist or lists no name with an allowed audio extension, and
    otherwise the path, inside the directory, of the first listed name that
    has one. *)
Theorem find_music_file_result wd st :
  (w_isdir wd ImagesAndMusic.MUSIC_DIR = false ->
   ImagesAndMusic.find_music_file wd ImagesAndMusic.MUSIC_DIR st =
   ({| prs := prs st;
       console := console st ++
                  [ImagesAndMusic.MusicDirectoryNotFound ImagesAndMusic.MUSIC_DIR];
       output := output st |}, Done None)) /\
  (forall names,
     w_isdir wd ImagesAndMusic.MUSIC_DIR = true ->
     w_listdir wd ImagesAndMusic.MUSIC_DIR = Return names ->
     prs (fst (ImagesAndMusic.find_music_file wd ImagesAndMusic.MUSIC_DIR st)) = prs st /\
     output (fst (ImagesAndMusic.find_music_file wd ImagesAndMusic.MUSIC_DIR st))
       = output st /\
     ((Forall (fun n => ImagesAndMusic.is_music n = false) names /\
       snd (ImagesAndMusic.find_music_file wd ImagesAndMusic.MUSIC_DIR st) = Done None) \/
      (exists pre f post,
         names = pre ++ f :: post /\
         Forall (fun n => ImagesAndMusic.is_music n = false) pre /\
         ImagesAndMusic.is_music f = true /\
         snd (ImagesAndMusic.find_music_file wd ImagesAndMusic.MUSIC_DIR st) =
           Done (Some (PyStr.join ImagesAndMusic.MUSIC_DIR f))))).
Proof.
  split.
  - intros D. unfold ImagesAndMusic.find_music_file. rewrite D. reflexivity.
  - intros names D Ls.
    destruct (Loop2.find_music_file_run wd) as (Y & E). rewrite E.
    unfold Deck2.music_file. rewrite D, Ls. cbn [negb fst snd prs output].
    split; [reflexivity|]. split; [reflexivity|].
    unfold Deck2.first_music.
    destruct (find ImagesAndMusic.is_music names) as [f|] eqn:Fd.
    + right. destruct (find_first _ _ _ Fd) as (pre & post & -> & Ff & Fp).
      exists pre, f, post. auto.
    + left. split; [|reflexivity]. apply Forall_forall. intros n I.
      exact (find_none _ _ Fd n I).
Qed.

Lemma find_music_file_result_example :
  snd (ImagesAndMusic.find_music_file
         (Examples.world [("music"%string, ["cover.jpg"; "Song.MP3"; "b.wav"]%string)] [])
         ImagesAndMusic.MUSIC_DIR
         (ImagesAndMusic.start
            (Examples.world [("music"%string, ["cover.jpg"; "Song.MP3"; "b.wav"]%string)] [])))
  = Done (Some "music/Song.MP3"%string).
Proof.
  destruct (find_music_file_result
              (Examples.world [("music"%string, ["cover.jpg"; "Song.MP3"; "b.wav"]%string)] [])
              (ImagesAndMusic.start
                 (Examples.world [("music"%string, ["cover.jpg"; "Song.MP3"; "b.wav"]%string)] [])))
    as (_ & R).
  destruct (R ["cover.jpg"; "Song.MP3"; "b.wav"]%string eq_refl eq_refl)
    as (_ & _ & [(F & _)|(pre & f & post & E & Fp & Ff & Rs)]).
  - exfalso. inversion F as [|? ? _ F']; subst. inversion F' as [|? ? B _]; subst.
    discriminate B.
  - vm_compute. reflexivity.
Defined.

(** ** A subdirectory that cannot be listed *)

(** In both scripts a subdirectory whose listing raises still gets its
    title slide; the error is printed, no exception escapes and the loop
    goes on.  The first script leaves its count of subdirectories as it was;
    the second has already counted the title slide. *)
Theorem subdirectory_listing_failure wd name e W H n ss c1 c2 o :
  (w_isdir wd (PyStr.join ImagesOnly.IMAGE_DIR name) = true ->
   w_listdir wd (PyStr.join ImagesOnly.IMAGE_DIR name) = Raise e ->
   exists Y,
     ImagesOnly.process_subdirectory wd name n (deck_state W H ss c1 o) =
     (deck_state W H (ss ++ Deck1.title_slides wd W H name) (c1 ++ Y) o, Done n) /\
     In (ImagesOnly.ErrorProcessingSubdirectory name e) Y) /\
  ((w_isfile wd (PyStr.join ImagesAndMusic.IMAGES_DIR name)
    && ImagesAndMusic.is_image name)%bool = false ->
   w_isdir wd (PyStr.join ImagesAndMusic.IMAGES_DIR name) = true ->
   w_listdir wd (PyStr.join ImagesAndMusic.IMAGES_DIR name) = Raise e ->
   exists Y,
     ImagesAndMusic.process_item wd name n (deck_state W H ss c2 o) =
     (deck_state W H (ss ++ Deck2.title_slides wd W H name) (c2 ++ Y) o,
      Done (n + 1)) /\
     In (ImagesAndMusic.ErrorListingSubdirectory
           (PyStr.join ImagesAndMusic.IMAGES_DIR name) e) Y).
Proof.
  split.
  - intros D Ls. unfold ImagesOnly.process_subdirectory, deck_state. rewrite D. run.
    step_appends (fun W H => Loop1.add_title_slide_deck1 wd name W H).
    run. rewrite Ls. run. eexists. split; [finish|].
    right. apply in_or_app. right. left. reflexivity.
  - intros F D Ls. unfold ImagesAndMusic.process_item, deck_state. rewrite F, D. run.
    destruct (Loop2.add_title_slide_deck2 wd name W H ss
                (c2 ++ [ImagesAndMusic.ProcessingSubdirectory name]) o) as (Y & E).
    unfold deck_state in E. rewrite E. clear E.
    run. rewrite Ls. run. eexists. split; [finish|].
    right. apply in_or_app. right. left. reflexivity.
Qed.

Lemma subdirectory_listing_failure_example :
  exists Y,
    ImagesOnly.process_subdirectory
      (Examples.lock "images/sub"
         (Examples.world [("images/sub"%string, ["c.png"%string])] []))
      "sub" 0 (deck_state 9144000 6858000 [] [] None) =
    (deck_state 9144000 6858000
       ([] ++ Deck1.title_slides
                (Examples.lock "images/sub"
                   (Examples.world [("images/sub"%string, ["c.png"%string])] []))
                9144000 6858000 "sub")
       ([] ++ Y) None, Done 0) /\
    In (ImagesOnly.ErrorProcessingSubdirectory "sub" OSError) Y.
Proof.
  destruct (subdirectory_listing_failure
              (Examples.lock "images/sub"
                 (Examples.world [("images/sub"%string, ["c.png"%string])] []))
              "sub"%string OSError 9144000 6858000 0 [] [] [] None) as (F & _).
  exact (F eq_refl eq_refl).
Defined.

(** ** A deck that runs by itself *)

Lemma image_slides_timed wd W H path w h :
  w_has_transition wd = true ->
  nth_error (w_layouts wd) 6 <> None ->
  w_open_image wd path = Return (w, h) ->
  w = 0 \/ h = 0 \/ in_range W H w h ->
  Forall (Deck.timed 1000) (Deck2.image_slides wd W H path).
Proof.
  intros T L O Size. destruct (nth_error (w_layouts wd) 6) as [lay|] eqn:L6;
    [clear L|congruence].
  assert (Z0 : (w = 0 \/ h = 0) \/ in_range W H w h) by tauto.
  unfold Deck2.image_slides, deck_of.
  destruct Z0 as [Z0|R].
  - rewrite (Exact2.add_image_slide_zero wd path lay W H w h [] [] None L6 O).
    + cbn. constructor; [|constructor].
      unfold Deck.timed, Deck.picture_slide, Deck2.auto_advance. rewrite T.
      reflexivity.
    + destruct Z0 as [-> | ->]; [reflexivity|apply orb_true_r].
  - destruct (new_size_spec W H w h R) as (nw & nh & N & (Bw & Bh) & _).
    pose proof R as (ZW & ZH & Zw & Zh & ZB1 & ZB2).
    assert (W50 : W <= 2 ^ 50) by nia.
    assert (H50 : H <= 2 ^ 50) by nia.
    destruct (centered_spec W nw Bw W50) as (l & C1 & _).
    destruct (centered_spec H nh Bh H50) as (t & C2 & _).
    rewrite (Exact2.add_image_slide_placed2 wd path lay W H w h nw nh l t [] [] None
               L6 O).
    + cbn. constructor; [|constructor].
      unfold Deck.timed, Deck.picture_slide, Deck2.auto_advance. rewrite T.
      reflexivity.
    + apply orb_false_intro; apply Z.eqb_neq; lia.
    + exact N.
    + exact C1.
    + exact C2.
Qed.

Lemma title_slides_timed wd W H title :
  w_has_transition wd = true ->
  nth_error (w_layouts wd) 5 <> None ->
  Forall (Deck.timed 1000) (Deck2.title_slides wd W H title).
Proof.
  intros T L.
  destruct (Run2.add_title_slide_appends2 wd title W H) as (X & HX & (_ & _ & HT & _) & _).
  unfold Deck2.title_slides. rewrite (appends_deck _ _ _ _ HX).
  destruct (HT L) as (s & -> & E & _). constructor; [|constructor].
  unfold Deck.timed. rewrite E. unfold Deck2.auto_advance. rewrite T. reflexivity.
Qed.

Lemma Forall_flat_map {A B} (P : B -> Prop) (f : A -> list B) (l : list A) :
  (forall x, In x l -> Forall P (f x)) -> Forall P (flat_map f l).
Proof.
  induction l as [|x r IH]; intros Hf; simpl; [constructor|].
  apply Forall_app. split; [apply Hf; left; reflexivity|].
  apply IH. intros y I. apply Hf. right. exact I.
Qed.

(** Second script, whole run: when slides offer a transition, the template
    has layouts 5 and 6 and every image file of the tree opens with a size
    that is zero or in range, every slide of the final deck advances by
    itself after one second, with advance on click disabled; embedding the
    music changes no timing. *)
Theorem deck_runs_by_itself wd names :
  w_isdir wd ImagesAndMusic.IMAGES_DIR = true ->
  w_listdir wd ImagesAndMusic.IMAGES_DIR = Return names ->
  w_has_transition wd = true ->
  nth_error (w_layouts wd) 5 <> None ->
  nth_error (w_layouts wd) 6 <> None ->
  (forall path,
     Deck.from_entry wd ImagesAndMusic.is_image path ->
     exists w h, w_open_image wd path = Return (w, h) /\
                 (w = 0 \/ h = 0 \/ in_range Inches_16 Inches_9 w h)) ->
  Forall (Deck.timed (ImagesAndMusic.SLIDE_TRANSITION_SECONDS * 1000))
         (deck_of (ImagesAndMusic.main wd)).
Proof.
  intros D Ls T L5 L6 Readable.
  change (ImagesAndMusic.SLIDE_TRANSITION_SECONDS * 1000) with 1000.
  assert (Images : forall dir items,
            Forall (Deck.timed 1000)
              (flat_map (Deck2.image_slides wd Inches_16 Inches_9)
                        (Deck2.images_of wd dir items))).
  { intros dir items. apply Forall_flat_map. intros path I.
    destruct (Readable path (images_of_entry _ dir items path I)) as (w & h & O & Sz).
    eapply image_slides_timed; eauto. }
  assert (Base : Forall (Deck.timed 1000) (Deck2.deck wd names)).
  { unfold Deck2.deck. apply Forall_flat_map. intros name _. unfold Deck2.entry.
    destruct (w_isfile wd (PyStr.join ImagesAndMusic.IMAGES_DIR name)
              && ImagesAndMusic.is_image name)%bool eqn:E.
    - apply andb_prop in E.
      destruct (Readable (PyStr.join ImagesAndMusic.IMAGES_DIR name)) as (w & h & O & Sz).
      { exists ImagesAndMusic.IMAGES_DIR, name. tauto. }
      eapply image_slides_timed; eauto.
    - destruct (w_isdir wd (PyStr.join ImagesAndMusic.IMAGES_DIR name)); [|constructor].
      unfold Deck2.subdirectory. apply Forall_app. split.
      + apply title_slides_timed; assumption.
      + destruct (w_listdir wd (PyStr.join ImagesAndMusic.IMAGES_DIR name));
          [constructor|apply Images]. }
  assert (Tr : map s_transition (deck_of (ImagesAndMusic.main wd)) =
               map s_transition (Deck2.deck wd names)).
  { pose proof (Main2.main_run2 wd names D Ls) as R. cbv zeta in R.
    unfold deck_of. destruct (Deck2.music_file wd) as [e|mf].
    - destruct R as (P & _). rewrite P. reflexivity.
    - destruct R as (P & _). rewrite P. cbn [slides].
      destruct (Holds2.with_found_music_cases wd mf (Deck2.processed wd names)
                  (Deck2.deck wd names)) as [->|(f & _ & ->)];
        [reflexivity|apply Holds2.with_music_transitions]. }
  unfold Deck.timed in *.
  rewrite Forall_forall in *. intros s I.
  assert (It : In (s_transition s) (map s_transition (Deck2.deck wd names))).
  { rewrite <- Tr. apply in_map. exact I. }
  apply in_map_iff in It. destruct It as (s0 & E0 & I0).
  rewrite <- E0. apply Base. exact I0.
Qed.

Lemma deck_runs_by_itself_example :
  Forall (Deck.timed 1000)
    (deck_of (ImagesAndMusic.main
                (Examples.world
                   [("images"%string, ["sub"; "a.png"]%string);
                    ("images/sub"%string, ["c.png"%string])]
                   [("images/a.png"%string, Return (640, 480));
                    ("images/sub/c.png"%string, Return (0, 0))]))).
Proof.
  apply (deck_runs_by_itself
           (Examples.world
              [("images"%string, ["sub"; "a.png"]%string);
               ("images/sub"%string, ["c.png"%string])]
              [("images/a.png"%string, Return (640, 480));
               ("images/sub/c.png"%string, Return (0, 0))])
           ["sub"; "a.png"]%string eq_refl eq_refl eq_refl);
    [discriminate|discriminate|].
  intros path (dir & name & _ & F & _). cbn in F.
  destruct (String.eqb_spec path "images/a.png") as [->|_].
  - exists 640, 480. split; [reflexivity|]. right. right. unfold in_range.
    unfold Inches_16, Inches_9. lia.
  - destruct (String.eqb_spec path "images/sub/c.png") as [->|_]; [|discriminate].
    exists 0, 0. split; [reflexivity|]. left. reflexivity.
Defined.

(** ** What the first script never does *)

Lemma image_slides_plain1 wd W H path :
  Forall (fun s => s_transition s = no_transition /\ Deck.movies s = [])
         (Deck1.image_slides wd W H path).
Proof.
  destruct (Run1.add_image_slide_appends1 wd path W H) as (X & HX & Sh & _ & U).
  unfold Deck1.image_slides. rewrite (appends_deck _ _ _ _ HX).
  rewrite Forall_forall in *. intros s I. split; [exact (U s I)|].
  exact (proj2 (Sh s I)).
Qed.

Lemma title_slides_plain1 wd W H title :
  Forall (fun s => s_transition s = no_transition /\ Deck.movies s = [])
         (Deck1.title_slides wd W H title).
Proof.
  destruct (Run1.add_title_slide_appends1 wd title W H) as (X & HX & (T & _) & _ & U).
  unfold Deck1.title_slides. rewrite (appends_deck _ _ _ _ HX).
  rewrite Forall_forall in *. intros s I. split; [exact (U s I)|].
  apply text_only_no_movie. exact (T s I).
Qed.

(** First script, whole run: no slide of the deck has a timing or holds a
    movie, and what is saved, when saving succeeds, is that deck at the
    template's slide size. *)
Theorem plain_deck wd names :
  w_isdir wd ImagesOnly.IMAGE_DIR = true ->
  w_listdir wd ImagesOnly.IMAGE_DIR = Return names ->
  Forall (fun s => s_transition s = no_transition /\ Deck.movies s = [])
         (deck_of (ImagesOnly.main wd)) /\
  (w_save wd ImagesOnly.OUTPUT_FILENAME = Return tt ->
   output (fst (ImagesOnly.main wd)) =
   Some {| slide_width := w_template_width wd;
           slide_height := w_template_height wd;
           slides := deck_of (ImagesOnly.main wd) |}).
Proof.
  intros D Ls. destruct (Main1.main_run1 wd names D Ls) as (P & O & _).
  unfold deck_of. rewrite P. cbn [slides]. split.
  - unfold Deck1.deck. apply Forall_app. split.
    + apply Forall_flat_map. intros path _. apply image_slides_plain1.
    + apply Forall_flat_map. intros name _. unfold Deck1.subdirectory.
      apply Forall_app. split; [apply title_slides_plain1|].
      destruct (w_listdir wd (PyStr.join ImagesOnly.IMAGE_DIR name));
        [constructor|].
      apply Forall_flat_map. intros path _. apply image_slides_plain1.
  - intros Sv. rewrite O, Sv. reflexivity.
Qed.

Lemma plain_deck_example :
  output (fst (ImagesOnly.main
                 (Examples.world [("images"%string, ["sub"%string]);
                                  ("images/sub"%string, [])] []))) =
  Some {| slide_width := 9144000; slide_height := 6858000;
          slides := deck_of (ImagesOnly.main
                               (Examples.world [("images"%string, ["sub"%string]);
                                                ("images/sub"%string, [])] [])) |}.
Proof.
  destruct (plain_deck
              (Examples.world [("images"%string, ["sub"%string]);
                               ("images/sub"%string, [])] [])
              ["sub"%string] eq_refl eq_refl) as (_ & Sv).
  exact (Sv eq_refl).
Defined.

(** ** An image the library cannot read *)

(** Second script: when [add_picture] raises, [add_image_slide] reports the
    error (with a line of its own for [FileNotFoundError]) and returns; the
    slide it had added stays in the deck, without picture and without
    timing, and the caller counts the image all the same. *)
Theorem unreadable_image_slide wd name lay e W H n ss c o :
  nth_error (w_layouts wd) 6 = Some lay ->
  w_open_image wd (PyStr.join ImagesAndMusic.IMAGES_DIR name) = Raise e ->
  (w_isfile wd (PyStr.join ImagesAndMusic.IMAGES_DIR name)
   && ImagesAndMusic.is_image name)%bool = true ->
  ImagesAndMusic.add_image_slide wd (PyStr.join ImagesAndMusic.IMAGES_DIR name)
    (deck_state W H ss c o) =
  (deck_state W H (ss ++ [new_slide 6 lay])
     (c ++ [ImagesAndMusic.ProcessingImage (PyStr.join ImagesAndMusic.IMAGES_DIR name);
            ImagesAndMusic.SlideAddedFor
              (PyStr.basename (PyStr.join ImagesAndMusic.IMAGES_DIR name));
            ImagesAndMusic.AttemptingPicture
              (PyStr.basename (PyStr.join ImagesAndMusic.IMAGES_DIR name));
            match e with
            | FileNotFoundError =>
                ImagesAndMusic.ErrorImageNotFound
                  (PyStr.join ImagesAndMusic.IMAGES_DIR name)
            | _ =>
                ImagesAndMusic.ErrorProcessingImage
                  (PyStr.join ImagesAndMusic.IMAGES_DIR name) e
            end]) o,
   Done tt) /\
  Deck.pictures (new_slide 6 lay) = [] /\
  s_transition (new_slide 6 lay) = no_transition /\
  exists Y,
    ImagesAndMusic.process_item wd name n (deck_state W H ss c o) =
    (deck_state W H (ss ++ [new_slide 6 lay]) (c ++ Y) o, Done (n + 1)).
Proof.
  intros L O F.
  pose proof (Exact2.add_image_slide_unreadable wd _ lay W H e ss c o L O) as E.
  split; [|split; [|split]].
  - rewrite E. destruct e; reflexivity.
  - unfold Deck.pictures, new_slide. cbn [s_shapes].
    apply (textual_no_media _ (textual_placeholders lay)).
  - reflexivity.
  - unfold ImagesAndMusic.process_item. rewrite F. unfold bind at 1. rewrite E.
    eexists. unfold ret. reflexivity.
Qed.

Lemma unreadable_image_slide_example :
  exists Y,
    ImagesAndMusic.process_item
      (Examples.world [] [("images/a.png"%string, Raise LibraryError)])
      "a.png" 0 (deck_state 14630400 8229600 [] [] None) =
    (deck_state 14630400 8229600 ([] ++ [new_slide 6 []]) ([] ++ Y) None,
     Done (0 + 1)).
Proof.
  destruct (unreadable_image_slide
              (Examples.world [] [("images/a.png"%string, Raise LibraryError)])
              "a.png"%string [] LibraryError 14630400 8229600 0 [] [] None
              eq_refl eq_refl eq_refl) as (_ & _ & _ & R).
  exact R.
Defined.
